(** * pydsm.model: distributional semantic models

    A shallow embedding of [src/pydsm/model.py]: the corpus helpers, the
    context-extraction generator [DSM._vocabularize], the constructors of
    [DSM], [CooccurrenceDSM] and [RandomIndexing], the two accumulation
    steps [_build], the threshold filter and re-weighting.

    Python values are given the types the code uses them at: tokens are
    strings, frequencies and accumulator cells are integers ([Z]; the numpy
    accumulators only ever hold small integral floats), dictionaries are
    finite maps, and a raised exception is the [Error] case of [result]. *)

From Stdlib Require Import ZArith Lia.
From stdpp Require Import base option list gmap strings pretty fin_maps.

Local Open Scope string_scope.
Local Open Scope Z_scope.

(** ** Exceptions and the state-and-error monad *)

Inductive exn : Type :=
| TypeError (msg : string)
| KeyError (key : string)
| AttributeError (name : string)
| ValueError (msg : string)
| IndexError.

Inductive result (A : Type) : Type :=
| Ok (a : A)
| Error (e : exn).
Arguments Ok {A} a.
Arguments Error {A} e.

(** A computation over a mutable state [S] that may raise. *)
Definition M (S A : Type) : Type := S -> result (A * S).

Definition raise {S A} (e : exn) : M S A := fun _ => Error e.

#[global] Instance M_ret {S} : MRet (M S) := fun A a s => Ok (a, s).
#[global] Instance M_bind {S} : MBind (M S) := fun A B k m s =>
  match m s with
  | Ok (a, s') => k a s'
  | Error e => Error e
  end.

Definition modify {S} (f : S -> S) : M S unit := fun s => Ok (tt, f s).

(** [for x in xs: ...] collecting what each iteration produces. *)
Fixpoint for_each {S A B} (f : A -> M S B) (xs : list A) : M S (list B) :=
  match xs with
  | [] => mret []
  | x :: xs' => y ← f x; ys ← for_each f xs'; mret (y :: ys)
  end.

(** [for x in xs: ...] threading a loop state. *)
Fixpoint fold_each {S A B} (f : B -> A -> M S B) (b : B) (xs : list A) : M S B :=
  match xs with
  | [] => mret b
  | x :: xs' => b' ← f b x; fold_each f b' xs'
  end.

(** Run a computation on the first component of a pair of states. *)
Definition on_fst {S T A} (m : M S A) : M (S * T) A :=
  fun st => match m (fst st) with
            | Ok (a, s') => Ok (a, (s', snd st))
            | Error e => Error e
            end.

Definition on_snd {S T A} (m : M T A) : M (S * T) A :=
  fun st => match m (snd st) with
            | Ok (a, t') => Ok (a, (fst st, t'))
            | Error e => Error e
            end.

(** ** Python sequences *)

(** [l[a:b]] with Python's treatment of negative and out-of-range bounds. *)
Definition py_bound (n k : Z) : Z :=
  if k <? 0 then Z.max 0 (k + n) else Z.min k n.

Definition py_slice {A} (l : list A) (a b : Z) : list A :=
  let n := Z.of_nat (length l) in
  let lo := py_bound n a in
  let hi := py_bound n b in
  take (Z.to_nat (hi - lo)) (drop (Z.to_nat lo) l).

(** [enumerate(l)] *)
Definition enumerate {A} (l : list A) : list (nat * A) := imap pair l.

(** ** Corpus *)

(** An element of a sentence is a word or a list of words (an n-gram group). *)
Inductive item : Type :=
| Word (w : string)
| Ngram (ws : list string).

Definition sentence : Type := list item.

(** A corpus, once opened, is a sequence whose elements are either lists
    (pre-tokenised sentences) or raw lines still to be tokenised. *)
Inductive document : Type :=
| Tokens (s : sentence)
| Line (text : string).

Definition Corpus : Type := list document.

(** The collaborators of [pydsm.utils] and the interpreter's [hash]. *)
Class Utils : Type := {
  tokenize : string -> list string;
  hash : string -> Z
}.

Definition _flatten (context : list item) : list string :=
  flat_map (fun c => match c with
                     | Ngram ws => ws
                     | Word w => [w]
                     end) context.

Definition _tokenize `{Utils} (s : string) : list string := tokenize s.

Definition _read_documents `{Utils} (corpus : Corpus) : list sentence :=
  map (fun d => match d with
                | Tokens s => s
                | Line text => map Word (_tokenize text)
                end) corpus.

(** ** Configuration and vocabulary *)

(** Values stored in the configuration mapping: booleans, integers and
    [float("inf")]. *)
Inductive cval : Type :=
| VBool (b : bool)
| VInt (z : Z)
| VInf.

Abbreviation Config := (gmap string cval).
Abbreviation Vocab := (gmap string Z).

Definition truthy (v : cval) : bool :=
  match v with
  | VBool b => b
  | VInt z => negb (z =? 0)
  | VInf => true
  end.

(** The number a configuration value compares as ([True == 1]). *)
Inductive num : Type :=
| Fin (z : Z)
| Inf.

Definition to_num (v : cval) : num :=
  match v with
  | VBool b => Fin (if b then 1 else 0)
  | VInt z => Fin z
  | VInf => Inf
  end.

Definition num_leb (a b : num) : bool :=
  match a, b with
  | Fin x, Fin y => x <=? y
  | _, Inf => true
  | Inf, Fin _ => false
  end.

Definition num_ltb (a b : num) : bool :=
  match a, b with
  | Fin x, Fin y => x <? y
  | Fin _, Inf => true
  | Inf, _ => false
  end.

(** [config[key]] *)
Definition config_getitem {S} (config : Config) (key : string) : M S cval :=
  match config !! key with
  | Some v => mret v
  | None => raise (KeyError key)
  end.

(** [config.get(key, default)] *)
Definition config_get (config : Config) (key : string) (d : cval) : cval :=
  default d (config !! key).

(** The vocabulary is a [defaultdict(int)]: reading an absent key yields 0
    and stores it. *)
Definition vocab_getitem (w : string) : M Vocab Z :=
  fun v => match v !! w with
           | Some f => Ok (f, v)
           | None => Ok (0, <[w := 0]> v)
           end.

(** [vocabulary[w] += 1] *)
Definition vocab_incr (w : string) : M Vocab unit :=
  f ← vocab_getitem w; modify (fun v => <[w := f + 1]> v).

(** ** Vocabulary and context extraction: [DSM._vocabularize] *)

Definition span_left (L : Z) (i : nat) : Z :=
  if Z.of_nat i - L >? 0 then Z.of_nat i - L else 0.

Definition span_right (R : Z) (i : nat) (s : sentence) : Z :=
  if Z.of_nat i + R + 1 <=? Z.of_nat (length s)
  then Z.of_nat i + R + 1
  else Z.of_nat (length s).

(** Lines 158-162: the two flattened context lists around position [i]. *)
Definition context_span (L R : Z) (s : sentence) (i : nat)
  : list string * list string :=
  let left := span_left L i in
  let right := span_right R i s in
  (_flatten (py_slice s left (Z.of_nat i)),
   _flatten (py_slice s (Z.of_nat i + 1) right)).

(** [[w for w in context if self.vocabulary[w] > threshold]] *)
Definition keep_frequent (threshold : cval) (context : list string)
  : M Vocab (list string) :=
  kept ← for_each (fun w => f ← vocab_getitem w;
                            mret (if num_ltb (to_num threshold) (Fin f)
                                  then [w] else [])) context;
  mret (concat kept).

(** [[w + '_{}'.format(i+1) for i, w in enumerate(context)]] *)
Definition tag_positions (context : list string) : list string :=
  imap (fun k w => w +:+ "_" +:+ pretty (Z.of_nat k + 1)) context.

Definition tag_side (suffix : string) (context : list string) : list string :=
  map (fun w => w +:+ suffix) context.

(** The body of [for focus in focuses], lines 155-174. *)
Definition visit_focus (config : Config) (L R : Z) (s : sentence) (i : nat)
    (focus : string) : M Vocab (string * list string) :=
  let ordered := config_get config "ordered" (VBool false) in
  let directed := config_get config "directed" (VBool false) in
  vocab_incr focus;;
  f ← vocab_getitem focus;
  let _ := num_ltb (Fin f) (to_num (config_get config "lower_threshold" (VInt 0))) in
  let (context_left, context_right) := context_span L R s i in
  threshold ← config_getitem config "lower_threshold";
  '(context_left, context_right) ←
     (if truthy threshold
      then l ← keep_frequent threshold context_left;
           r ← keep_frequent threshold context_right;
           mret (l, r)
      else mret (context_left, context_right));
  let (context_left, context_right) :=
    if truthy directed
    then (tag_side "_left" context_left, tag_side "_right" context_right)
    else (context_left, context_right) in
  let (context_left, context_right) :=
    if truthy ordered
    then (tag_positions context_left, tag_positions context_right)
    else (context_left, context_right) in
  mret (focus, (context_left ++ context_right)%list).

(** [if isinstance(focuses, str): focuses = [focuses]] *)
Definition focuses_of (it : item) : list string :=
  match it with
  | Word w => [w]
  | Ngram ws => ws
  end.

Definition visit_sentence (config : Config) (L R : Z) (s : sentence)
  : M Vocab (list (string * list string)) :=
  yielded ← for_each (fun '(i, focuses) =>
                        for_each (visit_focus config L R s i) (focuses_of focuses))
                     (enumerate s);
  mret (concat yielded).

(** The generator, run to exhaustion: the pairs it yields, in order. *)
Definition _vocabularize `{Utils} (config : Config) (L R : Z) (corpus : Corpus)
  : M Vocab (list (string * list string)) :=
  yielded ← for_each (visit_sentence config L R) (_read_documents corpus);
  mret (concat yielded).

(** ** Threshold filtering: [DSM._filter_threshold_words] *)

Abbreviation Colloc := (gmap string (gmap string Z)).

(** [lower_threshold <= freq <= higher_threshold] *)
Definition within_thresholds (config : Config) (freq : Z) : bool :=
  let lower_threshold := config_get config "lower_threshold" (VInt 0) in
  let higher_threshold := config_get config "higher_threshold" VInf in
  num_leb (to_num lower_threshold) (Fin freq)
  && num_leb (Fin freq) (to_num higher_threshold).

(** Lines 186-190: delete the row of [word] and its entry in every row. *)
Definition drop_word (word : string) (colloc_dict : Colloc) : Colloc :=
  delete word <$> delete word colloc_dict.

Definition _filter_threshold_words (config : Config) (vocabulary : Vocab)
    (colloc_dict : Colloc) : Colloc :=
  foldl (fun d '(word, freq) =>
           if within_thresholds config freq then d else drop_word word d)
        colloc_dict (map_to_list vocabulary).

(** ** What an accumulation step returns *)

Inductive built : Type :=
| AsDict (colfreqs : Colloc)
| AsTuple (values : list (list Z)) (row2word : list string) (col2word : list Z).

(** The generator handed to [_build]: nothing runs until it is iterated. *)
Abbreviation Text := (M Vocab (list (string * list string))).

(** ** Co-occurrence accumulation: [CooccurrenceDSM._build] *)

(** [colfreqs[focus][context] += 1] on a [defaultdict] of [defaultdict(int)]. *)
Definition count_context (focus : string) (colfreqs : Colloc) (context : string)
  : Colloc :=
  let row := default ∅ (colfreqs !! focus) in
  <[focus := <[context := default 0 (row !! context) + 1]> row]> colfreqs.

Definition count_pair (colfreqs : Colloc) (pair : string * list string) : Colloc :=
  let (focus, contexts) := pair in
  foldl (count_context focus) colfreqs contexts.

Definition count_pairs (text : list (string * list string)) : Colloc :=
  foldl count_pair ∅ text.

Definition CooccurrenceDSM_build {G} (text : Text) : M (Vocab * G) built :=
  pairs ← on_fst text;
  mret (AsDict (count_pairs pairs)).

(** ** numpy *)

(** The global generator of [numpy.random]: [np.random.seed] replaces its
    state and [np.random.choice] draws from it, with replacement. *)
Class Numpy : Type := {
  rng_state : Type;
  np_random_seed : Z -> rng_state;
  np_random_choice : rng_state -> list Z -> nat -> list Z * rng_state
}.

(** [operator.index] of a configuration value. *)
Definition as_index {S} (v : cval) : M S Z :=
  match v with
  | VBool b => mret (if b then 1 else 0)
  | VInt z => mret z
  | VInf => raise (TypeError "'float' object cannot be interpreted as an integer")
  end.

(** [np.arange(n)] *)
Definition np_arange {S} (v : cval) : M S (list Z) :=
  match v with
  | VInf => raise (ValueError "Maximum allowed size exceeded")
  | _ => n ← as_index v; mret (Z.of_nat <$> seq 0 (Z.to_nat n))
  end.

(** [np.zeros((1, n))[0]]: a dimension has to be an integer, and numpy does
    not take a bool for one. *)
Definition np_zeros {S} (v : cval) : M S (list Z) :=
  match v with
  | VBool _ => raise (TypeError "an integer is required")
  | _ =>
      n ← as_index v;
      if n <? 0 then raise (ValueError "negative dimensions are not allowed")
      else mret (replicate (Z.to_nat n) 0)
  end.

(** [np.random.choice(a, size=(1, n))[0]] *)
Definition choice `{Numpy} (a : list Z) (v : cval) : M rng_state (list Z) :=
  n ← as_index v;
  if n <? 0 then raise (ValueError "negative dimensions are not allowed")
  else if bool_decide (a = []) && (0 <? n)
  then raise (ValueError "'a' cannot be empty unless no samples are taken")
  else fun g => Ok (np_random_choice g a (Z.to_nat n)).

(** One step of [np.add.at(a, indices, v)]: [a[j] += v], negative indices
    counting from the end. *)
Definition add_at1 (v : Z) (a : list Z) (j : Z) : result (list Z) :=
  let n := Z.of_nat (length a) in
  if (0 <=? j) && (j <? n) then Ok (alter (Z.add v) (Z.to_nat j) a)
  else if (- n <=? j) && (j <? 0) then Ok (alter (Z.add v) (Z.to_nat (j + n)) a)
  else Error IndexError.

Fixpoint np_add_at (a : list Z) (indices : list Z) (v : Z) : result (list Z) :=
  match indices with
  | [] => Ok a
  | j :: rest =>
      match add_at1 v a j with
      | Ok a' => np_add_at a' rest v
      | Error e => Error e
      end
  end.

Definition lift {S A} (r : result A) : M S A :=
  fun s => match r with Ok a => Ok (a, s) | Error e => Error e end.

(** ** Random-indexing accumulation: [RandomIndexing._build] *)

(** [colfreqs] is a plain dict whose key order is the order of the rows. *)
Abbreviation Rows := (list (string * list Z)).

Fixpoint rows_get (colfreqs : Rows) (focus : string) : option (list Z) :=
  match colfreqs with
  | [] => None
  | (w, row) :: rest => if decide (w = focus) then Some row else rows_get rest focus
  end.

Fixpoint rows_set (colfreqs : Rows) (focus : string) (row : list Z) : Rows :=
  match colfreqs with
  | [] => [(focus, row)]
  | (w, r) :: rest =>
      if decide (w = focus) then (w, row) :: rest
      else (w, r) :: rows_set rest focus row
  end.

(** [v[:v.size // 2]] and [v[v.size // 2:]] *)
Definition positive_half (v : list Z) : list Z :=
  py_slice v 0 (Z.of_nat (length v) / 2).

Definition negative_half (v : list Z) : list Z :=
  py_slice v (Z.of_nat (length v) / 2) (Z.of_nat (length v)).

(** [word_to_col]: the index vector drawn for each context seen so far. *)
Abbreviation Cache := (gmap string (list Z)).

Section RandomIndexingBuild.
Context `{Utils} `{Numpy}.

(** Lines 365-373: the index vector of [context], drawn on first use. *)
Definition index_vector (config : Config) (indices : list Z)
    (word_to_col : Cache) (context : string) : M rng_state (list Z * Cache) :=
  match word_to_col !! context with
  | Some v => mret (v, word_to_col)
  | None =>
      let seed := hash context `mod` 4294967295 in
      (fun _ => Ok (tt, np_random_seed seed));;
      num_indices ← config_getitem config "num_indices";
      v ← choice indices num_indices;
      mret (v, <[context := v]> word_to_col)
  end.

(** Lines 362-373: the two lists of index arrays of one pair. *)
Definition collect_indices (config : Config) (indices : list Z)
    (acc : list (list Z) * list (list Z) * Cache) (context : string)
  : M rng_state (list (list Z) * list (list Z) * Cache) :=
  let '(pos_context_indices, neg_context_indices, word_to_col) := acc in
  '(v, word_to_col) ← index_vector config indices word_to_col context;
  mret (pos_context_indices ++ [positive_half v],
        neg_context_indices ++ [negative_half v],
        word_to_col)%list.

(** Lines 358-378: the body of [for focus, contexts in text]. *)
Definition accumulate_pair (config : Config) (indices : list Z)
    (st : Rows * Cache) (pair : string * list string) : M rng_state (Rows * Cache) :=
  let (colfreqs, word_to_col) := st in
  let (focus, contexts) := pair in
  '(colfreqs, row) ←
     match rows_get colfreqs focus with
     | Some row => mret (colfreqs, row)
     | None =>
         dimensionality ← config_getitem config "dimensionality";
         zeros ← np_zeros dimensionality;
         mret (rows_set colfreqs focus zeros, zeros)
     end;
  '(pos_context_indices, neg_context_indices, word_to_col) ←
     fold_each (collect_indices config indices) ([], [], word_to_col) contexts;
  row ← (if bool_decide (pos_context_indices = []) then mret row
         else lift (np_add_at row (concat pos_context_indices) 1));
  row ← (if bool_decide (neg_context_indices = []) then mret row
         else lift (np_add_at row (concat neg_context_indices) (-1)));
  mret (rows_set colfreqs focus row, word_to_col).

(** [np.vstack] needs at least one row. *)
Definition np_vstack {S} (rows : list (list Z)) : M S (list (list Z)) :=
  match rows with
  | [] => raise (ValueError "need at least one array to concatenate")
  | _ => mret rows
  end.

Definition RandomIndexing_build (config : Config) (text : Text)
  : M (Vocab * rng_state) built :=
  dimensionality ← config_getitem config "dimensionality";
  indices ← np_arange dimensionality;
  pairs ← on_fst text;
  '(colfreqs, _) ← on_snd (fold_each (accumulate_pair config indices) ([], ∅) pairs);
  let row2word := colfreqs.*1 in
  values ← np_vstack colfreqs.*2;
  let col2word := indices in
  mret (AsTuple values row2word col2word).

End RandomIndexingBuild.

(** ** Model instances and construction *)

(** The matrix abstraction of [pydsm.indexmatrix], built either from a
    nested frequency mapping or from values with row and column labels. *)
Class MatrixLib : Type := {
  IndexMatrix : Type;
  IndexMatrix_of_dict : Colloc -> IndexMatrix;
  IndexMatrix_of_arrays : list (list Z) -> list string -> list Z -> IndexMatrix
}.

Inductive Class_ : Type :=
| cls_CooccurrenceDSM
| cls_RandomIndexing.

(** A parameter of a call: a required parameter to which the call binds no
    argument makes the call raise [TypeError] before the body runs. *)
Inductive slot (A : Type) : Type :=
| Unbound
| Bound (a : A).
Arguments Unbound {A}.
Arguments Bound {A} a.

(** Values a caller may pass in [**kwargs]. *)
Inductive kwarg : Type :=
| KwValue (v : option cval)
| KwConfig (c : Config).

Section Model.
Context `{Utils} `{Numpy} `{MatrixLib}.

(** The attributes of an instance. An attribute that no statement has
    assigned is [None] here, and reading it raises [AttributeError]. *)
Record Instance : Type := {
  type_ : Class_;
  attr_window_size : option (list Z);
  attr_config : option Config;
  attr__vocabulary : option Vocab;
  attr_matrix : option IndexMatrix;
  attr_corpus : option Corpus
}.

Definition getattr {S A} (name : string) (a : option A) : M S A :=
  match a with
  | Some x => mret x
  | None => raise (AttributeError name)
  end.

(** The [vocabulary] property: an empty table when none was stored. *)
Definition vocabulary (self : Instance) : Vocab :=
  default ∅ (attr__vocabulary self).

(** [for key, val in kwargs.items(): if val is not None: config[key] = val] *)
Definition merge_options (config : Config) (kwargs : list (string * option cval))
  : Config :=
  foldl (fun c '(key, val) =>
           match val with
           | Some v => <[key := v]> c
           | None => c
           end) config kwargs.

(** What [self._build] resolves to. *)
Definition _build (cls : Class_) (config : Config) (text : Text)
  : M (Vocab * rng_state) built :=
  match cls with
  | cls_CooccurrenceDSM => CooccurrenceDSM_build text
  | cls_RandomIndexing => RandomIndexing_build config text
  end.

(** Lines 89-91: run the accumulation step over the generator and, when it
    returns a plain mapping, filter it by the thresholds. The vocabulary the
    traversal leaves behind is returned with it. *)
Definition build (cls : Class_) (config : Config) (L R : Z)
    (vocabulary : Vocab) (corpus : Corpus) : M rng_state (built * Vocab) :=
  fun g =>
    match _build cls config (_vocabularize config L R corpus) (vocabulary, g) with
    | Ok (AsDict colloc_dict, (vocabulary, g)) =>
        Ok (AsDict (_filter_threshold_words config vocabulary colloc_dict),
            vocabulary, g)
    | Ok (AsTuple values row2word col2word, (vocabulary, g)) =>
        Ok (AsTuple values row2word col2word, vocabulary, g)
    | Error e => Error e
    end.

(** Lines 92-94: wrap the result; the rows of the matrix are the outer keys
    of the mapping, or the row labels of the triple. *)
Definition to_matrix (colloc_dict : built) : IndexMatrix :=
  match colloc_dict with
  | AsDict d => IndexMatrix_of_dict d
  | AsTuple values row2word col2word =>
      IndexMatrix_of_arrays values row2word col2word
  end.

Definition build_matrix (cls : Class_) (config : Config) (L R : Z)
    (vocabulary : Vocab) (corpus : Corpus) : M rng_state (IndexMatrix * Vocab) :=
  '(colloc_dict, vocabulary) ← build cls config L R vocabulary corpus;
  mret (to_matrix colloc_dict, vocabulary).

(** [DSM.__init__]. The call binds its arguments first; then the window is
    checked, the configuration merged, the vocabulary adopted and the matrix
    built or adopted. [_vocabulary] holds the table the [vocabulary] property
    returns, which stores an empty table the first time none is there. No
    statement assigns [corpus]. *)
Definition DSM___init__ (cls : Class_) (matrix : option IndexMatrix)
    (corpus : Corpus) (window_size : list Z) (vocabulary : option Vocab)
    (config : slot (option Config)) (kwargs : list (string * option cval))
  : M rng_state Instance :=
  match config with
  | Unbound =>
      raise (TypeError "__init__() missing 1 required positional argument: 'config'")
  | Bound config =>
      match window_size with
      | [L; R] =>
          let config := merge_options (default ∅ config) kwargs in
          let vocabulary := default ∅ vocabulary in
          '(matrix, vocabulary) ←
             match matrix with
             | None => build_matrix cls config L R vocabulary corpus
             | Some matrix => mret (matrix, vocabulary)
             end;
          mret {| type_ := cls;
                  attr_window_size := Some window_size;
                  attr_config := Some config;
                  attr__vocabulary := Some vocabulary;
                  attr_matrix := Some matrix;
                  attr_corpus := None |}
      | _ => raise (TypeError "Window size must be a tuple of length 2.")
      end
  end.

Definition CooccurrenceDSM___init__ (corpus : Corpus) (window_size : list Z)
    (matrix : option IndexMatrix) (vocabulary : option Vocab)
    (lower_threshold higher_threshold ordered directed : option cval)
    (kwargs : list (string * kwarg)) : M rng_state Instance :=
  DSM___init__ cls_CooccurrenceDSM matrix corpus window_size vocabulary
    Unbound
    [("lower_threshold", lower_threshold);
     ("higher_threshold", higher_threshold);
     ("ordered", ordered);
     ("directed", directed)].

Definition RandomIndexing___init__ (corpus : Corpus) (window_size : list Z)
    (config : option Config)
    (lower_threshold higher_threshold dimensionality num_indices : option cval)
    (vocabulary : option Vocab) (matrix : option IndexMatrix)
    (ordered directed : option cval)
    (kwargs : list (string * kwarg)) : M rng_state Instance :=
  DSM___init__ cls_RandomIndexing matrix corpus window_size vocabulary
    (Bound config)
    [("lower_threshold", lower_threshold);
     ("higher_threshold", higher_threshold);
     ("dimensionality", dimensionality);
     ("num_indices", num_indices);
     ("ordered", ordered);
     ("directed", directed)].

(** [type(self)(corpus=..., window_size=..., matrix=..., vocabulary=...,
    config=...)]: every other parameter takes its default. *)
Definition new (cls : Class_) (corpus : Corpus) (window_size : list Z)
    (matrix : IndexMatrix) (vocabulary : Vocab) (config : Config)
  : M rng_state Instance :=
  match cls with
  | cls_CooccurrenceDSM =>
      CooccurrenceDSM___init__ corpus window_size (Some matrix) (Some vocabulary)
        None None (Some (VBool false)) (Some (VBool false))
        [("config", KwConfig config)]
  | cls_RandomIndexing =>
      RandomIndexing___init__ corpus window_size (Some config)
        None None (Some (VInt 2000)) (Some (VInt 8))
        (Some vocabulary) (Some matrix)
        (Some (VBool false)) (Some (VBool false)) []
  end.

Definition _new_instance (self : Instance) (matrix : IndexMatrix)
  : M rng_state Instance :=
  corpus ← getattr "corpus" (attr_corpus self);
  window_size ← getattr "window_size" (attr_window_size self);
  config ← getattr "config" (attr_config self);
  new (type_ self) corpus window_size matrix (vocabulary self) config.

Definition apply_weighting (self : Instance)
    (weight_func : IndexMatrix -> IndexMatrix) : M rng_state Instance :=
  matrix ← getattr "matrix" (attr_matrix self);
  _new_instance self (weight_func matrix).
End Model.

(** ** The window as the specification words it *)

(** The elements of [l] at the positions [p], [p+1], ... that satisfy [P]. *)
Fixpoint select_from {A} (P : Z -> bool) (p : Z) (l : list A) : list A :=
  match l with
  | [] => []
  | x :: rest =>
      if P p then x :: select_from P (p + 1) rest
      else select_from P (p + 1) rest
  end.

Definition items_at {A} (P : Z -> bool) (l : list A) : list A :=
  select_from P 0 l.

(** The tokens at positions [[max(0, i-L), i)] of the sentence, flattened. *)
Definition window_left (L : Z) (s : sentence) (i : nat) : list string :=
  _flatten (items_at (fun p => (Z.max 0 (Z.of_nat i - L) <=? p)
                               && (p <? Z.of_nat i)) s).

(** The tokens at positions [(i, min(n, i+R+1))] of the sentence, flattened. *)
Definition window_right (R : Z) (s : sentence) (i : nat) : list string :=
  _flatten (items_at (fun p => (Z.of_nat i <? p)
                               && (p <? Z.min (Z.of_nat (length s))
                                              (Z.of_nat i + R + 1))) s).

(** Lines 167-172 on context lists that were not threshold-filtered. *)
Definition tagged (config : Config) (context_left context_right : list string)
  : list string :=
  let ordered := config_get config "ordered" (VBool false) in
  let directed := config_get config "directed" (VBool false) in
  let (cl, cr) :=
    if truthy directed
    then (tag_side "_left" context_left, tag_side "_right" context_right)
    else (context_left, context_right) in
  let (cl, cr) :=
    if truthy ordered then (tag_positions cl, tag_positions cr) else (cl, cr) in
  (cl ++ cr)%list.

(** Every token of the corpus in reading order: the focus tokens. *)
Definition focus_tokens `{Utils} (corpus : Corpus) : list string :=
  flat_map _flatten (_read_documents corpus).

(** The pairs the specification expects from a sentence, and from a corpus. *)
Definition expected_of_sentence (config : Config) (L R : Z) (s : sentence)
  : list (string * list string) :=
  flat_map (fun '(i, focuses) =>
              map (fun focus => (focus, tagged config (window_left L s i)
                                                      (window_right R s i)))
                  (focuses_of focuses))
           (enumerate s).

Definition expected_pairs `{Utils} (config : Config) (L R : Z) (corpus : Corpus)
  : list (string * list string) :=
  flat_map (expected_of_sentence config L R) (_read_documents corpus).

(** [vocabulary[w] += 1] as a function on the table. *)
Definition bump (v : Vocab) (w : string) : Vocab :=
  <[w := default 0 (v !! w) + 1]> v.


(** ** A concrete environment for worked examples *)

(** Whitespace tokenisation and a hash that sums character codes. *)
Definition example_utils : Utils :=
  {| tokenize := String.words;
     hash := fun w => Z.of_nat (foldr (fun c n => (Ascii.nat_of_ascii c + n)%nat)
                                      0%nat (String.list_ascii_of_string w)) |}.

(** A linear congruential generator standing in for [numpy.random]. *)
Definition example_draw (a : list Z) (g : Z) : Z :=
  nth (Z.to_nat ((g / 65536) `mod` Z.of_nat (length a))) a 0.

Fixpoint example_choice (g : Z) (a : list Z) (n : nat) : list Z * Z :=
  match n with
  | O => ([], g)
  | S n' =>
      let g' := (1103515245 * g + 12345) `mod` 2147483648 in
      let (rest, g'') := example_choice g' a n' in
      (example_draw a g' :: rest, g'')
  end.

Definition example_numpy : Numpy :=
  {| rng_state := Z;
     np_random_seed := fun seed => seed;
     np_random_choice := example_choice |}.

(** A matrix that records what it was built from. *)
Inductive example_matrix : Type :=
| FromDict (colloc_dict : Colloc)
| FromArrays (values : list (list Z)) (row2word : list string) (col2word : list Z)
| Weighted (m : example_matrix).

Definition example_matrixlib : MatrixLib :=
  {| IndexMatrix := example_matrix;
     IndexMatrix_of_dict := FromDict;
     IndexMatrix_of_arrays := FromArrays |}.

(** ** Reading a nested frequency mapping *)

(** [counts[focus][context]] with every absent key read as zero. *)
Definition counts (colfreqs : Colloc) (focus context : string) : Z :=
  default 0 (colfreqs !! focus ≫= fun row => row !! context).

(** The context lists of [focus] across the whole sequence, aggregated. *)
Definition contexts_of (text : list (string * list string)) (focus : string)
  : list string :=
  flat_map (fun '(f, contexts) => if decide (f = focus) then contexts else []) text.

(** How many times [context] appears among them. *)
Definition occurrences (text : list (string * list string))
    (focus context : string) : nat :=
  length (filter (fun c => c = context) (contexts_of text focus)).

(** ** Reading the threshold filter *)

(** [word] is recorded in the vocabulary with a frequency outside
    [[lower_threshold, higher_threshold]]. *)
Definition out_of_bounds (config : Config) (vocabulary : Vocab) (word : string)
  : Prop :=
  exists freq, vocabulary !! word = Some freq
               /\ within_thresholds config freq = false.

(** The same for a list of vocabulary items, as a test. *)
Definition dropped (config : Config) (items : list (string * Z)) (word : string)
  : bool :=
  existsb (fun '(w, freq) => bool_decide (w = word)
                             && negb (within_thresholds config freq)) items.

(** What the loop leaves of a row that survives. *)
Definition pruned (config : Config) (items : list (string * Z)) (row : gmap string Z)
  : gmap string Z :=
  foldl (fun r '(word, freq) =>
           if within_thresholds config freq then r else delete word r)
        row items.

(** ** The threshold bounds as the specification words them *)









(** ** One context occurrence in the random-indexing accumulator *)

(** What lines 372-378 do to the row of the focus for one occurrence of a
    context whose index vector is [v]: +1 at every index of the positive
    half, -1 at every index of the negative half. *)
Definition occurrence_update (row : list Z) (v : list Z) : result (list Z) :=
  match np_add_at row (positive_half v) 1 with
  | Ok row' => np_add_at row' (negative_half v) (-1)
  | Error e => Error e
  end.

(** One occurrence update after the other, for the contexts of a pair. *)
Fixpoint occurrences_update (row : list Z) (vs : list (list Z)) : result (list Z) :=
  match vs with
  | [] => Ok row
  | v :: rest =>
      match occurrence_update row v with
      | Ok row' => occurrences_update row' rest
      | Error e => Error e
      end
  end.

Definition zsum (l : list Z) : Z := foldr Z.add 0 l.

(** The sum over the accumulator of the absolute values of the changes. *)
Definition abs_change (row row' : list Z) : Z :=
  zsum (zip_with (fun x y => Z.abs (y - x)) row row').

(** How many times the index [j] occurs in [indices]. *)
Definition hits (j : Z) (indices : list Z) : Z :=
  Z.of_nat (length (filter (fun x => x = j) indices)).

(** Every index addresses a cell of an accumulator of length [n]. *)
Definition in_range (n : nat) (indices : list Z) : Prop :=
  Forall (fun j => 0 <= j < Z.of_nat n) indices.

(** No index is in both halves of [v]. *)
Definition halves_disjoint (v : list Z) : Prop :=
  forall j, j ∈ positive_half v -> j ∉ negative_half v.

(** The accumulator of [focus] before a pair is processed: its row, or the
    zero vector the loop creates for a focus it has not seen. *)
Definition row_before (colfreqs : Rows) (focus : string) (d : nat) : list Z :=
  default (replicate d 0) (rows_get colfreqs focus).

(** What [np.random.choice] guarantees: as many draws as asked for, each an
    element of the population. *)
Class NumpyLaws `{Numpy} : Prop := {
  choice_length : forall g a n, length (np_random_choice g a n).1 = n;
  choice_elem : forall g a n x, a <> [] -> x ∈ (np_random_choice g a n).1 -> x ∈ a
}.

(** Every cached index vector has [n] entries, all below [d]. *)
Definition cache_ok (d : nat) (n : Z) (word_to_col : gmap string (list Z)) : Prop :=
  forall context v, word_to_col !! context = Some v ->
                    Z.of_nat (length v) = n /\ in_range d v.

(** Every accumulator has [d] cells. *)
Definition rows_ok (d : nat) (colfreqs : Rows) : Prop :=
  forall focus row, rows_get colfreqs focus = Some row -> length row = d.

(** ** Results up to the state of the random generator *)

(** What a computation returned or raised, forgetting the final state. *)
Definition outcome {S A} (r : result (A * S)) : result A :=
  match r with
  | Ok (a, _) => Ok a
  | Error e => Error e
  end.

(** The same, keeping the vocabulary and forgetting only the generator. *)
Definition outcome_with_vocabulary {G A} (r : result (A * (Vocab * G)))
  : result (A * Vocab) :=
  match r with
  | Ok (a, (v, _)) => Ok (a, v)
  | Error e => Error e
  end.

(** A computation on the generator whose result does not depend on the
    state the generator is in when it starts. *)
Definition reseeding {G A} (m : M G A) : Prop :=
  forall g1 g2, outcome (m g1) = outcome (m g2).

(** The integer a configuration value stands for where numpy wants a size. *)
Definition index_of (v : cval) : option Z :=
  match v with
  | VBool b => Some (if b then 1 else 0)
  | VInt z => Some z
  | VInf => None
  end.

(** ** Which errors a computation can raise *)

Definition raises_only {S A} (P : exn -> Prop) (m : M S A) : Prop :=
  forall s e, m s = Error e -> P e.

(** The errors of a build: missing configuration keys and what numpy raises
    for sizes and indices it cannot use. *)
Definition build_error (e : exn) : Prop :=
  match e with
  | KeyError _ | ValueError _ | IndexError => True
  | TypeError msg => msg = "'float' object cannot be interpreted as an integer"
                     \/ msg = "an integer is required"
  | AttributeError _ => False
  end.

(** * Further properties of the model *)

(** ** Reading the vocabulary *)

(** [vocabulary[w]] as a reader sees it: 0 for a word never counted. *)
Definition freq (v : Vocab) (w : string) : Z := default 0 (v !! w).

(** What reading [vocabulary[w]] leaves behind: a stored 0 for a new word. *)
Definition touch (v : Vocab) (w : string) : Vocab :=
  match v !! w with
  | Some _ => v
  | None => <[w := 0]> v
  end.

(** How many times [w] occurs in a list of tokens. *)
Definition count_in (w : string) (tokens : list string) : Z :=
  Z.of_nat (length (filter (fun x => x = w) tokens)).

(** [vocabulary[w] > threshold] *)
Definition exceeds (threshold : cval) (v : Vocab) (w : string) : bool :=
  num_ltb (to_num threshold) (Fin (freq v w)).

(** The context list a visit yields: the two sides of the window, filtered by
    the frequencies in [v] when the threshold is truthy, then tagged. *)
Definition emitted (config : Config) (threshold : cval) (v : Vocab)
    (context_left context_right : list string) : list string :=
  if truthy threshold
  then tagged config
         (filter (fun w => exceeds threshold v w = true) context_left)
         (filter (fun w => exceeds threshold v w = true) context_right)
  else tagged config context_left context_right.

(** The vocabulary a visit leaves behind. *)
Definition visited (threshold : cval) (v : Vocab) (focus : string)
    (context_left context_right : list string) : Vocab :=
  if truthy threshold
  then foldl touch (foldl touch (bump v focus) context_left) context_right
  else bump v focus.

(** No word is read with a smaller frequency in [v'] than in [v]. *)
Definition freq_le (v v' : Vocab) : Prop := forall w, freq v w <= freq v' w.

(** Every context of every pair exceeds the threshold in [v]. *)
Definition contexts_exceed (threshold : cval) (v : Vocab)
    (pairs : list (string * list string)) : Prop :=
  Forall (fun pair => Forall (fun w => exceeds threshold v w = true) pair.2) pairs.

(** ** Keyword options *)

(** The value the keyword options give for [key]: that of the last option of
    that name whose value is not [None], if there is one. *)
Definition keyword (kwargs : list (string * option cval)) (key : string)
  : option cval :=
  foldl (fun acc '(k, val) =>
           if decide (k = key)
           then match val with Some x => Some x | None => acc end
           else acc) None kwargs.

(** The names [RandomIndexing.__init__] passes on as keyword options. *)
Definition RandomIndexing_options : list string :=
  ["lower_threshold"; "higher_threshold"; "dimensionality"; "num_indices";
   "ordered"; "directed"].

(** ** Reading what the random-indexing accumulation returns *)

(** The key order of a dict: a key takes the last place when it is first
    stored, and keeps its place afterwards. *)
Definition seen (keys : list string) (focus : string) : list string :=
  if decide (focus ∈ keys) then keys else (keys ++ [focus])%list.

Definition first_seen (focuses : list string) : list string :=
  foldl seen [] focuses.

Section SeededVectors.
Context `{Utils} `{Numpy}.

(** The index vector of a context: [n] draws from [0 .. d-1] by the
    generator seeded with the hash of the context. *)
Definition seeded_vector (d : nat) (n : Z) (context : string) : list Z :=
  (np_random_choice (np_random_seed (hash context `mod` 4294967295))
     (Z.of_nat <$> seq 0 d) (Z.to_nat n)).1.

(** Every cached index vector is the seeded one. *)
Definition cache_seeded (d : nat) (n : Z) (word_to_col : Cache) : Prop :=
  forall context v, word_to_col !! context = Some v ->
                    v = seeded_vector d n context.

(** What a list of context occurrences adds to the cell [k] of an
    accumulator: for each occurrence, the number of times [k] is drawn in
    the positive half of its index vector minus the number of times it is
    drawn in the negative half. *)
Definition projection (d : nat) (n : Z) (contexts : list string) (k : nat) : Z :=
  zsum (map (fun context =>
               hits (Z.of_nat k) (positive_half (seeded_vector d n context))
               - hits (Z.of_nat k) (negative_half (seeded_vector d n context)))
            contexts).
End SeededVectors.

(** ** Reading the rows of the co-occurrence mapping *)

(** Every row holds an entry and every entry is at least 1. *)
Definition sparse (colfreqs : Colloc) : Prop :=
  forall focus row, colfreqs !! focus = Some row ->
    row <> ∅ /\ forall context x, row !! context = Some x -> 1 <= x.

(** The entry stored for a pair of words, if any. *)
Definition stored (colfreqs : Colloc) (focus context : string) : option Z :=
  colfreqs !! focus ≫= fun row => row !! context.

(** ** Symmetric windows *)

(** A nested frequency mapping that reads the same in both directions. *)
Definition symmetric (colfreqs : Colloc) : Prop :=
  forall a b, counts colfreqs a b = counts colfreqs b a.

(** Position [j] lies in the window of [w] positions to either side of
    position [i] in a sentence of [n] elements. *)
Definition in_window (w : Z) (n i j : nat) : bool :=
  (Z.max 0 (Z.of_nat i - w) <=? Z.of_nat j) && (Z.of_nat j <? Z.of_nat i)
  || (Z.of_nat i <? Z.of_nat j)
     && (Z.of_nat j <? Z.min (Z.of_nat n) (Z.of_nat i + w + 1)).
(** * Properties *)

(** ** The monad *)

Ltac unfold_M :=
  unfold mbind, M_bind, mret, M_ret, raise, modify, lift, on_fst, on_snd in *.

Lemma for_each_total {S A B} (f : A -> M S B) (g : A -> B) (h : S -> A -> S)
    (xs : list A) (s : S) :
  (forall x s, f x s = Ok (g x, h s x)) ->
  for_each f xs s = Ok (map g xs, foldl h s xs).
Proof.
  intros Hf. revert s.
  induction xs as [|x xs IH]; intros s; [reflexivity|].
  cbn. unfold_M. rewrite Hf, IH. reflexivity.
Qed.

Lemma for_each_within {S A B} (f : A -> M S B) (g : A -> B) (h : S -> A -> S)
    (xs : list A) (s : S) :
  (forall x s, x ∈ xs -> f x s = Ok (g x, h s x)) ->
  for_each f xs s = Ok (map g xs, foldl h s xs).
Proof.
  revert s.
  induction xs as [|x xs IH]; intros s Hf; [reflexivity|].
  cbn. unfold_M. rewrite Hf by left. rewrite IH; [reflexivity|].
  intros y t Hy. apply Hf. by right.
Qed.

(** A loop whose iterations can only raise [e], and one of which always
    does, raises [e]. *)
Lemma for_each_raises {S A B} (f : A -> M S B) (e : exn) (xs : list A) (s : S) :
  (forall x s, f x s = Error e \/ exists r, f x s = Ok r) ->
  (exists x, x ∈ xs /\ forall s, f x s = Error e) ->
  for_each f xs s = Error e.
Proof.
  intros Hf. revert s.
  induction xs as [|x xs IH]; intros s [y [Hy Hfail]].
  - inversion Hy.
  - cbn. unfold_M.
    apply elem_of_cons in Hy as [->|Hy].
    + by rewrite Hfail.
    + destruct (Hf x s) as [->|[[b s'] ->]]; [reflexivity|].
      rewrite IH; [reflexivity|eauto].
Qed.

(** ** Slices and positions *)

Lemma select_from_ext {A} (P Q : Z -> bool) (p : Z) (l : list A) :
  (forall q, p <= q -> P q = Q q) -> select_from P p l = select_from Q p l.
Proof.
  revert p. induction l as [|x l IH]; intros p HPQ; [reflexivity|].
  cbn. rewrite HPQ by lia. rewrite (IH (p + 1)); [reflexivity|].
  intros q Hq. apply HPQ. lia.
Qed.

Lemma select_from_inside {A} (a b p : Z) (l : list A) :
  a <= p ->
  select_from (fun q => (a <=? q) && (q <? b)) p l = take (Z.to_nat (b - p)) l.
Proof.
  revert p. induction l as [|x l IH]; intros p Hp; cbn.
  - by rewrite take_nil.
  - destruct (Z.leb_spec a p); [|lia]. cbn.
    destruct (Z.ltb_spec p b).
    + rewrite IH by lia.
      replace (Z.to_nat (b - p)) with (S (Z.to_nat (b - (p + 1)))) by lia.
      reflexivity.
    + rewrite IH by lia.
      replace (Z.to_nat (b - p)) with 0%nat by lia.
      replace (Z.to_nat (b - (p + 1))) with 0%nat by lia.
      by rewrite take_0.
Qed.

Lemma select_from_range {A} (a b p : Z) (l : list A) :
  p <= a ->
  select_from (fun q => (a <=? q) && (q <? b)) p l
  = take (Z.to_nat (b - a)) (drop (Z.to_nat (a - p)) l).
Proof.
  revert p. induction l as [|x l IH]; intros p Hp; cbn.
  - by rewrite drop_nil, take_nil.
  - destruct (Z.leb_spec a p); cbn.
    + assert (p = a) as -> by lia.
      replace (Z.to_nat (a - a)) with 0%nat by lia. cbn.
      destruct (Z.ltb_spec a b).
      * rewrite select_from_inside by lia.
        replace (Z.to_nat (b - a)) with (S (Z.to_nat (b - (a + 1)))) by lia.
        reflexivity.
      * rewrite select_from_inside by lia.
        replace (Z.to_nat (b - a)) with 0%nat by lia.
        replace (Z.to_nat (b - (a + 1))) with 0%nat by lia.
        by rewrite take_0.
    + rewrite IH by lia.
      replace (Z.to_nat (a - p)) with (S (Z.to_nat (a - (p + 1)))) by lia.
      reflexivity.
Qed.

Lemma py_slice_range {A} (l : list A) (a b : Z) :
  0 <= a -> 0 <= b ->
  py_slice l a b = items_at (fun q => (a <=? q) && (q <? b)) l.
Proof.
  intros Ha Hb. unfold items_at, py_slice, py_bound.
  rewrite select_from_range by lia.
  destruct (Z.ltb_spec a 0); [lia|]. destruct (Z.ltb_spec b 0); [lia|].
  replace (a - 0) with a by lia.
  set (n := length l).
  destruct (Z.le_gt_cases a (Z.of_nat n)) as [Han|Han].
  - rewrite (Z.min_l a) by lia.
    destruct (Z.le_gt_cases b (Z.of_nat n)) as [Hbn|Hbn].
    + by rewrite (Z.min_l b) by lia.
    + rewrite (Z.min_r b) by lia.
      rewrite !take_ge; [reflexivity| |]; rewrite length_drop; lia.
  - rewrite (Z.min_r a) by lia.
    rewrite !drop_ge by lia. by rewrite !take_nil.
Qed.

Lemma span_left_max (L : Z) (i : nat) : span_left L i = Z.max 0 (Z.of_nat i - L).
Proof. unfold span_left. destruct (Z.gtb_spec (Z.of_nat i - L) 0); lia. Qed.

Lemma span_right_min (R : Z) (i : nat) (s : sentence) :
  span_right R i s = Z.min (Z.of_nat (length s)) (Z.of_nat i + R + 1).
Proof.
  unfold span_right.
  destruct (Z.leb_spec (Z.of_nat i + R + 1) (Z.of_nat (length s))); lia.
Qed.

Lemma context_span_window (L R : Z) (s : sentence) (i : nat) :
  0 <= R ->
  context_span L R s i = (window_left L s i, window_right R s i).
Proof.
  intros HR. unfold context_span, window_left, window_right.
  rewrite span_left_max, span_right_min.
  rewrite !py_slice_range by lia.
  do 2 f_equal. apply select_from_ext.
  intros q _. f_equal. destruct (Z.leb_spec (Z.of_nat i + 1) q), (Z.ltb_spec (Z.of_nat i) q); lia.
Qed.

(** ** The generator *)

Lemma vocab_incr_bump (w : string) (v : Vocab) : vocab_incr w v = Ok (tt, bump v w).
Proof.
  unfold vocab_incr, vocab_getitem, bump. unfold_M.
  destruct (v !! w) as [f|] eqn:E; cbn; [reflexivity|].
  by rewrite insert_insert_eq.
Qed.

Lemma vocab_getitem_bump (w : string) (v : Vocab) :
  vocab_getitem w (bump v w) = Ok (default 0 (v !! w) + 1, bump v w).
Proof. unfold vocab_getitem, bump. by rewrite lookup_insert_eq. Qed.

(** Without a stored [lower_threshold] every visit raises [KeyError]. *)
Lemma visit_focus_KeyError (config : Config) (L R : Z) (s : sentence) (i : nat)
    (focus : string) (v : Vocab) :
  config !! "lower_threshold" = None ->
  visit_focus config L R s i focus v = Error (KeyError "lower_threshold").
Proof.
  intros Hcfg. unfold visit_focus.
  unfold mbind at 1, M_bind at 1. rewrite vocab_incr_bump.
  unfold mbind at 1, M_bind at 1. rewrite vocab_getitem_bump.
  destruct (context_span L R s i) as [cl cr].
  unfold config_getitem. rewrite Hcfg. reflexivity.
Qed.

(** With a falsy [lower_threshold] a visit yields the tagged window. *)
Lemma visit_focus_unfiltered (config : Config) (L R : Z) (s : sentence) (i : nat)
    (focus : string) (v : Vocab) (threshold : cval) :
  config !! "lower_threshold" = Some threshold ->
  truthy threshold = false ->
  visit_focus config L R s i focus v
  = Ok ((focus, tagged config (context_span L R s i).1 (context_span L R s i).2),
        bump v focus).
Proof.
  intros Hcfg Hthr. unfold visit_focus, tagged.
  unfold mbind at 1, M_bind at 1. rewrite vocab_incr_bump.
  unfold mbind at 1, M_bind at 1. rewrite vocab_getitem_bump.
  destruct (context_span L R s i) as [cl cr]. cbn [fst snd].
  unfold config_getitem. rewrite Hcfg. unfold_M. rewrite Hthr.
  destruct (truthy (config_get config "directed" (VBool false)));
    destruct (truthy (config_get config "ordered" (VBool false))); reflexivity.
Qed.

Lemma foldl_bump_enumerate (s : sentence) (v : Vocab) :
  foldl (fun v '(_, focuses) => foldl bump v (focuses_of focuses)) v (enumerate s)
  = foldl bump v (_flatten s).
Proof.
  unfold enumerate.
  change (@pair nat item) with (fun k x => (@id nat k, x : item)).
  generalize (@id nat) as g. revert v.
  induction s as [|it s IH]; intros v g; [reflexivity|].
  cbn. unfold _flatten in *. rewrite foldl_app.
  rewrite <- (IH _ (g ∘ S)). by destruct it.
Qed.

Lemma visit_sentence_unfiltered (config : Config) (L R : Z) (s : sentence)
    (v : Vocab) (threshold : cval) :
  0 <= R ->
  config !! "lower_threshold" = Some threshold ->
  truthy threshold = false ->
  visit_sentence config L R s v
  = Ok (expected_of_sentence config L R s, foldl bump v (_flatten s)).
Proof.
  intros HR Hcfg Hthr. unfold visit_sentence, expected_of_sentence.
  unfold mbind, M_bind.
  rewrite (for_each_total _
             (fun '(i, focuses) =>
                map (fun focus => (focus, tagged config (window_left L s i)
                                                        (window_right R s i)))
                    (focuses_of focuses))
             (fun v '(i, focuses) => foldl bump v (focuses_of focuses))).
  - unfold mret, M_ret. rewrite <- flat_map_concat_map. f_equal. f_equal.
    apply foldl_bump_enumerate.
  - intros [i focuses] v'.
    apply for_each_total. intros focus v''.
    rewrite (visit_focus_unfiltered _ _ _ _ _ _ _ threshold) by assumption.
    by rewrite context_span_window.
Qed.

Lemma _vocabularize_unfiltered `{Utils} (config : Config) (L R : Z)
    (corpus : Corpus) (v : Vocab) (threshold : cval) :
  0 <= R ->
  config !! "lower_threshold" = Some threshold ->
  truthy threshold = false ->
  _vocabularize config L R corpus v
  = Ok (expected_pairs config L R corpus, foldl bump v (focus_tokens corpus)).
Proof.
  intros HR Hcfg Hthr. unfold _vocabularize, expected_pairs, focus_tokens.
  unfold mbind, M_bind.
  rewrite (for_each_total _ (expected_of_sentence config L R)
             (fun v s => foldl bump v (_flatten s))).
  - unfold mret, M_ret. rewrite <- flat_map_concat_map. do 2 f_equal.
    generalize (_read_documents corpus) as ss. clear. intros ss. revert v.
    induction ss as [|s ss IH]; intros v; [reflexivity|].
    cbn. by rewrite foldl_app, IH.
  - intros s v'. by apply (visit_sentence_unfiltered _ _ _ _ _ threshold).
Qed.

(** C3. For a window [(L, R)] of non-negative spans, the two context lists
    computed for the focus at position [i] of a sentence are the flattened
    tokens at positions [[max(0, i-L), i)] and [(i, min(n, i+R+1))], whatever
    the configuration (so also with [ordered] enabled) and whether or not
    positions hold n-gram groups; when no threshold filter applies, the pairs
    the generator yields are exactly these windows, carrying only the
    [directed]/[ordered] tags the configuration asks for. *)
Theorem C3_context_window `{Utils} (config : Config) (L R : Z) :
  0 <= R ->
  (forall (s : sentence) (i : nat),
     context_span L R s i = (window_left L s i, window_right R s i))
  /\ (forall (threshold : cval) (corpus : Corpus) (v : Vocab),
        config !! "lower_threshold" = Some threshold ->
        truthy threshold = false ->
        exists v', _vocabularize config L R corpus v
                   = Ok (expected_pairs config L R corpus, v')).
Proof.
  intros HR. split.
  - intros s i. by apply context_span_window.
  - intros threshold corpus v Hcfg Hthr. eexists.
    by apply (_vocabularize_unfiltered _ _ _ _ _ threshold).
Qed.

Lemma C3_witness :
  0 <= 1
  /\ context_span 1 1 [Word "a"; Word "b"; Ngram ["c"; "d"]; Word "e"; Word "f"] 3
      = (["c"; "d"], ["f"])
  /\ exists v',
       _vocabularize (H := example_utils)
         {["lower_threshold" := VInt 0; "ordered" := VBool true]} 1 1
         [Tokens [Word "a"; Ngram ["b"; "c"]; Word "d"]] ∅
       = Ok ([("a", ["b_1"; "c_2"]); ("b", ["a_1"; "d_1"]);
              ("c", ["a_1"; "d_1"]); ("d", ["b_1"; "c_2"])], v').
Proof.
  split; [lia|]. split.
  - exact (proj1 (C3_context_window (H := example_utils) ∅ 1 1 ltac:(lia))
                 [Word "a"; Word "b"; Ngram ["c"; "d"]; Word "e"; Word "f"] 3%nat).
  - refine (proj2 (C3_context_window (H := example_utils)
                     ({["lower_threshold" := VInt 0; "ordered" := VBool true]}
                      : Config) 1 1 ltac:(lia))
                  (VInt 0) [Tokens [Word "a"; Ngram ["b"; "c"]; Word "d"]] ∅ _ _).
    + vm_compute. reflexivity.
    + reflexivity.
Defined.

(** The five-token sentence of the specification under a [(1, 1)] window. *)
Example vocabularize_five_tokens :
  _vocabularize (H := example_utils) {["lower_threshold" := VInt 0]} 1 1
    [Line "a b c d e"] ∅
  = Ok ([("a", ["b"]); ("b", ["a"; "c"]); ("c", ["b"; "d"]);
         ("d", ["c"; "e"]); ("e", ["d"])],
        list_to_map [("a", 1); ("b", 1); ("c", 1); ("d", 1); ("e", 1)]).
Proof. vm_compute. reflexivity. Qed.

(** A negative right span makes the slice bound count from the end. *)
Example context_span_negative_right :
  context_span 1 (-3) [Word "a"; Word "b"; Word "c"; Word "d"; Word "e"] 0
  = ([], ["b"; "c"]).
Proof. reflexivity. Qed.

(** ** Missing [lower_threshold] *)

Lemma for_each_only {S A B} (f : A -> M S B) (e : exn) (xs : list A) (s : S) :
  (forall x s, f x s = Error e \/ exists r, f x s = Ok r) ->
  for_each f xs s = Error e \/ exists r, for_each f xs s = Ok r.
Proof.
  intros Hf. revert s. induction xs as [|x xs IH]; intros s; cbn.
  - right. by eexists.
  - unfold_M. destruct (Hf x s) as [->|[[b s'] ->]]; [by left|].
    destruct (IH s') as [->|[[bs s''] ->]]; [by left|right; by eexists].
Qed.

Lemma visit_focuses_KeyError (config : Config) (L R : Z) (s : sentence) (i : nat)
    (focuses : list string) (v : Vocab) :
  config !! "lower_threshold" = None ->
  for_each (visit_focus config L R s i) focuses v
  = match focuses with
    | [] => Ok ([], v)
    | _ => Error (KeyError "lower_threshold")
    end.
Proof.
  intros Hcfg. destruct focuses as [|w ws]; [reflexivity|].
  cbn. unfold mbind, M_bind. by rewrite visit_focus_KeyError.
Qed.

Lemma flatten_nonempty (s : sentence) :
  _flatten s <> [] -> exists i it, s !! i = Some it /\ focuses_of it <> [].
Proof.
  induction s as [|it s IH]; [done|]. cbn. intros Hne.
  destruct (decide (focuses_of it = [])) as [Hit|Hit].
  - destruct IH as (i & it' & Hi & Hit').
    + intros Hs. apply Hne. unfold _flatten in Hs. rewrite Hs.
      destruct it; cbn in Hit; [discriminate|by subst].
    + exists (S i), it'. by split.
  - exists 0%nat, it. by split.
Qed.

Lemma visit_sentence_KeyError (config : Config) (L R : Z) (s : sentence)
    (v : Vocab) :
  config !! "lower_threshold" = None ->
  visit_sentence config L R s v
  = if decide (_flatten s = []) then visit_sentence config L R s v
    else Error (KeyError "lower_threshold").
Proof.
  intros Hcfg. destruct (decide (_flatten s = [])) as [|Hne]; [reflexivity|].
  unfold visit_sentence, mbind, M_bind.
  rewrite (for_each_raises _ (KeyError "lower_threshold")); [reflexivity| |].
  - intros [i focuses] v'. rewrite visit_focuses_KeyError by assumption.
    destruct (focuses_of focuses); [right; by eexists|by left].
  - destruct (flatten_nonempty s Hne) as (i & it & Hi & Hit).
    exists (i, it). split.
    + unfold enumerate. apply elem_of_lookup_imap. by exists i, it.
    + intros v'. rewrite visit_focuses_KeyError by assumption.
      by destruct (focuses_of it).
Qed.

Lemma visit_sentence_only (config : Config) (L R : Z) (s : sentence) (v : Vocab) :
  config !! "lower_threshold" = None ->
  visit_sentence config L R s v = Error (KeyError "lower_threshold")
  \/ exists r, visit_sentence config L R s v = Ok r.
Proof.
  intros Hcfg. unfold visit_sentence, mbind, M_bind.
  destruct (for_each_only
              (fun '(i, focuses) =>
                 for_each (visit_focus config L R s i) (focuses_of focuses))
              (KeyError "lower_threshold") (enumerate s) v) as [->|[[r v'] ->]].
  - intros [i focuses] v'. rewrite visit_focuses_KeyError by assumption.
    destruct (focuses_of focuses); [right; by eexists|by left].
  - by left.
  - right. by eexists.
Qed.

Lemma _vocabularize_KeyError `{Utils} (config : Config) (L R : Z)
    (corpus : Corpus) (v : Vocab) :
  config !! "lower_threshold" = None ->
  focus_tokens corpus <> [] ->
  _vocabularize config L R corpus v = Error (KeyError "lower_threshold").
Proof.
  intros Hcfg Hne. unfold _vocabularize, mbind, M_bind.
  rewrite (for_each_raises _ (KeyError "lower_threshold")); [reflexivity| |].
  - intros s v'. by apply visit_sentence_only.
  - unfold focus_tokens in Hne.
    assert (exists s, s ∈ _read_documents corpus /\ _flatten s <> []) as (s & Hs & Hfs).
    { induction (_read_documents corpus) as [|s ss IH]; [done|].
      cbn in Hne. destruct (decide (_flatten s = [])) as [E|E].
      - rewrite E in Hne. destruct (IH Hne) as (s' & Hs' & Hne').
        exists s'. split; [by right|done].
      - exists s. split; [by left|done]. }
    exists s. split; [done|]. intros v'.
    rewrite visit_sentence_KeyError by assumption.
    by destruct (decide (_flatten s = [])).
Qed.

Lemma merge_options_lookup_None (config : Config)
    (kwargs : list (string * option cval)) (key : string) :
  config !! key = None ->
  (forall val, (key, Some val) ∉ kwargs) ->
  merge_options config kwargs !! key = None.
Proof.
  unfold merge_options. revert config.
  induction kwargs as [|[k val] kwargs IH]; intros config Hcfg Hkw; [done|].
  cbn. apply IH.
  - destruct val as [x|]; [|done].
    rewrite lookup_insert_ne; [done|]. intros ->. apply (Hkw x). by left.
  - intros x Hx. apply (Hkw x). by right.
Qed.

(** C6 (as amended). When neither the configuration mapping nor a keyword
    override stored [lower_threshold], constructing a model around a supplied
    matrix raises nothing, and consuming the context-extraction generator of
    that model over a corpus holding at least one token raises
    [KeyError('lower_threshold')]. *)
Theorem C6_missing_lower_threshold `{Utils} `{Numpy} `{MatrixLib}
    (cls : Class_) (matrix : IndexMatrix) (corpus : Corpus) (L R : Z)
    (vocab : option Vocab) (config : option Config)
    (kwargs : list (string * option cval)) (g : rng_state) (v : Vocab) :
  default ∅ config !! "lower_threshold" = None ->
  (forall val, ("lower_threshold", Some val) ∉ kwargs) ->
  focus_tokens corpus <> [] ->
  exists self cfg,
    DSM___init__ cls (Some matrix) corpus [L; R] vocab (Bound config) kwargs g
    = Ok (self, g)
    /\ attr_config self = Some cfg
    /\ cfg !! "lower_threshold" = None
    /\ _vocabularize cfg L R corpus v = Error (KeyError "lower_threshold").
Proof.
  intros Hcfg Hkw Hne.
  eexists _, (merge_options (default ∅ config) kwargs).
  split; [reflexivity|]. split; [reflexivity|].
  assert (merge_options (default ∅ config) kwargs !! "lower_threshold" = None)
    as Hmerged by by apply merge_options_lookup_None.
  split; [done|]. by apply _vocabularize_KeyError.
Qed.

Lemma C6_witness :
  exists self cfg,
    RandomIndexing___init__ (H := example_utils) (H0 := example_numpy)
      (H1 := example_matrixlib) [Line "a b"] [1; 1] None None None
      (Some (VInt 2000)) (Some (VInt 8)) None (Some (FromDict ∅))
      (Some (VBool false)) (Some (VBool false)) [] 0
    = Ok (self, 0)
    /\ attr_config self = Some cfg
    /\ cfg !! "lower_threshold" = None
    /\ _vocabularize (H := example_utils) cfg 1 1 [Line "a b"] ∅
       = Error (KeyError "lower_threshold").
Proof.
  apply (C6_missing_lower_threshold (H := example_utils) (H0 := example_numpy)
           (H1 := example_matrixlib) cls_RandomIndexing (FromDict ∅)
           [Line "a b"] 1 1 None None).
  - reflexivity.
  - intros val Hin. repeat (apply elem_of_cons in Hin as [Hin|Hin]; [discriminate|]).
    inversion Hin.
  - discriminate.
Defined.

(** A corpus may be non-empty and still hold no token: nothing is raised. *)
Lemma C6_counterexample :
  (∅ : Config) !! "lower_threshold" = None
  /\ [Tokens []] <> []
  /\ _vocabularize (H := example_utils) ∅ 1 1 [Tokens []] ∅ = Ok ([], ∅).
Proof. split; [reflexivity|]. split; [discriminate|reflexivity]. Qed.

(** A blank line of a text corpus is such a sentence. *)
Example vocabularize_blank_line :
  _vocabularize (H := example_utils) ∅ 1 1 [Line ""] ∅ = Ok ([], ∅).
Proof. reflexivity. Qed.

(** Built from a corpus, the random-indexing model raises the same error out
    of its constructor. *)
Lemma RandomIndexing_default_build `{Utils} `{Numpy} `{MatrixLib}
    (corpus : Corpus) (L R d : Z) (num_indices : option cval)
    (ordered directed : option cval) (g : rng_state) :
  focus_tokens corpus <> [] ->
  RandomIndexing___init__ corpus [L; R] None None None (Some (VInt d)) num_indices
    None None ordered directed [] g
  = Error (KeyError "lower_threshold").
Proof.
  intros Hne. unfold RandomIndexing___init__, DSM___init__.
  unfold build_matrix, build, _build, RandomIndexing_build.
  unfold mbind, M_bind.
  set (cfg := merge_options _ _).
  assert (cfg !! "lower_threshold" = None) as Hcfg.
  { subst cfg. apply merge_options_lookup_None; [done|].
    intros val Hin.
    repeat (apply elem_of_cons in Hin as [Hin|Hin]; [discriminate|]).
    inversion Hin. }
  assert (cfg !! "dimensionality" = Some (VInt d)) as Hdim.
  { subst cfg. cbn. destruct directed, ordered, num_indices; cbn;
      rewrite ?(lookup_insert_ne _ "directed"), ?(lookup_insert_ne _ "ordered"),
              ?(lookup_insert_ne _ "num_indices") by done;
      by rewrite lookup_insert_eq. }
  clearbody cfg. unfold config_getitem. rewrite Hdim.
  unfold np_arange, as_index. unfold_M. cbn.
  by rewrite _vocabularize_KeyError.
Qed.

(** ** Co-occurrence counting *)

Lemma counts_count_context (colfreqs : Colloc) (focus context f c : string) :
  counts (count_context focus colfreqs context) f c
  = counts colfreqs f c + (if decide (focus = f /\ context = c) then 1 else 0).
Proof.
  unfold counts, count_context.
  destruct (decide (focus = f)) as [->|Hf].
  - rewrite lookup_insert_eq. cbn.
    destruct (decide (context = c)) as [->|Hc].
    + rewrite lookup_insert_eq. rewrite decide_True by done.
      destruct (colfreqs !! f) as [row|]; cbn; [done|by rewrite lookup_empty].
    + rewrite lookup_insert_ne by done. rewrite decide_False by tauto.
      destruct (colfreqs !! f) as [row|]; cbn; [|rewrite lookup_empty; cbn]; lia.
  - rewrite lookup_insert_ne by done. rewrite decide_False by tauto. lia.
Qed.

Lemma counts_count_pair (colfreqs : Colloc) (focus : string)
    (contexts : list string) (f c : string) :
  counts (count_pair colfreqs (focus, contexts)) f c
  = counts colfreqs f c
    + Z.of_nat (length (filter (fun x => x = c)
                               (if decide (focus = f) then contexts else []))).
Proof.
  cbn. revert colfreqs.
  induction contexts as [|x contexts IH]; intros colfreqs; cbn.
  - destruct (decide (focus = f)); cbn; lia.
  - rewrite IH, counts_count_context.
    destruct (decide (focus = f)) as [->|Hf].
    + rewrite filter_cons. destruct (decide (x = c)) as [->|Hx].
      * rewrite decide_True by done. cbn. lia.
      * rewrite decide_False by tauto. lia.
    + rewrite decide_False by tauto. cbn. lia.
Qed.

Lemma counts_foldl_count_pair (text : list (string * list string))
    (colfreqs : Colloc) (f c : string) :
  counts (foldl count_pair colfreqs text) f c
  = counts colfreqs f c + Z.of_nat (occurrences text f c).
Proof.
  unfold occurrences, contexts_of. revert colfreqs.
  induction text as [|[focus contexts] text IH]; intros colfreqs.
  - cbn. lia.
  - cbn [foldl]. rewrite IH, counts_count_pair. cbn [flat_map].
    rewrite filter_app, length_app. lia.
Qed.

(** C4. The co-occurrence accumulation step returns the nested mapping in
    which [counts[focus][context]], absent keys reading as zero, is the
    number of times [context] appears across the context lists of [focus] in
    the whole sequence, repetitions within one list each counting. *)
Theorem C4_cooccurrence_counts {G : Type} (text : list (string * list string))
    (v : Vocab) (g : G) :
  exists colfreqs,
    CooccurrenceDSM_build (mret text) (v, g) = Ok (AsDict colfreqs, (v, g))
    /\ forall focus context,
         counts colfreqs focus context = Z.of_nat (occurrences text focus context).
Proof.
  exists (count_pairs text). split; [reflexivity|].
  intros focus context. unfold count_pairs.
  rewrite counts_foldl_count_pair. unfold counts. by rewrite lookup_empty.
Qed.

(** Two sentences with a repeated pair. *)
Example cooccurrence_repeated_pair :
  count_pairs [("a", ["b"]); ("b", ["a"]); ("a", ["b"; "b"])]
  = {[ "a" := {[ "b" := 3 ]}; "b" := {[ "a" := 1 ]} ]}.
Proof. by vm_compute. Qed.

(** ** Threshold filtering *)

Lemma drop_word_lookup (word k : string) (d : Colloc) :
  drop_word word d !! k
  = if decide (word = k) then None else delete word <$> d !! k.
Proof.
  unfold drop_word. rewrite lookup_fmap, lookup_delete.
  by destruct (decide (word = k)).
Qed.

Lemma filter_step_lookup_dropped (config : Config) (items : list (string * Z))
    (d : Colloc) (k : string) :
  dropped config items k = true ->
  foldl (fun d '(word, freq) =>
           if within_thresholds config freq then d else drop_word word d)
        d items !! k = None.
Proof.
  revert d. induction items as [|[w f] items IH]; intros d; [done|].
  intros Hk. cbn [foldl].
  change (dropped config ((w, f) :: items) k)
    with (bool_decide (w = k) && negb (within_thresholds config f)
          || dropped config items k) in Hk.
  destruct (dropped config items k) eqn:Hrest; [by apply IH|].
  rewrite orb_false_r in Hk. apply andb_true_iff in Hk as [Hw Hf].
  apply bool_decide_eq_true in Hw as ->. apply negb_true_iff in Hf. rewrite Hf.
  clear IH Hrest. generalize (drop_word_lookup k k d). rewrite decide_True by done.
  generalize (drop_word k d) as d'. clear.
  induction items as [|[w' f'] items IH]; intros d' Hd'; [done|].
  cbn. apply IH. destruct (within_thresholds config f'); [done|].
  rewrite drop_word_lookup. destruct (decide (w' = k)); [done|]. by rewrite Hd'.
Qed.

Lemma filter_step_lookup_kept (config : Config) (items : list (string * Z))
    (d : Colloc) (k : string) :
  dropped config items k = false ->
  foldl (fun d '(word, freq) =>
           if within_thresholds config freq then d else drop_word word d)
        d items !! k = pruned config items <$> d !! k.
Proof.
  unfold pruned. revert d.
  induction items as [|[w f] items IH]; intros d Hk.
  - cbn. by destruct (d !! k).
  - change (dropped config ((w, f) :: items) k)
      with (bool_decide (w = k) && negb (within_thresholds config f)
            || dropped config items k) in Hk.
    apply orb_false_iff in Hk as [Hwk Hrest]. cbn [foldl].
    rewrite IH by done.
    destruct (within_thresholds config f) eqn:Hf; [done|].
    rewrite andb_true_r in Hwk. apply bool_decide_eq_false in Hwk.
    rewrite drop_word_lookup, decide_False by done.
    by destruct (d !! k).
Qed.

Lemma pruned_lookup (config : Config) (items : list (string * Z))
    (row : gmap string Z) (c : string) :
  pruned config items row !! c
  = if dropped config items c then None else row !! c.
Proof.
  unfold pruned. revert row.
  induction items as [|[w f] items IH]; intros row; [done|].
  change (dropped config ((w, f) :: items) c)
    with (bool_decide (w = c) && negb (within_thresholds config f)
          || dropped config items c).
  cbn [foldl]. rewrite IH.
  destruct (within_thresholds config f) eqn:Hf; cbn [negb].
  - by rewrite andb_false_r.
  - rewrite andb_true_r. destruct (bool_decide_reflect (w = c)) as [->|Hne]; cbn.
    + rewrite lookup_delete_eq. by destruct (dropped config items c).
    + by rewrite lookup_delete_ne.
Qed.

Lemma dropped_out_of_bounds (config : Config) (vocabulary : Vocab) (word : string) :
  dropped config (map_to_list vocabulary) word = true
  <-> out_of_bounds config vocabulary word.
Proof.
  unfold dropped, out_of_bounds. rewrite existsb_exists. split.
  - intros [[w f] [Hin Hb]]. apply andb_true_iff in Hb as [Hw Hf].
    apply bool_decide_eq_true in Hw as ->. apply negb_true_iff in Hf.
    exists f. split; [|done].
    apply elem_of_map_to_list. by apply list_elem_of_In.
  - intros [f [Hlook Hf]]. exists (word, f). split.
    + apply list_elem_of_In. by apply elem_of_map_to_list.
    + rewrite Hf. by rewrite bool_decide_eq_true_2.
Qed.

Lemma out_of_bounds_dec (config : Config) (vocabulary : Vocab) (word : string) :
  out_of_bounds config vocabulary word \/ ~ out_of_bounds config vocabulary word.
Proof.
  destruct (dropped config (map_to_list vocabulary) word) eqn:E.
  - left. by apply dropped_out_of_bounds.
  - right. intros Hout. apply dropped_out_of_bounds in Hout. congruence.
Qed.

Lemma filter_lookup_out (config : Config) (vocabulary : Vocab) (d : Colloc)
    (k : string) :
  out_of_bounds config vocabulary k ->
  _filter_threshold_words config vocabulary d !! k = None.
Proof.
  intros Hk. apply filter_step_lookup_dropped. by apply dropped_out_of_bounds.
Qed.

Lemma filter_lookup_in (config : Config) (vocabulary : Vocab) (d : Colloc)
    (k : string) :
  ~ out_of_bounds config vocabulary k ->
  _filter_threshold_words config vocabulary d !! k
  = pruned config (map_to_list vocabulary) <$> d !! k.
Proof.
  intros Hk. apply filter_step_lookup_kept.
  destruct (dropped _ _ k) eqn:E; [|done].
  by apply dropped_out_of_bounds in E.
Qed.

(** ** The vocabulary only gains keys, and every focus is recorded *)




Lemma for_each_ensures {S A B} (f : A -> M S B) (R : S -> S -> Prop)
    (Q : B -> S -> Prop) (xs : list A) (s s' : S) (bs : list B) :
  (forall s, R s s) ->
  (forall s1 s2 s3, R s1 s2 -> R s2 s3 -> R s1 s3) ->
  (forall b s1 s2, Q b s1 -> R s1 s2 -> Q b s2) ->
  (forall x s1 b s2, f x s1 = Ok (b, s2) -> R s1 s2 /\ Q b s2) ->
  for_each f xs s = Ok (bs, s') ->
  R s s' /\ Forall (fun b => Q b s') bs.
Proof.
  intros Hrefl Htrans Hstable Hstep. revert s bs.
  induction xs as [|x xs IH]; intros s bs; cbn.
  - intros [= <- <-]. by split.
  - unfold_M. destruct (f x s) as [[b s1]|] eqn:Hx; [|done].
    destruct (for_each f xs s1) as [[bs' s2]|] eqn:Hxs; [|done].
    intros [= <- <-].
    destruct (Hstep _ _ _ _ Hx) as [HR HQ].
    destruct (IH _ _ Hxs) as [HR' HQ'].
    split; [by eapply Htrans|].
    constructor; [by eapply Hstable|done].
Qed.









(** ** The rows of the co-occurrence mapping *)













(** Keys the vocabulary does not hold are never visited by the loop, so
    they stay, whatever the thresholds; tagged context tokens are such keys. *)
Example filter_keeps_unrecorded_keys :
  _filter_threshold_words {["lower_threshold" := VInt 2]} {["b" := 1]}
    {[ "a" := {[ "b_left" := 1; "b" := 1 ]} ]}
  = {[ "a" := {[ "b_left" := 1 ]} ]}.
Proof. by vm_compute. Qed.

(** A token seen once is dropped from the rows when [lower_threshold = 2]. *)
Example threshold_drops_rare_token :
  exists v',
    build (H := example_utils) (H0 := example_numpy) cls_CooccurrenceDSM
      {["lower_threshold" := VInt 2]} 1 1 ∅
      [Line "a b"; Line "a b"; Line "a b"; Line "a b"; Line "c a"; Line "a b"] 0
    = Ok (AsDict {[ "a" := {[ "b" := 2 ]}; "b" := {[ "a" := 3 ]} ]}, v', 0)
    /\ v' !! "c" = Some 1.
Proof. eexists. split; vm_compute; reflexivity. Qed.

(** ** The halves of an index vector *)

Lemma half_length (v : list Z) :
  Z.of_nat (length v) / 2 = Z.of_nat (length v / 2)
  /\ (length v / 2 <= length v)%nat.
Proof.
  split; [by rewrite Nat2Z.inj_div|].
  apply Nat.Div0.div_le_upper_bound. lia.
Qed.

Lemma positive_half_take (v : list Z) :
  positive_half v = take (length v / 2)%nat v.
Proof.
  unfold positive_half, py_slice, py_bound.
  destruct (half_length v) as [-> Hle]. cbn [Z.ltb Z.compare].
  destruct (Z.ltb_spec (Z.of_nat (length v / 2)) 0); [lia|].
  rewrite !Z.min_l by lia.
  replace (Z.to_nat 0) with 0%nat by lia. cbn [drop].
  f_equal. lia.
Qed.

Lemma negative_half_drop (v : list Z) :
  negative_half v = drop (length v / 2)%nat v.
Proof.
  unfold negative_half, py_slice, py_bound.
  destruct (half_length v) as [-> Hle].
  destruct (Z.ltb_spec (Z.of_nat (length v / 2)) 0); [lia|].
  destruct (Z.ltb_spec (Z.of_nat (length v)) 0); [lia|].
  rewrite !Z.min_l by lia. rewrite Nat2Z.id.
  apply take_ge. rewrite length_drop. lia.
Qed.

(** C7 (as amended). The positive half of an index vector is its first
    half, the negative half the remainder; for an even [num_indices] the
    halves have the same size and for an odd [num_indices] the negative half
    holds exactly one index more than the positive half. *)
Theorem C7_index_vector_halves (v : list Z) :
  positive_half v = take (length v / 2)%nat v
  /\ negative_half v = drop (length v / 2)%nat v
  /\ (positive_half v ++ negative_half v)%list = v
  /\ (Nat.Even (length v) ->
      length (negative_half v) = length (positive_half v))
  /\ (Nat.Odd (length v) ->
      length (negative_half v) = S (length (positive_half v))).
Proof.
  rewrite positive_half_take, negative_half_drop.
  split; [done|]. split; [done|]. split; [apply take_drop|].
  rewrite length_take, length_drop.
  assert ((length v / 2 <= length v)%nat) by (apply Nat.Div0.div_le_upper_bound; lia).
  split.
  - intros [k Hk]. rewrite Hk. rewrite (Nat.mul_comm 2 k), Nat.div_mul by done. lia.
  - intros [k Hk]. rewrite Hk.
    replace (2 * k + 1)%nat with (1 + k * 2)%nat by lia.
    rewrite Nat.div_add by done. cbn. lia.
Qed.

Lemma C7_witness :
  Nat.Odd (length [4; 0; 5]) /\
  length (negative_half [4; 0; 5]) = S (length (positive_half [4; 0; 5])).
Proof.
  assert (Nat.Odd (length [4; 0; 5])) as Hodd by (exists 1%nat; reflexivity).
  split; [exact Hodd|].
  exact (proj2 (proj2 (proj2 (proj2 (C7_index_vector_halves [4; 0; 5])))) Hodd).
Defined.

(** With three indices the positive half has one and the negative half two. *)
Lemma C7_counterexample :
  length [4; 0; 5] = 3%nat
  /\ positive_half [4; 0; 5] = [4]
  /\ negative_half [4; 0; 5] = [0; 5]
  /\ S (length (negative_half [4; 0; 5])) <> length (positive_half [4; 0; 5]).
Proof. split; [reflexivity|]. split; [reflexivity|]. split; [reflexivity|]. vm_compute. discriminate. Qed.

(** ** Index-accumulating addition *)

Lemma hits_nil (j : Z) : hits j [] = 0.
Proof. reflexivity. Qed.

Lemma hits_cons (j x : Z) (l : list Z) :
  hits j (x :: l) = (if decide (x = j) then 1 else 0) + hits j l.
Proof.
  unfold hits. rewrite filter_cons.
  destruct (decide (x = j)); cbn [length]; lia.
Qed.

Lemma hits_app (j : Z) (l1 l2 : list Z) : hits j (l1 ++ l2) = hits j l1 + hits j l2.
Proof. unfold hits. rewrite filter_app, length_app. lia. Qed.

Lemma hits_nonneg (j : Z) (l : list Z) : 0 <= hits j l.
Proof. unfold hits. lia. Qed.

Lemma hits_absent (j : Z) (l : list Z) : j ∉ l -> hits j l = 0.
Proof.
  induction l as [|x l IH]; intros Hj; [done|].
  rewrite hits_cons, IH.
  - rewrite decide_False; [done|]. intros ->. apply Hj. by left.
  - intros Hin. apply Hj. by right.
Qed.

Lemma hits_present (j : Z) (l : list Z) : j ∈ l -> 0 < hits j l.
Proof.
  induction l as [|x l IH]; intros Hj; [inversion Hj|].
  rewrite hits_cons. pose proof (hits_nonneg j l).
  apply elem_of_cons in Hj as [->|Hj].
  - rewrite decide_True by done. lia.
  - specialize (IH Hj). destruct (decide (x = j)); lia.
Qed.

Lemma add_at1_in_range (c j : Z) (a : list Z) :
  0 <= j < Z.of_nat (length a) ->
  add_at1 c a j = Ok (alter (Z.add c) (Z.to_nat j) a).
Proof.
  intros Hj. unfold add_at1.
  destruct (Z.leb_spec 0 j); [|lia].
  destruct (Z.ltb_spec j (Z.of_nat (length a))); [done|lia].
Qed.

Lemma np_add_at_in_range (row indices : list Z) (c : Z) :
  in_range (length row) indices ->
  exists row',
    np_add_at row indices c = Ok row'
    /\ length row' = length row
    /\ forall k, row' !! k
                 = (fun x => x + c * hits (Z.of_nat k) indices) <$> row !! k.
Proof.
  revert row. induction indices as [|j indices IH]; intros row Hrange.
  - exists row. split; [done|]. split; [done|].
    intros k. destruct (row !! k); cbn; [f_equal; rewrite hits_nil; lia|done].
  - apply Forall_cons in Hrange as [Hj Hrest]. cbn.
    rewrite add_at1_in_range by done.
    destruct (IH (alter (Z.add c) (Z.to_nat j) row)) as (row' & Hrun & Hlen & Hcells).
    { unfold in_range. by rewrite length_alter. }
    exists row'. split; [done|]. split; [by rewrite Hlen, length_alter|].
    intros k. rewrite Hcells, hits_cons.
    destruct (decide (Z.to_nat j = k)) as [<-|Hne].
    + rewrite list_lookup_alter_eq. rewrite Z2Nat.id by lia.
      rewrite decide_True by done.
      destruct (row !! Z.to_nat j); cbn; [f_equal; lia|done].
    + rewrite list_lookup_alter_ne by done.
      rewrite decide_False by lia.
      destruct (row !! k); cbn; [f_equal; lia|done].
Qed.

Lemma zsum_app (l1 l2 : list Z) : zsum (l1 ++ l2) = zsum l1 + zsum l2.
Proof. unfold zsum. induction l1 as [|x l1 IH]; cbn; lia. Qed.

Lemma zsum_map_add {A} (f g : A -> Z) (l : list A) :
  zsum (map (fun x => f x + g x) l) = zsum (map f l) + zsum (map g l).
Proof. unfold zsum. induction l as [|x l IH]; cbn; lia. Qed.

Lemma zsum_map_ext {A} (f g : A -> Z) (l : list A) :
  (forall x, x ∈ l -> f x = g x) -> zsum (map f l) = zsum (map g l).
Proof.
  unfold zsum. induction l as [|x l IH]; intros Hfg; [done|].
  cbn. rewrite Hfg by left. rewrite IH; [done|].
  intros y Hy. apply Hfg. by right.
Qed.

(** Exactly one position below [n] equals an index that is in range. *)
Lemma zsum_indicator (x : Z) (n : nat) :
  zsum (map (fun k => if decide (x = Z.of_nat k) then 1 else 0) (seq 0 n))
  = if decide (0 <= x < Z.of_nat n) then 1 else 0.
Proof.
  induction n as [|n IH].
  - cbn. destruct (decide (0 <= x < Z.of_nat 0)); [lia|done].
  - rewrite seq_S, map_app, zsum_app, IH. cbn.
    destruct (decide (0 <= x < Z.of_nat n)), (decide (x = Z.of_nat n)),
      (decide (0 <= x < Z.of_nat (S n))); lia.
Qed.

Lemma zsum_hits (n : nat) (l : list Z) :
  in_range n l ->
  zsum (map (fun k => hits (Z.of_nat k) l) (seq 0 n)) = Z.of_nat (length l).
Proof.
  induction 1 as [|x l Hx _ IH].
  - cbn. unfold zsum. induction (seq 0 n); cbn; [done|]. rewrite hits_nil. lia.
  - rewrite (zsum_map_ext _ (fun k => (if decide (x = Z.of_nat k) then 1 else 0)
                                      + hits (Z.of_nat k) l)).
    + rewrite zsum_map_add, IH, zsum_indicator.
      rewrite decide_True by done. cbn [length]. lia.
    + intros k _. apply hits_cons.
Qed.

Lemma abs_change_pointwise (row row' : list Z) (delta : nat -> Z) :
  length row' = length row ->
  (forall k, row' !! k = (fun x => x + delta k) <$> row !! k) ->
  abs_change row row' = zsum (map (fun k => Z.abs (delta k)) (seq 0 (length row))).
Proof.
  unfold abs_change. revert row' delta.
  induction row as [|x row IH]; intros row' delta Hlen Hcells.
  - destruct row'; [done|discriminate].
  - destruct row' as [|y row']; [discriminate|].
    cbn [length seq map zip_with]. rewrite <- seq_shift, map_map.
    unfold zsum in *. cbn [foldr].
    rewrite (IH row' (fun k => delta (S k))).
    + specialize (Hcells 0%nat). cbn in Hcells. injection Hcells as ->.
      f_equal. f_equal. lia.
    + cbn in Hlen. lia.
    + intros k. exact (Hcells (S k)).
Qed.

Lemma in_range_halves (n : nat) (v : list Z) :
  in_range n v -> in_range n (positive_half v) /\ in_range n (negative_half v).
Proof.
  intros Hv. rewrite positive_half_take, negative_half_drop.
  unfold in_range in *. rewrite <- (take_drop (length v / 2)%nat v) in Hv.
  by apply Forall_app in Hv.
Qed.

Lemma occurrence_update_cells (row v : list Z) :
  in_range (length row) v ->
  exists row',
    occurrence_update row v = Ok row'
    /\ length row' = length row
    /\ forall k, row' !! k
                 = (fun x => x + (hits (Z.of_nat k) (positive_half v)
                                  - hits (Z.of_nat k) (negative_half v)))
                   <$> row !! k.
Proof.
  intros Hv. destruct (in_range_halves _ _ Hv) as [Hpos Hneg].
  unfold occurrence_update.
  destruct (np_add_at_in_range row (positive_half v) 1 Hpos)
    as (row1 & -> & Hlen1 & Hcells1).
  rewrite <- Hlen1 in Hneg.
  destruct (np_add_at_in_range row1 (negative_half v) (-1) Hneg)
    as (row2 & -> & Hlen2 & Hcells2).
  exists row2. split; [done|]. split; [congruence|].
  intros k. rewrite Hcells2, Hcells1.
  destruct (row !! k); cbn; [f_equal; lia|done].
Qed.

Lemma occurrence_update_abs_change (row v : list Z) :
  in_range (length row) v ->
  halves_disjoint v ->
  exists row',
    occurrence_update row v = Ok row'
    /\ length row' = length row
    /\ abs_change row row' = Z.of_nat (length v).
Proof.
  intros Hv Hdisj.
  destruct (occurrence_update_cells row v Hv) as (row' & Hrun & Hlen & Hcells).
  exists row'. split; [done|]. split; [done|].
  rewrite (abs_change_pointwise _ _ _ Hlen Hcells).
  rewrite (zsum_map_ext _ (fun k => hits (Z.of_nat k) v)).
  - by apply zsum_hits.
  - intros k _.
    assert (hits (Z.of_nat k) v
            = hits (Z.of_nat k) (positive_half v)
              + hits (Z.of_nat k) (negative_half v)) as ->.
    { rewrite <- hits_app.
      by rewrite positive_half_take, negative_half_drop, take_drop. }
    pose proof (hits_nonneg (Z.of_nat k) (positive_half v)).
    pose proof (hits_nonneg (Z.of_nat k) (negative_half v)).
    destruct (decide (Z.of_nat k ∈ positive_half v)) as [Hin|Hout].
    + rewrite (hits_absent _ (negative_half v)) by by apply Hdisj. lia.
    + rewrite (hits_absent _ (positive_half v)) by done. lia.
Qed.

Lemma zsum_map_le {A} (f g : A -> Z) (l : list A) :
  (forall x, x ∈ l -> f x <= g x) -> zsum (map f l) <= zsum (map g l).
Proof.
  unfold zsum. induction l as [|x l IH]; intros Hfg; cbn; [lia|].
  assert (f x <= g x) by (apply Hfg; by left).
  assert (foldr Z.add 0 (map f l) <= foldr Z.add 0 (map g l)).
  { apply IH. intros y Hy. apply Hfg. by right. }
  lia.
Qed.

(** Whatever the indices, the absolute change is at most their number. *)
Lemma occurrence_update_abs_change_le (row v : list Z) :
  in_range (length row) v ->
  exists row',
    occurrence_update row v = Ok row'
    /\ abs_change row row' <= Z.of_nat (length v).
Proof.
  intros Hv.
  destruct (occurrence_update_cells row v Hv) as (row' & Hrun & Hlen & Hcells).
  exists row'. split; [done|].
  rewrite (abs_change_pointwise _ _ _ Hlen Hcells).
  rewrite <- (zsum_hits (length row) v Hv).
  apply zsum_map_le. intros k _.
  assert (hits (Z.of_nat k) v
          = hits (Z.of_nat k) (positive_half v)
            + hits (Z.of_nat k) (negative_half v)) as ->.
  { rewrite <- hits_app.
    by rewrite positive_half_take, negative_half_drop, take_drop. }
  pose proof (hits_nonneg (Z.of_nat k) (positive_half v)).
  pose proof (hits_nonneg (Z.of_nat k) (negative_half v)).
  lia.
Qed.

(** ** The ordered dictionary of accumulators *)

Lemma rows_get_set_eq (colfreqs : Rows) (focus : string) (row : list Z) :
  rows_get (rows_set colfreqs focus row) focus = Some row.
Proof.
  induction colfreqs as [|[w r] colfreqs IH]; cbn.
  - by rewrite decide_True.
  - destruct (decide (w = focus)) as [->|Hne]; cbn.
    + by rewrite decide_True.
    + by rewrite decide_False.
Qed.

Lemma rows_get_set_ne (colfreqs : Rows) (focus k : string) (row : list Z) :
  focus <> k ->
  rows_get (rows_set colfreqs focus row) k = rows_get colfreqs k.
Proof.
  intros Hne. induction colfreqs as [|[w r] colfreqs IH]; cbn.
  - by rewrite decide_False.
  - destruct (decide (w = focus)) as [->|Hw]; cbn.
    + by rewrite !decide_False.
    + by rewrite IH.
Qed.

Lemma rows_set_same (colfreqs : Rows) (focus : string) (row : list Z) :
  rows_get colfreqs focus = Some row -> rows_set colfreqs focus row = colfreqs.
Proof.
  induction colfreqs as [|[w r] colfreqs IH]; cbn; [done|].
  destruct (decide (w = focus)) as [->|Hne].
  - by intros [= ->].
  - intros Hget. by rewrite IH.
Qed.

Lemma rows_get_position (colfreqs : Rows) (focus : string) (row : list Z) :
  rows_get colfreqs focus = Some row ->
  exists k, colfreqs.*1 !! k = Some focus /\ colfreqs.*2 !! k = Some row.
Proof.
  induction colfreqs as [|[w r] colfreqs IH]; cbn; [done|].
  destruct (decide (w = focus)) as [->|Hne].
  - intros [= ->]. by exists 0%nat.
  - intros Hget. destruct (IH Hget) as (k & Hk1 & Hk2). by exists (S k).
Qed.

(** ** Drawing and caching index vectors *)

Section RandomIndexingProperties.
Context `{Utils} `{Numpy}.

Lemma index_vector_inv (config : Config) (indices : list Z) (cache cache' : Cache)
    (context : string) (v : list Z) (g g' : rng_state) :
  index_vector config indices cache context g = Ok ((v, cache'), g') ->
  cache' !! context = Some v
  /\ ((cache !! context = Some v /\ cache' = cache /\ g' = g)
      \/ (cache !! context = None
          /\ cache' = <[context := v]> cache
          /\ exists num_indices,
               config !! "num_indices" = Some num_indices
               /\ choice indices num_indices
                    (np_random_seed (hash context `mod` 4294967295))
                  = Ok (v, g'))).
Proof.
  unfold index_vector. destruct (cache !! context) as [v0|] eqn:Hc.
  - intros [= <- <- <-]. split; [done|]. by left.
  - unfold mbind at 1, M_bind at 1. unfold config_getitem.
    destruct (config !! "num_indices") as [ni|]; [|done].
    unfold mbind at 1, M_bind at 1. unfold mret at 1, M_ret at 1.
    unfold mbind, M_bind.
    destruct (choice indices ni _) as [[v1 g1]|] eqn:Hch; [|done].
    intros [= <- <- <-]. split; [by rewrite lookup_insert_eq|].
    right. split; [done|]. split; [done|]. by exists ni.
Qed.

Lemma choice_inv `{!NumpyLaws} (indices : list Z) (n : Z) (v : list Z)
    (g g' : rng_state) :
  choice indices (VInt n) g = Ok (v, g') ->
  Z.of_nat (length v) = n /\ Forall (fun j => j ∈ indices) v.
Proof.
  unfold choice, as_index. unfold mbind, M_bind, mret, M_ret.
  destruct (Z.ltb_spec n 0); [done|].
  destruct (bool_decide (indices = []) && (0 <? n)) eqn:Hempty; [done|].
  intros [= Hdraw].
  pose proof (choice_length g indices (Z.to_nat n)) as Hlen.
  pose proof (choice_elem g indices (Z.to_nat n)) as Helem.
  destruct (np_random_choice g indices (Z.to_nat n)) as [v1 g1].
  injection Hdraw as <- <-. cbn in *. split; [lia|].
  apply andb_false_iff in Hempty as [Hne|Hzero].
  - apply bool_decide_eq_false in Hne.
    apply Forall_forall. intros x Hx. by apply Helem.
  - assert (n = 0) as -> by lia. destruct v1; [constructor|discriminate].
Qed.

Lemma arange_elem (d : nat) (j : Z) :
  j ∈ (Z.of_nat <$> seq 0 d) -> 0 <= j < Z.of_nat d.
Proof.
  intros Hj. apply list_elem_of_fmap in Hj as (k & -> & Hk).
  apply elem_of_seq in Hk. lia.
Qed.

Lemma index_vector_ok `{!NumpyLaws} (config : Config) (d : nat) (n : Z)
    (cache cache' : Cache) (context : string) (v : list Z) (g g' : rng_state) :
  config !! "num_indices" = Some (VInt n) ->
  cache_ok d n cache ->
  index_vector config (Z.of_nat <$> seq 0 d) cache context g = Ok ((v, cache'), g') ->
  cache_ok d n cache' /\ Z.of_nat (length v) = n /\ in_range d v.
Proof.
  intros Hn Hcache Hrun.
  apply index_vector_inv in Hrun as [Hv [(Hc & -> & ->)|(Hc & -> & ni & Hni & Hch)]].
  - split; [done|]. by apply (Hcache context).
  - rewrite Hn in Hni. injection Hni as <-.
    apply choice_inv in Hch as [Hlen Helem].
    assert (in_range d v) as Hrange.
    { unfold in_range. eapply Forall_impl; [exact Helem|].
      intros j Hj. by apply arange_elem. }
    split; [|done].
    intros c w. destruct (decide (context = c)) as [->|Hne].
    + rewrite lookup_insert_eq. by intros [= <-].
    + rewrite lookup_insert_ne by done. apply Hcache.
Qed.
End RandomIndexingProperties.

Lemma rows_set_set (colfreqs : Rows) (focus : string) (row row' : list Z) :
  rows_set (rows_set colfreqs focus row) focus row' = rows_set colfreqs focus row'.
Proof.
  induction colfreqs as [|[w r] colfreqs IH]; cbn.
  - by rewrite decide_True.
  - destruct (decide (w = focus)) as [->|Hne]; cbn.
    + by rewrite decide_True.
    + by rewrite decide_False, IH.
Qed.

Lemma np_zeros_inv {S} (dv : cval) (s s' : S) (row : list Z) :
  np_zeros dv s = Ok (row, s') ->
  s' = s /\ exists d, index_of dv = Some d /\ 0 <= d
                      /\ row = replicate (Z.to_nat d) 0.
Proof.
  unfold np_zeros, as_index. unfold_M.
  destruct dv as [b|z|]; [done| |done].
  destruct (Z.ltb_spec z 0); [done|].
  intros [= <- <-]. split; [done|]. exists z. by repeat split.
Qed.

Lemma np_arange_inv {S} (dv : cval) (s s' : S) (indices : list Z) :
  np_arange dv s = Ok (indices, s') ->
  s' = s /\ exists d, index_of dv = Some d
                      /\ indices = Z.of_nat <$> seq 0 (Z.to_nat d).
Proof.
  unfold np_arange, as_index. unfold_M.
  destruct dv as [b|z|]; [| |done]; intros [= <- <-]; split; try done;
    eexists; by split.
Qed.

Section AccumulatePair.
Context `{Utils} `{Numpy}.

(** What one iteration of the loop over the pairs does. *)
Lemma accumulate_pair_inv (config : Config) (indices : list Z)
    (colfreqs colfreqs' : Rows) (cache cache' : Cache) (focus : string)
    (contexts : list string) (g g' : rng_state) :
  accumulate_pair config indices (colfreqs, cache) (focus, contexts) g
  = Ok ((colfreqs', cache'), g') ->
  exists row0 poss negs row1 row',
    (rows_get colfreqs focus = Some row0
     \/ (rows_get colfreqs focus = None
         /\ exists dv d, config !! "dimensionality" = Some dv
                         /\ index_of dv = Some d
                         /\ 0 <= d
                         /\ row0 = replicate (Z.to_nat d) 0))
    /\ fold_each (collect_indices config indices) ([], [], cache) contexts g
       = Ok ((poss, negs, cache'), g')
    /\ (if bool_decide (poss = []) then row1 = row0
        else np_add_at row0 (concat poss) 1 = Ok row1)
    /\ (if bool_decide (negs = []) then row' = row1
        else np_add_at row1 (concat negs) (-1) = Ok row')
    /\ colfreqs' = rows_set colfreqs focus row'.
Proof.
  unfold accumulate_pair. unfold mbind at 1, M_bind at 1.
  intros Hrun.
  assert (exists row0 colfreqs0,
            (rows_get colfreqs focus = Some row0
             \/ (rows_get colfreqs focus = None
                 /\ exists dv d, config !! "dimensionality" = Some dv
                                 /\ index_of dv = Some d
                                 /\ 0 <= d
                                 /\ row0 = replicate (Z.to_nat d) 0))
            /\ (forall row, rows_set colfreqs0 focus row = rows_set colfreqs focus row)
            /\ match rows_get colfreqs focus with
               | Some row => mret (colfreqs, row)
               | None =>
                   dimensionality ← config_getitem config "dimensionality";
                   zeros ← np_zeros dimensionality;
                   mret (rows_set colfreqs focus zeros, zeros)
               end g = Ok ((colfreqs0, row0), g)) as (row0 & colfreqs0 & Hrow0 & Hset & Hfirst).
  { destruct (rows_get colfreqs focus) as [row|] eqn:Hget.
    - exists row, colfreqs. split; [by left|]. by split.
    - revert Hrun. unfold mbind at 1, M_bind at 1. unfold config_getitem.
      destruct (config !! "dimensionality") as [dv|]; [|done].
      unfold mret at 1, M_ret at 1. unfold mbind at 1, M_bind at 1.
      destruct (np_zeros dv g) as [[zeros g1]|] eqn:Hz; [|done].
      destruct (np_zeros_inv _ _ _ _ Hz) as (-> & d & Hdv & Hd & ->). intros _.
      exists (replicate (Z.to_nat d) 0), (rows_set colfreqs focus (replicate (Z.to_nat d) 0)).
      split; [right; split; [done|]; by exists dv, d|].
      split; [intros row; apply rows_set_set|].
      unfold mbind, M_bind, mret, M_ret. by rewrite Hz. }
  rewrite Hfirst in Hrun. cbn beta iota in Hrun.
  unfold mbind at 1, M_bind at 1 in Hrun.
  destruct (fold_each _ _ contexts g) as [[[[poss negs] cache1] g1]|] eqn:Hfold; [|done].
  unfold mbind at 1, M_bind at 1 in Hrun.
  exists row0, poss, negs.
  destruct (bool_decide (poss = [])) eqn:Hp.
  - unfold mret at 1, M_ret at 1 in Hrun.
    unfold mbind at 1, M_bind at 1 in Hrun.
    destruct (bool_decide (negs = [])) eqn:Hn.
    + unfold mret, M_ret in Hrun. injection Hrun as <- <- <-.
      exists row0, row0. rewrite Hset. by repeat split.
    + unfold lift in Hrun.
      destruct (np_add_at row0 (concat negs) (-1)) as [row'|] eqn:Hneg; [|done].
      unfold mret, M_ret in Hrun. injection Hrun as <- <- <-.
      exists row0, row'. rewrite Hset. by repeat split.
  - unfold lift at 1 in Hrun.
    destruct (np_add_at row0 (concat poss) 1) as [row1|] eqn:Hpos; [|done].
    unfold mbind at 1, M_bind at 1 in Hrun.
    destruct (bool_decide (negs = [])) eqn:Hn.
    + unfold mret, M_ret in Hrun. injection Hrun as <- <- <-.
      exists row1, row1. rewrite Hset. by repeat split.
    + unfold lift in Hrun.
      destruct (np_add_at row1 (concat negs) (-1)) as [row'|] eqn:Hneg; [|done].
      unfold mret, M_ret in Hrun. injection Hrun as <- <- <-.
      exists row1, row'. rewrite Hset. by repeat split.
Qed.
End AccumulatePair.

Section SingleOccurrence.
Context `{Utils} `{Numpy}.

Lemma collect_single (config : Config) (indices : list Z) (cache cache' : Cache)
    (context : string) (poss negs : list (list Z)) (g g' : rng_state) :
  fold_each (collect_indices config indices) ([], [], cache) [context] g
  = Ok ((poss, negs, cache'), g') ->
  exists v, index_vector config indices cache context g = Ok ((v, cache'), g')
            /\ poss = [positive_half v] /\ negs = [negative_half v].
Proof.
  cbn. unfold mbind, M_bind.
  destruct (index_vector config indices cache context g) as [[[v c1] g1]|]; [|done].
  unfold mret, M_ret. intros [= <- <- <- <-]. by exists v.
Qed.

(** Processing a pair with a single context applies one occurrence update. *)
Lemma accumulate_single (config : Config) (indices : list Z)
    (colfreqs colfreqs' : Rows) (cache cache' : Cache) (focus context : string)
    (g g' : rng_state) :
  accumulate_pair config indices (colfreqs, cache) (focus, [context]) g
  = Ok ((colfreqs', cache'), g') ->
  exists row0 v row',
    (rows_get colfreqs focus = Some row0
     \/ (rows_get colfreqs focus = None
         /\ exists dv d, config !! "dimensionality" = Some dv
                         /\ index_of dv = Some d
                         /\ 0 <= d
                         /\ row0 = replicate (Z.to_nat d) 0))
    /\ index_vector config indices cache context g = Ok ((v, cache'), g')
    /\ occurrence_update row0 v = Ok row'
    /\ rows_get colfreqs' focus = Some row'.
Proof.
  intros Hrun.
  apply accumulate_pair_inv in Hrun
    as (row0 & poss & negs & row1 & row' & Hrow0 & Hfold & Hpos & Hneg & ->).
  apply collect_single in Hfold as (v & Hv & -> & ->).
  rewrite bool_decide_eq_false_2 in Hpos by done.
  rewrite bool_decide_eq_false_2 in Hneg by done.
  cbn in Hpos, Hneg. rewrite app_nil_r in Hpos, Hneg.
  exists row0, v, row'. split; [done|]. split; [done|].
  split; [|apply rows_get_set_eq].
  unfold occurrence_update. by rewrite Hpos.
Qed.

(** C8 (as amended). For a single context occurrence processed for a focus
    token, [num_indices] increments of +1 or -1 are applied to the focus
    accumulator, and the sum over the accumulator of the absolute values of
    the changes equals [num_indices] whenever no index occurs in both the
    positive and the negative half of the context's index vector; in
    general it is at most [num_indices]. *)
Theorem C8_single_occurrence_abs_sum `{!NumpyLaws} (config : Config) (d : nat)
    (n : Z) (colfreqs colfreqs' : Rows) (cache cache' : Cache)
    (focus context : string) (g g' : rng_state) :
  config !! "dimensionality" = Some (VInt (Z.of_nat d)) ->
  config !! "num_indices" = Some (VInt n) ->
  cache_ok d n cache ->
  rows_ok d colfreqs ->
  accumulate_pair config (Z.of_nat <$> seq 0 d) (colfreqs, cache)
    (focus, [context]) g
  = Ok ((colfreqs', cache'), g') ->
  exists v row',
    cache' !! context = Some v
    /\ Z.of_nat (length v) = n
    /\ Z.of_nat (length (positive_half v) + length (negative_half v)) = n
    /\ rows_get colfreqs' focus = Some row'
    /\ abs_change (row_before colfreqs focus d) row' <= n
    /\ (halves_disjoint v ->
        abs_change (row_before colfreqs focus d) row' = n).
Proof.
  intros Hd Hn Hcache Hrows Hrun.
  apply accumulate_single in Hrun as (row0 & v & row' & Hrow0 & Hv & Hupd & Hget).
  destruct (index_vector_ok _ _ _ _ _ _ _ _ _ Hn Hcache Hv) as (_ & Hlen & Hrange).
  apply index_vector_inv in Hv as [Hcached _].
  exists v, row'. split; [done|]. split; [done|].
  split.
  { rewrite <- length_app.
    by rewrite positive_half_take, negative_half_drop, take_drop. }
  split; [done|].
  assert (row_before colfreqs focus d = row0 /\ length row0 = d) as [-> Hlen0].
  { unfold row_before. destruct Hrow0 as [Hsome|(Hnone & dv & z & Hdv & Hint & Hz & ->)].
    - rewrite Hsome. split; [done|]. by apply (Hrows focus).
    - rewrite Hnone. rewrite Hd in Hdv. injection Hdv as <-.
      injection Hint as <-. rewrite Nat2Z.id. split; [done|]. apply length_replicate. }
  rewrite <- Hlen0 in Hrange. split.
  - destruct (occurrence_update_abs_change_le row0 v Hrange) as (row'' & Hupd' & Hle).
    rewrite Hupd in Hupd'. injection Hupd' as <-. lia.
  - intros Hdisj.
    destruct (occurrence_update_abs_change row0 v Hrange Hdisj)
      as (row'' & Hupd' & _ & Habs).
    rewrite Hupd in Hupd'. injection Hupd' as <-. by rewrite Habs.
Qed.
End SingleOccurrence.

(** ** A pair with several contexts *)

Lemma in_range_concat (n : nat) (vs : list (list Z)) :
  Forall (in_range n) vs -> in_range n (concat vs).
Proof.
  unfold in_range. induction 1 as [|v vs Hv _ IH]; cbn; [constructor|].
  by apply Forall_app.
Qed.

Lemma occurrences_update_cells (row : list Z) (vs : list (list Z)) :
  Forall (in_range (length row)) vs ->
  exists row',
    occurrences_update row vs = Ok row'
    /\ length row' = length row
    /\ forall k, row' !! k
                 = (fun x => x + (hits (Z.of_nat k) (concat (map positive_half vs))
                                  - hits (Z.of_nat k) (concat (map negative_half vs))))
                   <$> row !! k.
Proof.
  revert row. induction vs as [|v vs IH]; intros row Hvs.
  - exists row. split; [done|]. split; [done|].
    intros k. destruct (row !! k); cbn; [f_equal; rewrite hits_nil; lia|done].
  - apply Forall_cons in Hvs as [Hv Hvs]. cbn [occurrences_update].
    destruct (occurrence_update_cells row v Hv) as (row1 & -> & Hlen1 & Hcells1).
    rewrite <- Hlen1 in Hvs.
    destruct (IH row1 Hvs) as (row' & Hrun & Hlen & Hcells).
    exists row'. split; [done|]. split; [congruence|].
    intros k. rewrite Hcells, Hcells1. cbn [map concat]. rewrite !hits_app.
    destruct (row !! k); cbn; [f_equal; lia|done].
Qed.

(** Adding at all positive indices and then at all negative ones is the
    same as one occurrence update after the other. *)
Lemma batch_update_occurrences (row : list Z) (vs : list (list Z)) :
  Forall (in_range (length row)) vs ->
  match np_add_at row (concat (map positive_half vs)) 1 with
  | Ok row1 => np_add_at row1 (concat (map negative_half vs)) (-1)
  | Error e => Error e
  end = occurrences_update row vs.
Proof.
  intros Hvs.
  destruct (occurrences_update_cells row vs Hvs) as (row' & -> & Hlen & Hcells).
  assert (in_range (length row) (concat (map positive_half vs))
          /\ in_range (length row) (concat (map negative_half vs))) as [Hpos Hneg].
  { split; apply in_range_concat, Forall_map;
      (eapply Forall_impl; [exact Hvs|]); intros v Hv;
      by destruct (in_range_halves _ _ Hv). }
  destruct (np_add_at_in_range row _ 1 Hpos) as (row1 & -> & Hlen1 & Hcells1).
  rewrite <- Hlen1 in Hneg.
  destruct (np_add_at_in_range row1 _ (-1) Hneg) as (row2 & -> & Hlen2 & Hcells2).
  f_equal. apply list_eq. intros k.
  rewrite Hcells2, Hcells1, Hcells.
  destruct (row !! k); cbn; [f_equal; lia|done].
Qed.

Section SeveralContexts.
Context `{Utils} `{Numpy} `{!NumpyLaws}.

Lemma collect_all (config : Config) (d : nat) (n : Z) (contexts : list string)
    (poss0 negs0 poss negs : list (list Z)) (cache cache' : Cache)
    (g g' : rng_state) :
  config !! "num_indices" = Some (VInt n) ->
  cache_ok d n cache ->
  fold_each (collect_indices config (Z.of_nat <$> seq 0 d)) (poss0, negs0, cache)
    contexts g
  = Ok ((poss, negs, cache'), g') ->
  exists vs,
    poss = (poss0 ++ map positive_half vs)%list
    /\ negs = (negs0 ++ map negative_half vs)%list
    /\ cache_ok d n cache'
    /\ Forall (in_range d) vs
    /\ Forall (fun v => Z.of_nat (length v) = n) vs
    /\ length vs = length contexts.
Proof.
  intros Hn. revert poss0 negs0 cache g.
  induction contexts as [|c contexts IH]; intros poss0 negs0 cache g Hcache.
  - cbn. intros [= <- <- <- <-]. exists []. cbn. rewrite !app_nil_r.
    split_and!; try done; constructor.
  - cbn [fold_each]. unfold mbind at 1, M_bind at 1.
    unfold collect_indices at 1. unfold mbind at 1, M_bind at 1.
    destruct (index_vector _ _ cache c g) as [[[v cache1] g1]|] eqn:Hv; [|done].
    unfold mret at 1, M_ret at 1.
    destruct (index_vector_ok _ _ _ _ _ _ _ _ _ Hn Hcache Hv) as (Hcache1 & Hlen & Hrange).
    intros Hrest.
    destruct (IH _ _ _ _ Hcache1 Hrest) as (vs & -> & -> & Hc' & Hr & Hl & Hlen').
    exists (v :: vs). cbn [map length]. rewrite <- !app_assoc. cbn [app].
    split_and!; try done; [by constructor|by constructor|by rewrite Hlen'].
Qed.

(** Processing a pair changes the accumulator of its focus by the
    occurrence update of each of its contexts, in order. *)
Lemma accumulate_pair_occurrences (config : Config) (d : nat) (n : Z)
    (colfreqs colfreqs' : Rows) (cache cache' : Cache) (focus : string)
    (contexts : list string) (g g' : rng_state) :
  config !! "dimensionality" = Some (VInt (Z.of_nat d)) ->
  config !! "num_indices" = Some (VInt n) ->
  cache_ok d n cache ->
  rows_ok d colfreqs ->
  accumulate_pair config (Z.of_nat <$> seq 0 d) (colfreqs, cache)
    (focus, contexts) g
  = Ok ((colfreqs', cache'), g') ->
  exists vs row',
    length vs = length contexts
    /\ Forall (fun v => Z.of_nat (length v) = n) vs
    /\ occurrences_update (row_before colfreqs focus d) vs = Ok row'
    /\ rows_get colfreqs' focus = Some row'
    /\ cache_ok d n cache'
    /\ rows_ok d colfreqs'.
Proof.
  intros Hd Hn Hcache Hrows Hrun.
  apply accumulate_pair_inv in Hrun
    as (row0 & poss & negs & row1 & row' & Hrow0 & Hfold & Hpos & Hneg & ->).
  apply (collect_all _ _ n) in Hfold as (vs & -> & -> & Hc' & Hr & Hl & Hlen);
    [|done|done].
  cbn [app] in Hpos, Hneg.
  assert (row_before colfreqs focus d = row0 /\ length row0 = d) as [Hbefore Hlen0].
  { unfold row_before. destruct Hrow0 as [Hsome|(Hnone & dv & z & Hdv & Hint & Hz & ->)].
    - rewrite Hsome. split; [done|]. by apply (Hrows focus).
    - rewrite Hnone. rewrite Hd in Hdv. injection Hdv as <-.
      injection Hint as <-. rewrite Nat2Z.id. split; [done|]. apply length_replicate. }
  rewrite Hbefore. rewrite <- Hlen0 in Hr.
  pose proof (batch_update_occurrences row0 vs Hr) as Hbatch.
  destruct (occurrences_update_cells row0 vs Hr) as (rowf & Hseq & Hlenf & _).
  assert (row' = rowf) as ->.
  { rewrite Hseq in Hbatch. destruct vs as [|v vs].
    - cbn in Hpos, Hneg, Hseq. congruence.
    - rewrite bool_decide_eq_false_2 in Hpos by done.
      rewrite bool_decide_eq_false_2 in Hneg by done.
      rewrite Hpos, Hneg in Hbatch. congruence. }
  exists vs, rowf. split_and!; try done; [apply rows_get_set_eq|].
  intros f row. destruct (decide (focus = f)) as [<-|Hne].
  - rewrite rows_get_set_eq. intros [= <-]. congruence.
  - rewrite rows_get_set_ne by done. apply Hrows.
Qed.
End SeveralContexts.

(** The example generator honours the contract of [np.random.choice]. *)
Lemma example_choice_length (g : Z) (a : list Z) (n : nat) :
  length (example_choice g a n).1 = n.
Proof.
  revert g. induction n as [|n IH]; intros g; [done|].
  cbn [example_choice].
  specialize (IH ((1103515245 * g + 12345) `mod` 2147483648)).
  destruct (example_choice _ a n) as [rest g'']. cbn in *. by rewrite IH.
Qed.

Lemma example_draw_elem (a : list Z) (g : Z) : a <> [] -> example_draw a g ∈ a.
Proof.
  intros Ha. unfold example_draw. apply list_elem_of_In, nth_In.
  assert (0 < Z.of_nat (length a)) by (destruct a; [done|cbn; lia]).
  pose proof (Z.mod_pos_bound (g / 65536) (Z.of_nat (length a))). lia.
Qed.

Lemma example_choice_elem (g : Z) (a : list Z) (n : nat) (x : Z) :
  a <> [] -> x ∈ (example_choice g a n).1 -> x ∈ a.
Proof.
  intros Ha. revert g. induction n as [|n IH]; intros g; [by inversion 1|].
  cbn [example_choice].
  specialize (IH ((1103515245 * g + 12345) `mod` 2147483648)).
  destruct (example_choice _ a n) as [rest g'']. cbn in *.
  intros [->|Hx]%elem_of_cons; [by apply example_draw_elem|by apply IH].
Qed.

Lemma example_numpy_laws : NumpyLaws (H := example_numpy).
Proof.
  split.
  - apply example_choice_length.
  - apply example_choice_elem.
Qed.

Lemma C8_witness :
  accumulate_pair (H := example_utils) (H0 := example_numpy)
    {["dimensionality" := VInt 6; "num_indices" := VInt 3]} [0; 1; 2; 3; 4; 5]
    ([], ∅) ("a", ["b"]) 0
  = Ok (([("a", [1; 0; -1; 0; 0; -1])], {["b" := [0; 5; 2]]}), 1462134057)
  /\ halves_disjoint [0; 5; 2]
  /\ abs_change (row_before [] "a" 6) [1; 0; -1; 0; 0; -1] = 3.
Proof.
  assert (accumulate_pair (H := example_utils) (H0 := example_numpy)
            {["dimensionality" := VInt 6; "num_indices" := VInt 3]}
            (Z.of_nat <$> seq 0 6) ([], ∅) ("a", ["b"]) 0
          = Ok (([("a", [1; 0; -1; 0; 0; -1])], {["b" := [0; 5; 2]]}), 1462134057))
    as Hrun by (vm_compute; reflexivity).
  assert (halves_disjoint [0; 5; 2]) as Hdisj.
  { intros j Hpos Hneg.
    change (positive_half [0; 5; 2]) with [0] in Hpos.
    change (negative_half [0; 5; 2]) with [5; 2] in Hneg.
    apply list_elem_of_singleton in Hpos as ->.
    repeat (apply elem_of_cons in Hneg as [Hneg|Hneg]; [discriminate|]).
    inversion Hneg. }
  split; [exact Hrun|]. split; [exact Hdisj|].
  assert (({["dimensionality" := VInt 6; "num_indices" := VInt 3]} : Config)
            !! "dimensionality" = Some (VInt (Z.of_nat 6))) as Hd
    by (vm_compute; reflexivity).
  assert (({["dimensionality" := VInt 6; "num_indices" := VInt 3]} : Config)
            !! "num_indices" = Some (VInt 3)) as Hn
    by (vm_compute; reflexivity).
  assert (cache_ok 6 3 ∅) as Hcache
    by (intros context v Hv; by rewrite lookup_empty in Hv).
  assert (rows_ok 6 []) as Hrows by (intros focus row Hrow; discriminate).
  destruct (C8_single_occurrence_abs_sum (H := example_utils) (H0 := example_numpy)
              (H1 := example_numpy_laws) _ 6 3 [] _ ∅ _ "a" "b" 0 _
              Hd Hn Hcache Hrows Hrun) as (v & row' & Hv & _ & _ & Hrow & _ & Habs).
  rewrite lookup_singleton_eq in Hv. injection Hv as <-.
  cbn in Hrow. injection Hrow as <-.
  exact (Habs Hdisj).
Defined.

(** With a single dimension every drawn index is 0, the +1 and -1 increments
    cancel, and the accumulator does not change at all. *)
Lemma C8_counterexample :
  exists g',
    accumulate_pair (H := example_utils) (H0 := example_numpy)
      {["dimensionality" := VInt 1; "num_indices" := VInt 8]} [0]
      ([], ∅) ("a", ["b"]) 0
    = Ok (([("a", [0])], {["b" := [0; 0; 0; 0; 0; 0; 0; 0]]}), g')
    /\ abs_change (row_before [] "a" 1) [0] = 0
    /\ abs_change (row_before [] "a" 1) [0] <> 8.
Proof. eexists. split; [vm_compute; reflexivity|]. split; [reflexivity|discriminate]. Qed.

(** ** Determinism of the seeded draws *)

Lemma reseeding_ret {G A} (a : A) : reseeding (mret a : M G A).
Proof. by intros g1 g2. Qed.

Lemma reseeding_raise {G A} (e : exn) : reseeding (raise e : M G A).
Proof. by intros g1 g2. Qed.

Lemma reseeding_lift {G A} (r : result A) : reseeding (lift r : M G A).
Proof. intros g1 g2. unfold lift. by destruct r. Qed.

Lemma reseeding_bind {G A B} (m : M G A) (k : A -> M G B) :
  reseeding m -> (forall a, reseeding (k a)) -> reseeding (m ≫= k).
Proof.
  intros Hm Hk g1 g2. unfold mbind, M_bind. specialize (Hm g1 g2).
  destruct (m g1) as [[a g1']|e1], (m g2) as [[a' g2']|e2]; cbn in Hm;
    try discriminate.
  - injection Hm as <-. apply Hk.
  - by injection Hm as <-.
Qed.

Lemma reseeding_fold_each {G A B} (f : B -> A -> M G B) (b : B) (xs : list A) :
  (forall b x, reseeding (f b x)) -> reseeding (fold_each f b xs).
Proof.
  intros Hf. revert b. induction xs as [|x xs IH]; intros b; cbn.
  - apply reseeding_ret.
  - apply reseeding_bind; [apply Hf|]. intros b'. apply IH.
Qed.

Lemma reseeding_config_getitem {G} (config : Config) (key : string) :
  reseeding (config_getitem config key : M G cval).
Proof.
  unfold config_getitem. destruct (config !! key);
    [apply reseeding_ret|apply reseeding_raise].
Qed.

Lemma reseeding_np_zeros {G} (v : cval) : reseeding (np_zeros v : M G (list Z)).
Proof.
  unfold np_zeros. destruct v; [apply reseeding_raise| |];
    (apply reseeding_bind;
     [first [apply reseeding_ret|apply reseeding_raise]
     |intros n; destruct (n <? 0); [apply reseeding_raise|apply reseeding_ret]]).
Qed.

Section Determinism.
Context `{Utils} `{Numpy}.

(** A draw is preceded by [np.random.seed], so the vector drawn for a
    context depends on the context alone. *)
Lemma reseeding_index_vector (config : Config) (indices : list Z) (cache : Cache)
    (context : string) :
  reseeding (index_vector config indices cache context).
Proof.
  unfold index_vector. destruct (cache !! context); [apply reseeding_ret|].
  intros g1 g2. reflexivity.
Qed.

Lemma reseeding_collect_indices (config : Config) (indices : list Z)
    (acc : list (list Z) * list (list Z) * Cache) (context : string) :
  reseeding (collect_indices config indices acc context).
Proof.
  destruct acc as [[poss negs] cache]. unfold collect_indices.
  apply reseeding_bind; [apply reseeding_index_vector|].
  intros [v cache']. apply reseeding_ret.
Qed.

Lemma reseeding_accumulate_pair (config : Config) (indices : list Z)
    (st : Rows * Cache) (pair : string * list string) :
  reseeding (accumulate_pair config indices st pair).
Proof.
  destruct st as [colfreqs cache], pair as [focus contexts].
  unfold accumulate_pair. apply reseeding_bind.
  { destruct (rows_get colfreqs focus); [apply reseeding_ret|].
    apply reseeding_bind; [apply reseeding_config_getitem|]. intros dv.
    apply reseeding_bind; [apply reseeding_np_zeros|]. intros zeros.
    apply reseeding_ret. }
  intros [colfreqs0 row].
  apply reseeding_bind.
  { apply reseeding_fold_each. intros acc context. apply reseeding_collect_indices. }
  intros [[poss negs] cache'].
  apply reseeding_bind.
  { destruct (bool_decide (poss = [])); [apply reseeding_ret|apply reseeding_lift]. }
  intros row1. apply reseeding_bind.
  { destruct (bool_decide (negs = [])); [apply reseeding_ret|apply reseeding_lift]. }
  intros row2. apply reseeding_ret.
Qed.

Lemma np_arange_run {S} (dv : cval) (s : S) :
  np_arange dv s
  = match np_arange dv tt with
    | Ok (indices, _) => Ok (indices, s)
    | Error e => Error e
    end.
Proof. by destruct dv. Qed.

(** The accumulation step, one stage after the other. *)
Lemma RandomIndexing_build_run (config : Config) (text : Text) (v : Vocab)
    (g : rng_state) :
  RandomIndexing_build config text (v, g)
  = match config !! "dimensionality" with
    | None => Error (KeyError "dimensionality")
    | Some dv =>
        match np_arange dv tt with
        | Error e => Error e
        | Ok (indices, _) =>
            match text v with
            | Error e => Error e
            | Ok (pairs, v') =>
                match fold_each (accumulate_pair config indices) ([], ∅) pairs g with
                | Error e => Error e
                | Ok ((colfreqs, _), g') =>
                    match colfreqs with
                    | [] => Error (ValueError "need at least one array to concatenate")
                    | _ => Ok (AsTuple colfreqs.*2 colfreqs.*1 indices, (v', g'))
                    end
                end
            end
        end
    end.
Proof.
  unfold RandomIndexing_build, config_getitem.
  destruct (config !! "dimensionality") as [dv|]; [|done].
  unfold mbind, M_bind. unfold mret at 1, M_ret at 1.
  rewrite np_arange_run.
  destruct (np_arange dv tt) as [[indices []]|]; [|done].
  unfold on_fst, on_snd. cbn [fst snd].
  destruct (text v) as [[pairs v']|]; [|done]. cbn [fst snd].
  destruct (fold_each _ _ pairs g) as [[[colfreqs cache] g']|]; [|done].
  by destruct colfreqs.
Qed.

Lemma RandomIndexing_build_deterministic (config : Config) (text : Text)
    (v : Vocab) (g1 g2 : rng_state) :
  outcome_with_vocabulary (RandomIndexing_build config text (v, g1))
  = outcome_with_vocabulary (RandomIndexing_build config text (v, g2)).
Proof.
  rewrite !RandomIndexing_build_run.
  destruct (config !! "dimensionality") as [dv|]; [|done].
  destruct (np_arange dv tt) as [[indices []]|]; [|done].
  destruct (text v) as [[pairs v']|]; [|done].
  pose proof (reseeding_fold_each (accumulate_pair config indices) ([], ∅) pairs
                (reseeding_accumulate_pair config indices) g1 g2) as Hfold.
  destruct (fold_each _ _ pairs g1) as [[[colfreqs cache] g1']|],
           (fold_each _ _ pairs g2) as [[[colfreqs2 cache2] g2']|];
    cbn in Hfold; try discriminate; [|by injection Hfold as <-].
  injection Hfold as <- <-. by destruct colfreqs.
Qed.
End Determinism.

Section ConstructorDeterminism.
Context `{Utils} `{Numpy} `{MatrixLib}.

Lemma _build_deterministic (cls : Class_) (config : Config) (text : Text)
    (v : Vocab) (g1 g2 : rng_state) :
  outcome_with_vocabulary (_build cls config text (v, g1))
  = outcome_with_vocabulary (_build cls config text (v, g2)).
Proof.
  destruct cls; cbn [_build].
  - unfold CooccurrenceDSM_build, mbind, M_bind, on_fst. cbn [fst snd].
    by destruct (text v) as [[pairs v']|].
  - apply RandomIndexing_build_deterministic.
Qed.

Lemma build_reseeding (cls : Class_) (config : Config) (L R : Z) (v : Vocab)
    (corpus : Corpus) :
  reseeding (build cls config L R v corpus).
Proof.
  intros g1 g2. unfold build.
  pose proof (_build_deterministic cls config (_vocabularize config L R corpus)
                v g1 g2) as Hb.
  destruct (_build cls config _ (v, g1)) as [[b1 [v1 g1']]|],
           (_build cls config _ (v, g2)) as [[b2 [v2 g2']]|];
    cbn in Hb; try discriminate; [|by injection Hb as <-].
  injection Hb as <- <-. by destruct b1.
Qed.

Lemma DSM___init___reseeding (cls : Class_) (matrix : option IndexMatrix)
    (corpus : Corpus) (window_size : list Z) (vocabulary : option Vocab)
    (config : slot (option Config)) (kwargs : list (string * option cval)) :
  reseeding (DSM___init__ cls matrix corpus window_size vocabulary config kwargs).
Proof.
  unfold DSM___init__. destruct config as [|config]; [apply reseeding_raise|].
  destruct window_size as [|L [|R [|]]]; try apply reseeding_raise.
  apply reseeding_bind.
  - destruct matrix; [apply reseeding_ret|].
    unfold build_matrix. apply reseeding_bind; [apply build_reseeding|].
    intros [b v]. apply reseeding_ret.
  - intros [m v]. apply reseeding_ret.
Qed.

(** C9. Whatever state the global random generator is in, building a
    random-indexing model from the same corpus with the same configuration
    (and the same hash) produces the same matrix values, row labels and
    column labels, and the same error when the build raises: every draw is
    preceded by seeding the generator from the context token. *)
Theorem C9_random_indexing_deterministic (corpus : Corpus) (window_size : list Z)
    (config : option Config)
    (lower_threshold higher_threshold dimensionality num_indices : option cval)
    (vocabulary : option Vocab) (matrix : option IndexMatrix)
    (ordered directed : option cval) (kwargs : list (string * kwarg))
    (text : Text) (cfg : Config) (v : Vocab) (g1 g2 : rng_state) :
  outcome (RandomIndexing___init__ corpus window_size config lower_threshold
             higher_threshold dimensionality num_indices vocabulary matrix
             ordered directed kwargs g1)
  = outcome (RandomIndexing___init__ corpus window_size config lower_threshold
               higher_threshold dimensionality num_indices vocabulary matrix
               ordered directed kwargs g2)
  /\ outcome_with_vocabulary (RandomIndexing_build cfg text (v, g1))
     = outcome_with_vocabulary (RandomIndexing_build cfg text (v, g2)).
Proof.
  split.
  - apply DSM___init___reseeding.
  - apply RandomIndexing_build_deterministic.
Qed.
End ConstructorDeterminism.

(** Two builds in a row, the second starting from the generator state the
    first one left, give the same matrix. *)
Example random_indexing_twice :
  let config : Config :=
    {["lower_threshold" := VInt 0; "dimensionality" := VInt 6;
      "num_indices" := VInt 3]} in
  exists b v g g',
    build (H := example_utils) (H0 := example_numpy) cls_RandomIndexing
      config 1 1 ∅ [Line "a b c"] 0 = Ok (b, v, g)
    /\ build (H := example_utils) (H0 := example_numpy) cls_RandomIndexing
         config 1 1 ∅ [Line "a b c"] g = Ok (b, v, g')
    /\ g <> 0.
Proof.
  intros config. eexists _, _, _, _.
  split; [vm_compute; reflexivity|]. split; [vm_compute; reflexivity|].
  vm_compute. discriminate.
Qed.

(** ** Rows of focus tokens without contexts *)

Section EmptyContexts.
Context `{Utils} `{Numpy}.



End EmptyContexts.


(** The same focus in both results. *)
Example focus_without_contexts_example :
  exists g',
    RandomIndexing_build (H := example_utils) (H0 := example_numpy)
      {["dimensionality" := VInt 6; "num_indices" := VInt 3]}
      (mret [("a", ["b"]); ("z", [])]) (∅, 0)
    = Ok (AsTuple [[1; 0; -1; 0; 0; -1]; [0; 0; 0; 0; 0; 0]] ["a"; "z"]
            [0; 1; 2; 3; 4; 5], (∅, g'))
    /\ count_pairs [("a", ["b"]); ("z", [])] = {[ "a" := {[ "b" := 1 ]} ]}.
Proof. eexists. split; vm_compute; reflexivity. Qed.

(** ** The errors of a build *)

Lemma raises_only_ret {S A} (P : exn -> Prop) (a : A) :
  raises_only P (mret a : M S A).
Proof. by intros s e. Qed.

Lemma raises_only_raise {S A} (P : exn -> Prop) (e : exn) :
  P e -> raises_only P (raise e : M S A).
Proof. intros He s e' [= <-]. exact He. Qed.

Lemma raises_only_lift {S A} (P : exn -> Prop) (r : result A) :
  (forall e, r = Error e -> P e) -> raises_only P (lift r : M S A).
Proof. intros Hr s e. unfold lift. destruct r; [done|]. intros [= <-]. by apply Hr. Qed.

Lemma raises_only_bind {S A B} (P : exn -> Prop) (m : M S A) (k : A -> M S B) :
  raises_only P m -> (forall a, raises_only P (k a)) -> raises_only P (m ≫= k).
Proof.
  intros Hm Hk s e. unfold mbind, M_bind.
  destruct (m s) as [[a s']|e'] eqn:E.
  - apply Hk.
  - intros [= <-]. by apply (Hm s).
Qed.

Lemma raises_only_for_each {S A B} (P : exn -> Prop) (f : A -> M S B)
    (xs : list A) :
  (forall x, raises_only P (f x)) -> raises_only P (for_each f xs).
Proof.
  intros Hf. induction xs as [|x xs IH]; cbn; [apply raises_only_ret|].
  apply raises_only_bind; [apply Hf|]. intros y.
  apply raises_only_bind; [apply IH|]. intros ys. apply raises_only_ret.
Qed.

Lemma raises_only_fold_each {S A B} (P : exn -> Prop) (f : B -> A -> M S B)
    (b : B) (xs : list A) :
  (forall b x, raises_only P (f b x)) -> raises_only P (fold_each f b xs).
Proof.
  intros Hf. revert b. induction xs as [|x xs IH]; intros b; cbn;
    [apply raises_only_ret|].
  apply raises_only_bind; [apply Hf|]. intros b'. apply IH.
Qed.

Lemma raises_only_on_fst {S T A} (P : exn -> Prop) (m : M S A) :
  raises_only P m -> raises_only P (on_fst m : M (S * T) A).
Proof.
  intros Hm [s t] e. unfold on_fst. cbn.
  destruct (m s) as [[a s']|e'] eqn:E; [done|]. intros [= <-]. by apply (Hm s).
Qed.

Lemma raises_only_on_snd {S T A} (P : exn -> Prop) (m : M T A) :
  raises_only P m -> raises_only P (on_snd m : M (S * T) A).
Proof.
  intros Hm [s t] e. unfold on_snd. cbn.
  destruct (m t) as [[a t']|e'] eqn:E; [done|]. intros [= <-]. by apply (Hm t).
Qed.

Lemma config_getitem_raises_only {S} (config : Config) (key : string) :
  raises_only build_error (config_getitem config key : M S cval).
Proof.
  unfold config_getitem. destruct (config !! key);
    [apply raises_only_ret|by apply raises_only_raise].
Qed.

Lemma as_index_raises_only {S} (v : cval) :
  raises_only build_error (as_index v : M S Z).
Proof.
  destruct v; cbn; [apply raises_only_ret..|apply raises_only_raise; by left].
Qed.

Lemma np_zeros_raises_only {S} (v : cval) :
  raises_only build_error (np_zeros v : M S (list Z)).
Proof.
  unfold np_zeros. destruct v; [apply raises_only_raise; by right| |];
    (apply raises_only_bind; [apply as_index_raises_only|];
     intros n; destruct (n <? 0); [by apply raises_only_raise|apply raises_only_ret]).
Qed.

Lemma np_arange_raises_only {S} (v : cval) :
  raises_only build_error (np_arange v : M S (list Z)).
Proof.
  destruct v; cbn; try by apply raises_only_raise.
  all: apply raises_only_bind; [apply raises_only_ret|]; intros n;
    apply raises_only_ret.
Qed.

Lemma np_add_at_raises_only (a indices : list Z) (v : Z) (e : exn) :
  np_add_at a indices v = Error e -> build_error e.
Proof.
  revert a. induction indices as [|j indices IH]; intros a; cbn; [done|].
  destruct (add_at1 v a j) as [a'|e'] eqn:E; [apply IH|].
  intros [= <-]. unfold add_at1 in E.
  repeat (destruct (_ && _) in E; try done). by injection E as <-.
Qed.

Lemma keep_frequent_raises_only (threshold : cval) (context : list string) :
  raises_only build_error (keep_frequent threshold context).
Proof.
  unfold keep_frequent. apply raises_only_bind; [|intros; apply raises_only_ret].
  apply raises_only_for_each. intros w.
  apply raises_only_bind; [|intros; apply raises_only_ret].
  intros s e. unfold vocab_getitem. by destruct (s !! w).
Qed.

Lemma visit_focus_raises_only (config : Config) (L R : Z) (s : sentence) (i : nat)
    (focus : string) :
  raises_only build_error (visit_focus config L R s i focus).
Proof.
  intros v e. unfold visit_focus.
  unfold mbind at 1, M_bind at 1. rewrite vocab_incr_bump.
  unfold mbind at 1, M_bind at 1. rewrite vocab_getitem_bump.
  destruct (context_span L R s i) as [cl cr].
  revert e. generalize (bump v focus). apply raises_only_bind.
  { apply config_getitem_raises_only. }
  intros thr. apply raises_only_bind.
  - destruct (truthy thr); [|apply raises_only_ret].
    apply raises_only_bind; [apply keep_frequent_raises_only|]. intros l.
    apply raises_only_bind; [apply keep_frequent_raises_only|]. intros r.
    apply raises_only_ret.
  - intros [l r].
    destruct (truthy (config_get config "directed" (VBool false)));
      destruct (truthy (config_get config "ordered" (VBool false)));
      apply raises_only_ret.
Qed.

Lemma _vocabularize_raises_only `{Utils} (config : Config) (L R : Z)
    (corpus : Corpus) :
  raises_only build_error (_vocabularize config L R corpus).
Proof.
  unfold _vocabularize. apply raises_only_bind; [|intros; apply raises_only_ret].
  apply raises_only_for_each. intros s. unfold visit_sentence.
  apply raises_only_bind; [|intros; apply raises_only_ret].
  apply raises_only_for_each. intros [i focuses].
  apply raises_only_for_each. intros focus. apply visit_focus_raises_only.
Qed.

Section BuildErrors.
Context `{Utils} `{Numpy}.

Lemma choice_raises_only (a : list Z) (v : cval) :
  raises_only build_error (choice a v).
Proof.
  unfold choice. apply raises_only_bind; [apply as_index_raises_only|].
  intros n. destruct (n <? 0); [by apply raises_only_raise|].
  destruct (bool_decide (a = []) && (0 <? n)); [by apply raises_only_raise|].
  by intros g e.
Qed.

Lemma accumulate_pair_raises_only (config : Config) (indices : list Z)
    (st : Rows * Cache) (pair : string * list string) :
  raises_only build_error (accumulate_pair config indices st pair).
Proof.
  destruct st as [colfreqs cache], pair as [focus contexts].
  unfold accumulate_pair. apply raises_only_bind.
  { destruct (rows_get colfreqs focus); [apply raises_only_ret|].
    apply raises_only_bind; [apply config_getitem_raises_only|]. intros dv.
    apply raises_only_bind; [apply np_zeros_raises_only|]. intros zeros.
    apply raises_only_ret. }
  intros [colfreqs0 row]. apply raises_only_bind.
  { apply raises_only_fold_each. intros [[poss negs] c] context.
    unfold collect_indices. apply raises_only_bind; [|intros [v c']; apply raises_only_ret].
    unfold index_vector. destruct (c !! context); [apply raises_only_ret|].
    apply raises_only_bind; [by intros g e|]. intros _.
    apply raises_only_bind; [apply config_getitem_raises_only|]. intros ni.
    apply raises_only_bind; [apply choice_raises_only|]. intros v.
    apply raises_only_ret. }
  intros [[poss negs] cache']. apply raises_only_bind.
  { destruct (bool_decide (poss = [])); [apply raises_only_ret|].
    apply raises_only_lift. apply np_add_at_raises_only. }
  intros row1. apply raises_only_bind.
  { destruct (bool_decide (negs = [])); [apply raises_only_ret|].
    apply raises_only_lift. apply np_add_at_raises_only. }
  intros row2. apply raises_only_ret.
Qed.

Lemma _build_raises_only (cls : Class_) (config : Config) (L R : Z)
    (corpus : Corpus) :
  raises_only build_error (_build cls config (_vocabularize config L R corpus)).
Proof.
  destruct cls; cbn [_build].
  - unfold CooccurrenceDSM_build.
    apply raises_only_bind; [|intros; apply raises_only_ret].
    apply raises_only_on_fst, _vocabularize_raises_only.
  - unfold RandomIndexing_build.
    apply raises_only_bind; [apply config_getitem_raises_only|]. intros dv.
    apply raises_only_bind; [apply np_arange_raises_only|]. intros indices.
    apply raises_only_bind.
    { apply raises_only_on_fst, _vocabularize_raises_only. }
    intros pairs. apply raises_only_bind.
    { apply raises_only_on_snd, raises_only_fold_each.
      intros st pair. apply accumulate_pair_raises_only. }
    intros [colfreqs cache]. apply raises_only_bind; [|intros; apply raises_only_ret].
    unfold np_vstack. destruct (colfreqs.*2);
      [by apply raises_only_raise|apply raises_only_ret].
Qed.
End BuildErrors.

(** ** Construction and re-weighting *)

Section Construction.
Context `{Utils} `{Numpy} `{MatrixLib}.

(** What [DSM.__init__] leaves on the instance when it returns. *)
Lemma DSM___init___attrs (cls : Class_) (matrix : option IndexMatrix)
    (corpus : Corpus) (window_size : list Z) (vocabulary : option Vocab)
    (config : slot (option Config)) (kwargs : list (string * option cval))
    (g g' : rng_state) (self : Instance) :
  DSM___init__ cls matrix corpus window_size vocabulary config kwargs g
  = Ok (self, g') ->
  type_ self = cls
  /\ attr_window_size self = Some window_size
  /\ length window_size = 2%nat
  /\ (exists cfg, config = Bound cfg
                  /\ attr_config self = Some (merge_options (default ∅ cfg) kwargs))
  /\ is_Some (attr_matrix self)
  /\ (forall m, matrix = Some m -> attr_matrix self = Some m /\ g' = g)
  /\ attr_corpus self = None.
Proof.
  unfold DSM___init__. destruct config as [|cfg]; [done|].
  destruct window_size as [|L [|R [|]]]; try done.
  unfold mbind, M_bind.
  destruct matrix as [m|].
  - unfold mret, M_ret. intros [= <- <-]. cbn.
    repeat split; try done; try (by eexists); by intros ? [= <-].
  - destruct (build_matrix _ _ _ _ _ _ g) as [[[m v] g1]|]; [|done].
    unfold mret, M_ret. intros [= <- <-]. cbn.
    repeat split; try done; by eexists.
Qed.

(** The window check comes first and does not look at the corpus. *)
Lemma DSM___init___window (cls : Class_) (matrix : option IndexMatrix)
    (corpus : Corpus) (window_size : list Z) (vocabulary : option Vocab)
    (config : option Config) (kwargs : list (string * option cval))
    (g : rng_state) :
  length window_size <> 2%nat ->
  DSM___init__ cls matrix corpus window_size vocabulary (Bound config) kwargs g
  = Error (TypeError "Window size must be a tuple of length 2.").
Proof.
  intros Hlen. unfold DSM___init__.
  by destruct window_size as [|L [|R [|]]].
Qed.

Lemma RandomIndexing___init___window (corpus : Corpus) (window_size : list Z)
    (config : option Config)
    (lower_threshold higher_threshold dimensionality num_indices : option cval)
    (vocabulary : option Vocab) (matrix : option IndexMatrix)
    (ordered directed : option cval) (kwargs : list (string * kwarg))
    (g : rng_state) :
  (length window_size <> 2%nat ->
   RandomIndexing___init__ corpus window_size config lower_threshold
     higher_threshold dimensionality num_indices vocabulary matrix ordered
     directed kwargs g
   = Error (TypeError "Window size must be a tuple of length 2."))
  /\ (length window_size = 2%nat ->
      forall m, matrix = Some m ->
                exists self,
                  RandomIndexing___init__ corpus window_size config lower_threshold
                    higher_threshold dimensionality num_indices vocabulary matrix
                    ordered directed kwargs g
                  = Ok (self, g)).
Proof.
  split.
  - apply DSM___init___window.
  - intros Hlen m ->. unfold RandomIndexing___init__, DSM___init__.
    destruct window_size as [|L [|R [|]]]; try done. by eexists.
Qed.

(** The build raises missing keys and numpy's errors, never the window
    error. *)
Lemma build_raises_only (cls : Class_) (config : Config) (L R : Z)
    (v : Vocab) (corpus : Corpus) :
  raises_only build_error (build cls config L R v corpus).
Proof.
  intros g e. unfold build.
  destruct (_build cls config (_vocabularize config L R corpus) (v, g))
    as [[[d|values rows cols] [v' g']]|e'] eqn:Hb; try done.
  intros [= <-]. by apply _build_raises_only in Hb.
Qed.

(** C2. [CooccurrenceDSM.__init__] calls the base constructor without its
    required [config] argument, so constructing a co-occurrence model raises
    [TypeError] for every window size, two-element ones included, before the
    window is even looked at. [RandomIndexing.__init__] passes [config]: it
    raises the window [TypeError] exactly when the window does not have two
    elements, whatever the corpus, and otherwise goes on (and returns, when
    the matrix is supplied). *)
Theorem C2_window_size_check (corpus : Corpus) (window_size : list Z)
    (matrix : option IndexMatrix) (vocabulary : option Vocab)
    (config : option Config)
    (lower_threshold higher_threshold dimensionality num_indices : option cval)
    (ordered directed : option cval) (kwargs : list (string * kwarg))
    (g : rng_state) :
  CooccurrenceDSM___init__ corpus window_size matrix vocabulary lower_threshold
    higher_threshold ordered directed kwargs g
  = Error (TypeError "__init__() missing 1 required positional argument: 'config'")
  /\ (RandomIndexing___init__ corpus window_size config lower_threshold
        higher_threshold dimensionality num_indices vocabulary matrix ordered
        directed kwargs g
      = Error (TypeError "Window size must be a tuple of length 2.")
      <-> length window_size <> 2%nat)
  /\ (length window_size = 2%nat ->
      forall m, matrix = Some m ->
                exists self,
                  RandomIndexing___init__ corpus window_size config lower_threshold
                    higher_threshold dimensionality num_indices vocabulary matrix
                    ordered directed kwargs g
                  = Ok (self, g)).
Proof.
  split; [reflexivity|]. split; [split|].
  - intros Hraise Hlen.
    unfold RandomIndexing___init__, DSM___init__ in Hraise.
    destruct window_size as [|L [|R [|]]]; try done.
    unfold mbind, M_bind in Hraise.
    destruct matrix as [m|]; [done|].
    unfold build_matrix, mbind, M_bind in Hraise.
    set (cfg := merge_options _ _) in Hraise.
    destruct (build cls_RandomIndexing cfg L R (default ∅ vocabulary) corpus g)
      as [[[b v] g']|e] eqn:Hbuild; [done|].
    injection Hraise as ->.
    apply build_raises_only in Hbuild. by destruct Hbuild.
  - apply RandomIndexing___init___window.
  - apply RandomIndexing___init___window.
Qed.

(** C1. No statement of the constructors assigns [self.corpus], so on every
    instance a constructor has returned [apply_weighting] raises
    [AttributeError] when [_new_instance] reads it. *)
Theorem C1_apply_weighting_raises (cls : Class_) (matrix : option IndexMatrix)
    (corpus : Corpus) (window_size : list Z) (vocabulary : option Vocab)
    (config : slot (option Config)) (kwargs : list (string * option cval))
    (g g' g'' : rng_state) (self : Instance)
    (weight_func : IndexMatrix -> IndexMatrix) :
  DSM___init__ cls matrix corpus window_size vocabulary config kwargs g
  = Ok (self, g') ->
  apply_weighting self weight_func g'' = Error (AttributeError "corpus").
Proof.
  intros Hinit.
  apply DSM___init___attrs in Hinit as (_ & _ & _ & _ & [m Hm] & _ & Hcorpus).
  unfold apply_weighting, _new_instance, mbind, M_bind.
  rewrite Hm, Hcorpus. reflexivity.
Qed.

(** Were the attribute there (say, assigned by the caller), re-weighting a
    random-indexing model would return a new instance around the weighted
    matrix, its configuration overwritten by the constructor's defaults. *)
Lemma apply_weighting_with_corpus (self : Instance) (corpus : Corpus) (L R : Z)
    (cfg : Config) (m : IndexMatrix) (weight_func : IndexMatrix -> IndexMatrix)
    (g : rng_state) :
  type_ self = cls_RandomIndexing ->
  attr_corpus self = Some corpus ->
  attr_window_size self = Some [L; R] ->
  attr_config self = Some cfg ->
  attr_matrix self = Some m ->
  apply_weighting self weight_func g
  = Ok ({| type_ := cls_RandomIndexing;
           attr_window_size := Some [L; R];
           attr_config :=
             Some (<["directed" := VBool false]>
                     (<["ordered" := VBool false]>
                        (<["num_indices" := VInt 8]>
                           (<["dimensionality" := VInt 2000]> cfg))));
           attr__vocabulary := Some (vocabulary self);
           attr_matrix := Some (weight_func m);
           attr_corpus := None |}, g).
Proof.
  intros Hcls Hcorpus Hwin Hcfg Hm.
  unfold apply_weighting, _new_instance, mbind, M_bind.
  rewrite Hm, Hcorpus, Hwin, Hcfg, Hcls. reflexivity.
Qed.
End Construction.

Lemma C2_witness :
  RandomIndexing___init__ (H := example_utils) (H0 := example_numpy)
    (H1 := example_matrixlib) [Line "a b"] [1; 1; 1] None None None
    (Some (VInt 2000)) (Some (VInt 8)) None None
    (Some (VBool false)) (Some (VBool false)) [] 0
  = Error (TypeError "Window size must be a tuple of length 2.")
  /\ exists self,
       RandomIndexing___init__ (H := example_utils) (H0 := example_numpy)
         (H1 := example_matrixlib) [Line "a b"] [1; 1] None None None
         (Some (VInt 2000)) (Some (VInt 8)) None (Some (FromDict ∅))
         (Some (VBool false)) (Some (VBool false)) [] 0
       = Ok (self, 0).
Proof.
  split.
  - apply (proj1 (proj2 (C2_window_size_check (H := example_utils)
                           (H0 := example_numpy) (H1 := example_matrixlib)
                           [Line "a b"] [1; 1; 1] None None None None None
                           (Some (VInt 2000)) (Some (VInt 8))
                           (Some (VBool false)) (Some (VBool false)) [] 0))).
    discriminate.
  - apply (proj2 (proj2 (C2_window_size_check (H := example_utils)
                           (H0 := example_numpy) (H1 := example_matrixlib)
                           [Line "a b"] [1; 1] (Some (FromDict ∅)) None None None
                           None (Some (VInt 2000)) (Some (VInt 8))
                           (Some (VBool false)) (Some (VBool false)) [] 0))
             eq_refl (FromDict ∅) eq_refl).
Defined.

Lemma C1_witness :
  exists self,
    RandomIndexing___init__ (H := example_utils) (H0 := example_numpy)
      (H1 := example_matrixlib) [Line "a b"] [1; 1] None None None
      (Some (VInt 2000)) (Some (VInt 8)) None (Some (FromDict ∅))
      (Some (VBool false)) (Some (VBool false)) [] 0
    = Ok (self, 0)
    /\ apply_weighting (H := example_utils) (H0 := example_numpy)
         (H1 := example_matrixlib) self Weighted 0
       = Error (AttributeError "corpus").
Proof.
  eexists. split; [reflexivity|].
  refine (C1_apply_weighting_raises (H := example_utils) (H0 := example_numpy)
            (H1 := example_matrixlib) cls_RandomIndexing (Some (FromDict ∅))
            [Line "a b"] [1; 1] None (Bound None) _ 0 0 0 _ Weighted _).
  reflexivity.
Defined.

(** * Further properties *)

(** ** The vocabulary as a counter *)

Lemma freq_bump (v : Vocab) (focus w : string) :
  freq (bump v focus) w = freq v w + (if decide (focus = w) then 1 else 0).
Proof.
  unfold freq, bump. destruct (decide (focus = w)) as [->|Hne].
  - by rewrite lookup_insert_eq.
  - rewrite lookup_insert_ne by done. lia.
Qed.

Lemma freq_touch (v : Vocab) (x w : string) : freq (touch v x) w = freq v w.
Proof.
  unfold freq, touch. destruct (v !! x) eqn:Hx; [done|].
  destruct (decide (x = w)) as [->|Hne].
  - by rewrite lookup_insert_eq, Hx.
  - by rewrite lookup_insert_ne.
Qed.

Lemma freq_foldl_touch (v : Vocab) (xs : list string) (w : string) :
  freq (foldl touch v xs) w = freq v w.
Proof.
  revert v. induction xs as [|x xs IH]; intros v; [done|].
  cbn. by rewrite IH, freq_touch.
Qed.

Lemma vocab_getitem_touch (w : string) (v : Vocab) :
  vocab_getitem w v = Ok (freq v w, touch v w).
Proof. unfold vocab_getitem, freq, touch. by destruct (v !! w). Qed.

(** The threshold filter keeps, in order, the words whose frequency at that
    moment exceeds the threshold, and registers every word it looks at. *)
Lemma keep_frequent_run (threshold : cval) (context : list string) (v : Vocab) :
  keep_frequent threshold context v
  = Ok (filter (fun w => exceeds threshold v w = true) context,
        foldl touch v context).
Proof.
  unfold keep_frequent, mbind, M_bind.
  assert (forall v0,
            (forall w, freq v0 w = freq v w) ->
            for_each (fun w => f ← vocab_getitem w;
                               mret (if num_ltb (to_num threshold) (Fin f)
                                     then [w] else [])) context v0
            = Ok (map (fun w => if exceeds threshold v w then [w] else []) context,
                  foldl touch v0 context)) as Hloop.
  { induction context as [|x context IH]; intros v0 Hv0; [done|].
    cbn [for_each map foldl]. unfold mbind, M_bind.
    rewrite vocab_getitem_touch. unfold mret at 1, M_ret at 1.
    rewrite IH by (intros w; by rewrite freq_touch).
    unfold mret, M_ret, exceeds. by rewrite Hv0. }
  rewrite Hloop by done. unfold mret, M_ret. do 2 f_equal.
  clear. induction context as [|x context IH]; [done|].
  cbn [map concat]. rewrite filter_cons, IH.
  by destruct (exceeds threshold v x).
Qed.

Lemma exceeds_foldl_touch (threshold : cval) (v : Vocab) (xs : list string)
    (w : string) :
  exceeds threshold (foldl touch v xs) w = exceeds threshold v w.
Proof. unfold exceeds. by rewrite freq_foldl_touch. Qed.

(** A visit with [lower_threshold] stored always yields, and what it yields
    and leaves behind is this. *)
Lemma visit_focus_run (config : Config) (L R : Z) (s : sentence) (i : nat)
    (focus : string) (v : Vocab) (threshold : cval) :
  config !! "lower_threshold" = Some threshold ->
  visit_focus config L R s i focus v
  = Ok ((focus, emitted config threshold (bump v focus)
                  (context_span L R s i).1 (context_span L R s i).2),
        visited threshold v focus (context_span L R s i).1 (context_span L R s i).2).
Proof.
  intros Hcfg. unfold visit_focus, emitted, visited, tagged.
  unfold mbind at 1, M_bind at 1. rewrite vocab_incr_bump.
  unfold mbind at 1, M_bind at 1. rewrite vocab_getitem_bump.
  destruct (context_span L R s i) as [cl cr]. cbn [fst snd].
  unfold config_getitem. rewrite Hcfg.
  unfold mbind at 1, M_bind at 1. unfold mret at 1, M_ret at 1.
  destruct (truthy threshold).
  - unfold mbind, M_bind. rewrite !keep_frequent_run.
    unfold mret, M_ret.
    rewrite (list_filter_iff
               (fun w => exceeds threshold (foldl touch (bump v focus) cl) w = true)
               (fun w => exceeds threshold (bump v focus) w = true))
      by (intros w; by rewrite exceeds_foldl_touch).
    destruct (truthy (config_get config "directed" (VBool false)));
      destruct (truthy (config_get config "ordered" (VBool false))); reflexivity.
  - unfold mbind, M_bind, mret, M_ret.
    destruct (truthy (config_get config "directed" (VBool false)));
      destruct (truthy (config_get config "ordered" (VBool false))); reflexivity.
Qed.

Lemma freq_visited (threshold : cval) (v : Vocab) (focus : string)
    (cl cr : list string) (w : string) :
  freq (visited threshold v focus cl cr) w
  = freq v w + (if decide (focus = w) then 1 else 0).
Proof.
  unfold visited. destruct (truthy threshold).
  - by rewrite !freq_foldl_touch, freq_bump.
  - apply freq_bump.
Qed.

Lemma count_in_nil (w : string) : count_in w [] = 0.
Proof. reflexivity. Qed.

Lemma count_in_cons (w x : string) (l : list string) :
  count_in w (x :: l) = (if decide (x = w) then 1 else 0) + count_in w l.
Proof.
  unfold count_in. rewrite filter_cons.
  destruct (decide (x = w)); cbn [length]; lia.
Qed.

Lemma count_in_app (w : string) (l1 l2 : list string) :
  count_in w (l1 ++ l2) = count_in w l1 + count_in w l2.
Proof. unfold count_in. rewrite filter_app, length_app. lia. Qed.

Lemma count_in_nonneg (w : string) (l : list string) : 0 <= count_in w l.
Proof. unfold count_in. lia. Qed.

(** A loop each of whose iterations returns, labels its result and counts
    its tokens, returns the labelled results and has counted all tokens. *)
Lemma for_each_tally {A B C} (f : A -> M Vocab B) (label : B -> C) (g : A -> C)
    (tokens : A -> list string) (xs : list A) (v : Vocab) :
  (forall x v, exists b v',
      f x v = Ok (b, v') /\ label b = g x
      /\ forall w, freq v' w = freq v w + count_in w (tokens x)) ->
  exists bs v',
    for_each f xs v = Ok (bs, v') /\ map label bs = map g xs
    /\ forall w, freq v' w = freq v w + count_in w (flat_map tokens xs).
Proof.
  intros Hf. revert v. induction xs as [|x xs IH]; intros v.
  - exists [], v. split; [done|]. split; [done|]. intros w.
    cbn [flat_map]. rewrite count_in_nil. lia.
  - destruct (Hf x v) as (b & v1 & Hx & Hb & Hv1).
    destruct (IH v1) as (bs & v2 & Hxs & Hbs & Hv2).
    exists (b :: bs), v2. cbn [for_each]. unfold mbind, M_bind.
    rewrite Hx, Hxs. split; [done|]. split; [cbn; by rewrite Hb, Hbs|].
    intros w. cbn [flat_map]. rewrite count_in_app, Hv2, Hv1. lia.
Qed.

Lemma flat_map_enumerate_focuses (s : sentence) :
  flat_map (fun '(_, focuses) => focuses_of focuses) (enumerate s) = _flatten s.
Proof.
  unfold enumerate.
  change (@pair nat item) with (fun k x => (@id nat k, x : item)).
  generalize (@id nat) as g.
  induction s as [|it s IH]; intros g; [reflexivity|].
  cbn. unfold _flatten in *. rewrite <- (IH (g ∘ S)). by destruct it.
Qed.

Lemma flat_map_singleton {A} (l : list A) : flat_map (fun x => [x]) l = l.
Proof. induction l as [|x l IH]; [done|]. cbn. by rewrite IH. Qed.

Lemma visit_focuses_tally (config : Config) (L R : Z) (s : sentence) (i : nat)
    (focuses : list string) (v : Vocab) (threshold : cval) :
  config !! "lower_threshold" = Some threshold ->
  exists pairs v',
    for_each (visit_focus config L R s i) focuses v = Ok (pairs, v')
    /\ map fst pairs = focuses
    /\ forall w, freq v' w = freq v w + count_in w focuses.
Proof.
  intros Hcfg.
  destruct (for_each_tally (visit_focus config L R s i) fst id (fun x => [x])
              focuses v) as (pairs & v' & Hrun & Hlabels & Hfreq).
  - intros focus v0. eexists _, _. split; [by apply visit_focus_run|].
    split; [done|]. intros w. rewrite freq_visited, count_in_cons, count_in_nil.
    lia.
  - exists pairs, v'. split; [done|]. split; [by rewrite Hlabels, map_id|].
    intros w. by rewrite Hfreq, flat_map_singleton.
Qed.

Lemma visit_sentence_tally (config : Config) (L R : Z) (s : sentence) (v : Vocab)
    (threshold : cval) :
  config !! "lower_threshold" = Some threshold ->
  exists pairs v',
    visit_sentence config L R s v = Ok (pairs, v')
    /\ map fst pairs = _flatten s
    /\ forall w, freq v' w = freq v w + count_in w (_flatten s).
Proof.
  intros Hcfg. unfold visit_sentence.
  destruct (for_each_tally
              (fun '(i, focuses) =>
                 for_each (visit_focus config L R s i) (focuses_of focuses))
              (map fst) (fun '(_, focuses) => focuses_of focuses)
              (fun '(_, focuses) => focuses_of focuses)
              (enumerate s) v) as (pss & v' & Hrun & Hlabels & Hfreq).
  - intros [i focuses] v0. by apply (visit_focuses_tally _ _ _ _ _ _ _ threshold).
  - exists (concat pss), v'. unfold mbind, M_bind. rewrite Hrun.
    split; [done|]. split.
    + rewrite <- flat_map_enumerate_focuses, flat_map_concat_map, <- Hlabels.
      clear. induction pss as [|ps pss IH]; [done|].
      cbn. by rewrite map_app, IH.
    + intros w. by rewrite Hfreq, flat_map_enumerate_focuses.
Qed.

Lemma _vocabularize_tally `{Utils} (config : Config) (L R : Z) (corpus : Corpus)
    (v : Vocab) (threshold : cval) :
  config !! "lower_threshold" = Some threshold ->
  exists pairs v',
    _vocabularize config L R corpus v = Ok (pairs, v')
    /\ map fst pairs = focus_tokens corpus
    /\ forall w, freq v' w = freq v w + count_in w (focus_tokens corpus).
Proof.
  intros Hcfg. unfold _vocabularize, focus_tokens.
  destruct (for_each_tally (visit_sentence config L R) (map fst) _flatten _flatten
              (_read_documents corpus) v) as (pss & v' & Hrun & Hlabels & Hfreq).
  - intros s v0. by apply (visit_sentence_tally _ _ _ _ _ threshold).
  - exists (concat pss), v'. unfold mbind, M_bind. rewrite Hrun.
    split; [done|]. split; [|done].
    rewrite flat_map_concat_map.
    trans (concat (map (map fst) pss)); [|f_equal; exact Hlabels].
    clear. induction pss as [|ps pss IH]; [done|].
    cbn. by rewrite map_app, IH.
Qed.

Lemma concat_map_nil {A B} (l : list A) :
  concat (map (fun _ => @nil B) l) = [].
Proof. induction l as [|x l IH]; [done|]. by cbn. Qed.

Lemma foldl_const {A B} (a : A) (l : list B) : foldl (fun a _ => a) a l = a.
Proof. induction l as [|x l IH]; [done|]. by cbn. Qed.

Lemma flatten_nil_focuses (s : sentence) (it : item) :
  _flatten s = [] -> it ∈ s -> focuses_of it = [].
Proof.
  unfold _flatten. induction s as [|x s IH]; intros Hs Hin; [by inversion Hin|].
  cbn in Hs. apply app_eq_nil in Hs as [Hx Hs].
  apply elem_of_cons in Hin as [->|Hin]; [by destruct x|by apply IH].
Qed.

(** Without tokens nothing is visited, whatever the configuration. *)
Lemma visit_sentence_no_tokens (config : Config) (L R : Z) (s : sentence)
    (v : Vocab) :
  _flatten s = [] -> visit_sentence config L R s v = Ok ([], v).
Proof.
  intros Hs. unfold visit_sentence, mbind, M_bind.
  rewrite (for_each_within _ (fun _ => []) (fun v _ => v)).
  - unfold mret, M_ret. by rewrite concat_map_nil, foldl_const.
  - intros [i it] v0 Hin.
    unfold enumerate in Hin.
    apply elem_of_lookup_imap in Hin as (k & it' & [= -> ->] & Hk).
    apply list_elem_of_lookup_2 in Hk.
    by rewrite (flatten_nil_focuses s it' Hs Hk).
Qed.

Lemma _vocabularize_no_tokens `{Utils} (config : Config) (L R : Z)
    (corpus : Corpus) (v : Vocab) :
  focus_tokens corpus = [] -> _vocabularize config L R corpus v = Ok ([], v).
Proof.
  intros Hnone. unfold _vocabularize, mbind, M_bind, focus_tokens in *.
  rewrite (for_each_within _ (fun _ => []) (fun v _ => v)).
  - unfold mret, M_ret. by rewrite concat_map_nil, foldl_const.
  - intros s v0 Hin. apply visit_sentence_no_tokens.
    induction (_read_documents corpus) as [|x ss IH]; [by inversion Hin|].
    cbn in Hnone. apply app_eq_nil in Hnone as [Hx Hss].
    apply elem_of_cons in Hin as [->|Hin]; [done|by apply IH].
Qed.

(** ** What the generator yields and what it counts *)

(** X1. With [lower_threshold] stored the generator returns, yielding exactly one
    pair per token of the corpus, in reading order. *)
Theorem vocabularize_one_pair_per_token `{Utils} (config : Config) (L R : Z)
    (corpus : Corpus) (v : Vocab) (threshold : cval) :
  config !! "lower_threshold" = Some threshold ->
  exists pairs v',
    _vocabularize config L R corpus v = Ok (pairs, v')
    /\ map fst pairs = focus_tokens corpus
    /\ length pairs = length (focus_tokens corpus).
Proof.
  intros Hcfg.
  destruct (_vocabularize_tally config L R corpus v threshold Hcfg)
    as (pairs & v' & Hrun & Hfoci & _).
  exists pairs, v'. split; [done|]. split; [done|].
  by rewrite <- Hfoci, length_map.
Qed.

Lemma vocabularize_one_pair_per_token_witness :
  exists pairs v',
    _vocabularize (H := example_utils)
      {["lower_threshold" := VInt 1; "directed" := VBool true]} 2 0
      [Line "a b"; Tokens [Ngram ["c"; "d"]; Word "a"]] ∅ = Ok (pairs, v')
    /\ map fst pairs = ["a"; "b"; "c"; "d"; "a"]
    /\ length pairs = 5%nat.
Proof.
  refine (vocabularize_one_pair_per_token (H := example_utils)
            ({["lower_threshold" := VInt 1; "directed" := VBool true]} : Config)
            2 0 [Line "a b"; Tokens [Ngram ["c"; "d"]; Word "a"]] ∅ (VInt 1) _).
  vm_compute. reflexivity.
Defined.

(** X2. Whatever the options, a traversal that returns has added to the
    frequency of every word the number of its occurrences in the corpus,
    frequencies of words not yet in the vocabulary counting from 0. *)
Theorem vocabularize_counts_tokens `{Utils} (config : Config) (L R : Z)
    (corpus : Corpus) (v : Vocab) (threshold : cval) :
  config !! "lower_threshold" = Some threshold ->
  exists pairs v',
    _vocabularize config L R corpus v = Ok (pairs, v')
    /\ forall w, freq v' w = freq v w + count_in w (focus_tokens corpus).
Proof.
  intros Hcfg.
  destruct (_vocabularize_tally config L R corpus v threshold Hcfg)
    as (pairs & v' & Hrun & _ & Hfreq).
  by exists pairs, v'.
Qed.

Lemma vocabularize_counts_tokens_witness :
  exists pairs v',
    _vocabularize (H := example_utils) {["lower_threshold" := VInt 1]} 1 1
      [Line "a b a"] {["a" := 4]} = Ok (pairs, v')
    /\ forall w, freq v' w = freq {["a" := 4]} w + count_in w ["a"; "b"; "a"].
Proof.
  refine (vocabularize_counts_tokens (H := example_utils)
            ({["lower_threshold" := VInt 1]} : Config) 1 1 [Line "a b a"]
            ({["a" := 4]} : Vocab) (VInt 1) _).
  vm_compute. reflexivity.
Defined.

(** X3. The generator raises exactly when [lower_threshold] was never stored and
    the corpus holds a token, and then it raises [KeyError]. *)
Theorem vocabularize_raises_iff `{Utils} (config : Config) (L R : Z)
    (corpus : Corpus) (v : Vocab) (e : exn) :
  _vocabularize config L R corpus v = Error e
  <-> e = KeyError "lower_threshold"
      /\ config !! "lower_threshold" = None
      /\ focus_tokens corpus <> [].
Proof.
  split.
  - intros Hraise.
    destruct (config !! "lower_threshold") as [threshold|] eqn:Hcfg.
    + destruct (_vocabularize_tally config L R corpus v threshold Hcfg)
        as (pairs & v' & Hrun & _). congruence.
    + destruct (decide (focus_tokens corpus = [])) as [Hnone|Hsome].
      * rewrite _vocabularize_no_tokens in Hraise by done. discriminate.
      * rewrite _vocabularize_KeyError in Hraise by done.
        by injection Hraise as <-.
  - intros (-> & Hcfg & Hsome). by apply _vocabularize_KeyError.
Qed.

Lemma vocabularize_raises_iff_witness :
  _vocabularize (H := example_utils) {["dimensionality" := VInt 4]} 1 1
    [Line "a b"] ∅
  = Error (KeyError "lower_threshold").
Proof.
  apply (vocabularize_raises_iff (H := example_utils)
           ({["dimensionality" := VInt 4]} : Config) 1 1 [Line "a b"] ∅
           (KeyError "lower_threshold")).
  split; [reflexivity|]. split; [by vm_compute|by vm_compute].
Defined.

Lemma exceeds_mono (threshold : cval) (v v' : Vocab) (w : string) :
  freq v w <= freq v' w ->
  exceeds threshold v w = true -> exceeds threshold v' w = true.
Proof.
  unfold exceeds. intros Hle. destruct (to_num threshold) as [t|]; cbn; [|done].
  intros Hlt. apply Z.ltb_lt in Hlt. apply Z.ltb_lt. lia.
Qed.

Lemma freq_le_refl (v : Vocab) : freq_le v v.
Proof. intros w. lia. Qed.

Lemma freq_le_trans (v1 v2 v3 : Vocab) :
  freq_le v1 v2 -> freq_le v2 v3 -> freq_le v1 v3.
Proof. intros H12 H23 w. specialize (H12 w). specialize (H23 w). lia. Qed.

Lemma contexts_exceed_mono (threshold : cval)
    (pairs : list (string * list string)) (v v' : Vocab) :
  contexts_exceed threshold v pairs -> freq_le v v' ->
  contexts_exceed threshold v' pairs.
Proof.
  unfold contexts_exceed. intros Hpairs Hle.
  eapply Forall_impl; [exact Hpairs|]. intros pair Hpair.
  eapply Forall_impl; [exact Hpair|]. intros w. by apply exceeds_mono.
Qed.

Lemma contexts_exceed_concat (threshold : cval) (v : Vocab)
    (pss : list (list (string * list string))) :
  Forall (contexts_exceed threshold v) pss ->
  contexts_exceed threshold v (concat pss).
Proof.
  unfold contexts_exceed. induction 1 as [|ps pss Hps _ IH]; cbn; [constructor|].
  by apply Forall_app.
Qed.

Lemma tagged_plain (config : Config) (cl cr : list string) :
  truthy (config_get config "directed" (VBool false)) = false ->
  truthy (config_get config "ordered" (VBool false)) = false ->
  tagged config cl cr = (cl ++ cr)%list.
Proof. intros Hd Ho. unfold tagged. by rewrite Hd, Ho. Qed.

Lemma visit_focus_exceeds (config : Config) (L R : Z) (s : sentence) (i : nat)
    (focus : string) (v v' : Vocab) (pair : string * list string)
    (threshold : cval) :
  config !! "lower_threshold" = Some threshold ->
  truthy threshold = true ->
  truthy (config_get config "directed" (VBool false)) = false ->
  truthy (config_get config "ordered" (VBool false)) = false ->
  visit_focus config L R s i focus v = Ok (pair, v') ->
  freq_le v v' /\ Forall (fun w => exceeds threshold v' w = true) pair.2.
Proof.
  intros Hcfg Hthr Hd Ho. rewrite (visit_focus_run _ _ _ _ _ _ _ threshold Hcfg).
  intros [= <- <-]. split.
  - intros w. rewrite freq_visited. destruct (decide (focus = w)); lia.
  - cbn [snd]. unfold emitted. rewrite Hthr, tagged_plain by done.
    apply Forall_app. split; apply Forall_forall; intros w Hw;
      apply list_elem_of_filter in Hw as [Hw _];
      (eapply exceeds_mono; [|exact Hw]);
      rewrite freq_visited, freq_bump; lia.
Qed.

(** X4. Under a truthy threshold and without tags, every context token that is
    yielded has, in the vocabulary the traversal ends with, a frequency
    strictly above [lower_threshold]. *)
Theorem vocabularize_contexts_exceed_threshold `{Utils} (config : Config)
    (L R : Z) (corpus : Corpus) (v : Vocab) (threshold : cval) :
  config !! "lower_threshold" = Some threshold ->
  truthy threshold = true ->
  truthy (config_get config "directed" (VBool false)) = false ->
  truthy (config_get config "ordered" (VBool false)) = false ->
  exists pairs v',
    _vocabularize config L R corpus v = Ok (pairs, v')
    /\ contexts_exceed threshold v' pairs.
Proof.
  intros Hcfg Hthr Hd Ho.
  destruct (_vocabularize_tally config L R corpus v threshold Hcfg)
    as (pairs & v' & Hrun & _).
  exists pairs, v'. split; [done|].
  revert Hrun. unfold _vocabularize, mbind, M_bind.
  destruct (for_each _ (_read_documents corpus) v) as [[pss v1]|] eqn:E; [|done].
  intros [= <- <-].
  apply (for_each_ensures _ freq_le (fun ps v => contexts_exceed threshold v ps))
    in E as [_ Hall].
  - by apply contexts_exceed_concat.
  - apply freq_le_refl.
  - apply freq_le_trans.
  - apply contexts_exceed_mono.
  - intros s v2 ps v3. unfold visit_sentence, mbind, M_bind.
    destruct (for_each _ (enumerate s) v2) as [[qss v4]|] eqn:Es; [|done].
    intros [= <- <-].
    apply (for_each_ensures _ freq_le (fun ps v => contexts_exceed threshold v ps))
      in Es as [Hle Hall].
    + split; [done|]. by apply contexts_exceed_concat.
    + apply freq_le_refl.
    + apply freq_le_trans.
    + apply contexts_exceed_mono.
    + intros [i focuses] v5 qs v6.
      apply (for_each_ensures _ freq_le
               (fun p v => Forall (fun w => exceeds threshold v w = true) p.2)).
      * apply freq_le_refl.
      * apply freq_le_trans.
      * intros p va vb Hp Hle. eapply Forall_impl; [exact Hp|].
        intros w. by apply exceeds_mono.
      * intros focus va p vb.
        by apply (visit_focus_exceeds _ _ _ _ _ _ _ _ _ threshold).
Qed.

Lemma vocabularize_contexts_exceed_threshold_witness :
  exists pairs v',
    _vocabularize (H := example_utils) {["lower_threshold" := VInt 1]} 1 1
      [Line "a b a b"] ∅ = Ok (pairs, v')
    /\ contexts_exceed (VInt 1) v' pairs.
Proof.
  refine (vocabularize_contexts_exceed_threshold (H := example_utils)
            ({["lower_threshold" := VInt 1]} : Config) 1 1 [Line "a b a b"] ∅
            (VInt 1) _ _ _ _); vm_compute; reflexivity.
Defined.

(** ** Merging the configuration *)

Lemma merge_options_lookup_from (config : Config)
    (kwargs : list (string * option cval)) (key : string) :
  merge_options config kwargs !! key
  = foldl (fun acc '(k, val) =>
             if decide (k = key)
             then match val with Some x => Some x | None => acc end
             else acc) (config !! key) kwargs.
Proof.
  unfold merge_options. revert config.
  induction kwargs as [|[k val] kwargs IH]; intros config; [done|].
  cbn [foldl]. rewrite IH. f_equal.
  destruct val as [x|]; [|by destruct (decide (k = key))].
  destruct (decide (k = key)) as [->|Hne].
  - by rewrite lookup_insert_eq.
  - by rewrite lookup_insert_ne.
Qed.

Lemma keyword_from (kwargs : list (string * option cval)) (key : string)
    (acc : option cval) :
  foldl (fun acc '(k, val) =>
           if decide (k = key)
           then match val with Some x => Some x | None => acc end
           else acc) acc kwargs
  = match keyword kwargs key with
    | Some x => Some x
    | None => acc
    end.
Proof.
  unfold keyword. revert acc.
  induction kwargs as [|[k val] kwargs IH] using rev_ind; intros acc; [done|].
  rewrite !foldl_app. cbn [foldl].
  destruct (decide (k = key)); [|apply IH].
  destruct val; [done|apply IH].
Qed.

(** A keyword option that is not [None] wins over the configuration mapping;
    every other key keeps the value of the mapping. *)
Lemma merge_options_lookup (config : Config)
    (kwargs : list (string * option cval)) (key : string) :
  merge_options config kwargs !! key
  = match keyword kwargs key with
    | Some x => Some x
    | None => config !! key
    end.
Proof. by rewrite merge_options_lookup_from, keyword_from. Qed.

Lemma keyword_absent_from (kwargs : list (string * option cval)) (key : string)
    (acc : option cval) :
  key ∉ kwargs.*1 ->
  foldl (fun acc '(k, val) =>
           if decide (k = key)
           then match val with Some x => Some x | None => acc end
           else acc) acc kwargs = acc.
Proof.
  revert acc. induction kwargs as [|[k val] kwargs IH]; intros acc Hkey; [done|].
  cbn [foldl]. rewrite decide_False.
  - apply IH. intros Hin. apply Hkey. by right.
  - intros ->. apply Hkey. by left.
Qed.

Lemma keyword_absent (kwargs : list (string * option cval)) (key : string) :
  key ∉ kwargs.*1 -> keyword kwargs key = None.
Proof. apply keyword_absent_from. Qed.

Lemma keyword_unique_from (kwargs : list (string * option cval)) (key : string)
    (val acc : option cval) :
  NoDup kwargs.*1 -> (key, val) ∈ kwargs ->
  foldl (fun acc '(k, val) =>
           if decide (k = key)
           then match val with Some x => Some x | None => acc end
           else acc) acc kwargs
  = match val with Some x => Some x | None => acc end.
Proof.
  revert acc.
  induction kwargs as [|[k v0] kwargs IH]; intros acc Hnodup Hin;
    [by inversion Hin|].
  cbn in Hnodup. apply NoDup_cons in Hnodup as [Hk Hnodup].
  cbn [foldl]. apply elem_of_cons in Hin as [[= <- <-]|Hin].
  - rewrite decide_True by done. by rewrite keyword_absent_from.
  - rewrite decide_False.
    + by apply IH.
    + intros ->. apply Hk. apply list_elem_of_fmap. by exists (key, val).
Qed.

(** When no name is given twice, the keyword value of a name is the value
    given with it. *)
Lemma keyword_unique (kwargs : list (string * option cval)) (key : string)
    (val : option cval) :
  NoDup kwargs.*1 -> (key, val) ∈ kwargs -> keyword kwargs key = val.
Proof.
  intros Hnodup Hin. unfold keyword.
  rewrite (keyword_unique_from _ _ val) by done. by destruct val.
Qed.

Section Keywords.
Context `{Utils} `{Numpy} `{MatrixLib}.

(** X5. Constructing a random-indexing model around a supplied matrix neither
    reads the corpus nor draws: it returns an instance holding that matrix
    and the supplied vocabulary, whose configuration has, for each of the six
    keyword parameters, the keyword's value unless it is [None], and the
    entries of the configuration mapping for everything else. *)
Theorem RandomIndexing_keywords_override (corpus : Corpus) (L R : Z)
    (config : option Config)
    (lower_threshold higher_threshold dimensionality num_indices : option cval)
    (vocab : option Vocab) (m : IndexMatrix) (ordered directed : option cval)
    (kwargs : list (string * kwarg)) (g : rng_state) :
  exists self cfg,
    RandomIndexing___init__ corpus [L; R] config lower_threshold higher_threshold
      dimensionality num_indices vocab (Some m) ordered directed kwargs g
    = Ok (self, g)
    /\ attr_matrix self = Some m
    /\ vocabulary self = default ∅ vocab
    /\ attr_config self = Some cfg
    /\ (forall key val,
          (key, val) ∈ [("lower_threshold", lower_threshold);
                        ("higher_threshold", higher_threshold);
                        ("dimensionality", dimensionality);
                        ("num_indices", num_indices);
                        ("ordered", ordered); ("directed", directed)] ->
          cfg !! key = match val with
                       | Some x => Some x
                       | None => default ∅ config !! key
                       end)
    /\ (forall key, key ∉ RandomIndexing_options ->
                    cfg !! key = default ∅ config !! key).
Proof.
  eexists _, _. split; [reflexivity|]. split; [reflexivity|].
  split; [reflexivity|]. split; [reflexivity|]. split.
  - intros key val Hin. rewrite merge_options_lookup.
    rewrite (keyword_unique _ key val); [done| |done].
    cbn. apply (bool_decide_unpack _). vm_compute. reflexivity.
  - intros key Hkey. rewrite merge_options_lookup.
    by rewrite keyword_absent.
Qed.
End Keywords.

Lemma RandomIndexing_keywords_override_witness :
  exists self cfg,
    RandomIndexing___init__ (H := example_utils) (H0 := example_numpy)
      (H1 := example_matrixlib) [Line "a b"] [1; 1]
      (Some {["dimensionality" := VInt 50; "lower_threshold" := VInt 3]})
      None None (Some (VInt 2000)) (Some (VInt 8)) None (Some (FromDict ∅))
      (Some (VBool false)) (Some (VBool false)) [] 0
    = Ok (self, 0)
    /\ attr_config self = Some cfg
    /\ cfg !! "dimensionality" = Some (VInt 2000)
    /\ cfg !! "lower_threshold" = Some (VInt 3).
Proof.
  destruct (RandomIndexing_keywords_override (H := example_utils)
              (H0 := example_numpy) (H1 := example_matrixlib) [Line "a b"] 1 1
              (Some ({["dimensionality" := VInt 50; "lower_threshold" := VInt 3]}
                     : Config))
              None None (Some (VInt 2000)) (Some (VInt 8)) None (FromDict ∅)
              (Some (VBool false)) (Some (VBool false)) [] 0)
    as (self & cfg & Hrun & _ & _ & Hcfg & Hkeywords & _).
  exists self, cfg. split; [exact Hrun|]. split; [exact Hcfg|]. split.
  - apply (Hkeywords "dimensionality" (Some (VInt 2000))). do 2 right. left.
  - rewrite (Hkeywords "lower_threshold" None) by left. by vm_compute.
Defined.

(** ** More on the threshold filter *)

Lemma pruned_idempotent (config : Config) (items : list (string * Z))
    (row : gmap string Z) :
  pruned config items (pruned config items row) = pruned config items row.
Proof.
  apply map_eq. intros c. rewrite !pruned_lookup.
  by destruct (dropped config items c).
Qed.

Lemma pruned_subseteq (config : Config) (items : list (string * Z))
    (row : gmap string Z) :
  pruned config items row ⊆ row.
Proof.
  apply map_subseteq_spec. intros c x. rewrite pruned_lookup.
  by destruct (dropped config items c).
Qed.

(** X6. Filtering twice with the same vocabulary and thresholds changes nothing
    more. *)
Theorem filter_threshold_words_idempotent (config : Config) (vocabulary : Vocab)
    (colloc_dict : Colloc) :
  _filter_threshold_words config vocabulary
    (_filter_threshold_words config vocabulary colloc_dict)
  = _filter_threshold_words config vocabulary colloc_dict.
Proof.
  apply map_eq. intros k.
  destruct (out_of_bounds_dec config vocabulary k) as [Hout|Hin].
  - by rewrite !filter_lookup_out.
  - rewrite !filter_lookup_in by done.
    destruct (colloc_dict !! k) as [row|]; [|done]. cbn.
    by rewrite pruned_idempotent.
Qed.

Lemma filter_threshold_words_idempotent_witness :
  _filter_threshold_words {["lower_threshold" := VInt 2]} {["a" := 3; "b" := 1]}
    (_filter_threshold_words {["lower_threshold" := VInt 2]} {["a" := 3; "b" := 1]}
       {[ "a" := {[ "a" := 1; "b" := 2 ]}; "b" := {[ "a" := 2 ]} ]})
  = _filter_threshold_words {["lower_threshold" := VInt 2]} {["a" := 3; "b" := 1]}
      {[ "a" := {[ "a" := 1; "b" := 2 ]}; "b" := {[ "a" := 2 ]} ]}.
Proof.
  exact (filter_threshold_words_idempotent
           ({["lower_threshold" := VInt 2]} : Config)
           ({["a" := 3; "b" := 1]} : Vocab)
           ({[ "a" := {[ "a" := 1; "b" := 2 ]}; "b" := {[ "a" := 2 ]} ]} : Colloc)).
Defined.

(** X7. The filter only removes: what is left of a row is part of the row it
    came from. A row that stays although all its entries go is left empty,
    not removed. *)
Theorem filter_threshold_words_only_removes (config : Config)
    (vocabulary : Vocab) (colloc_dict : Colloc) :
  (forall key row',
     _filter_threshold_words config vocabulary colloc_dict !! key = Some row' ->
     exists row, colloc_dict !! key = Some row /\ row' ⊆ row)
  /\ (forall key row,
        colloc_dict !! key = Some row ->
        ~ out_of_bounds config vocabulary key ->
        (forall word, is_Some (row !! word) ->
                      out_of_bounds config vocabulary word) ->
        _filter_threshold_words config vocabulary colloc_dict !! key = Some ∅).
Proof.
  split.
  - intros key row' Hrow'.
    destruct (out_of_bounds_dec config vocabulary key) as [Hout|Hin].
    + by rewrite filter_lookup_out in Hrow'.
    + rewrite filter_lookup_in in Hrow' by done.
      destruct (colloc_dict !! key) as [row|]; [|done].
      injection Hrow' as <-. exists row. split; [done|]. apply pruned_subseteq.
  - intros key row Hrow Hkey Hall.
    rewrite filter_lookup_in, Hrow by done. cbn. f_equal.
    apply map_eq. intros c. rewrite pruned_lookup, lookup_empty.
    destruct (dropped config (map_to_list vocabulary) c) eqn:Hc; [done|].
    destruct (row !! c) as [x|] eqn:Hx; [|done].
    exfalso. assert (out_of_bounds config vocabulary c) as Hout
      by (apply Hall; by eexists).
    apply dropped_out_of_bounds in Hout. congruence.
Qed.

Lemma filter_threshold_words_only_removes_witness :
  _filter_threshold_words {["lower_threshold" := VInt 2]}
    {["a" := 3; "b" := 1]} {[ "a" := {[ "b" := 1 ]} ]} !! "a"
  = Some ∅.
Proof.
  apply (proj2 (filter_threshold_words_only_removes
                  ({["lower_threshold" := VInt 2]} : Config)
                  ({["a" := 3; "b" := 1]} : Vocab)
                  ({[ "a" := {[ "b" := 1 ]} ]} : Colloc)) "a" {[ "b" := 1 ]}).
  - by vm_compute.
  - intros (f & Hf & Hw). vm_compute in Hf. injection Hf as <-.
    vm_compute in Hw. discriminate.
  - intros word [x Hx]. destruct (decide (word = "b")) as [->|Hne].
    + exists 1. split; by vm_compute.
    + by rewrite lookup_singleton_ne in Hx.
Defined.

(** X8. When every recorded frequency is within the thresholds, the filter
    returns the mapping as it is. *)
Theorem filter_threshold_words_unchanged (config : Config) (vocabulary : Vocab)
    (colloc_dict : Colloc) :
  (forall word freq, vocabulary !! word = Some freq ->
                     within_thresholds config freq = true) ->
  _filter_threshold_words config vocabulary colloc_dict = colloc_dict.
Proof.
  intros Hall.
  assert (forall w, ~ out_of_bounds config vocabulary w) as Hnone.
  { intros w (f & Hf & Hout). rewrite (Hall w f Hf) in Hout. discriminate. }
  apply map_eq. intros k. rewrite filter_lookup_in by done.
  destruct (colloc_dict !! k) as [row|]; [|done]. cbn. f_equal.
  apply map_eq. intros c. rewrite pruned_lookup.
  destruct (dropped config (map_to_list vocabulary) c) eqn:Hc; [|done].
  apply dropped_out_of_bounds in Hc. by apply Hnone in Hc.
Qed.

Lemma filter_threshold_words_unchanged_witness :
  _filter_threshold_words {["higher_threshold" := VInt 5]} {["a" := 3; "b" := 5]}
    {[ "a" := {[ "b" := 2 ]}; "b" := {[ "a" := 2 ]} ]}
  = {[ "a" := {[ "b" := 2 ]}; "b" := {[ "a" := 2 ]} ]}.
Proof.
  apply (filter_threshold_words_unchanged
           ({["higher_threshold" := VInt 5]} : Config)
           ({["a" := 3; "b" := 5]} : Vocab)).
  intros word freq Hfreq.
  destruct (decide (word = "a")) as [->|Ha].
  - vm_compute in Hfreq. injection Hfreq as <-. reflexivity.
  - rewrite lookup_insert_ne in Hfreq by done.
    destruct (decide (word = "b")) as [->|Hb].
    + vm_compute in Hfreq. injection Hfreq as <-. reflexivity.
    + by rewrite lookup_singleton_ne in Hfreq.
Defined.

(** ** The shape of what the random-indexing accumulation returns *)

Lemma rows_set_keys (colfreqs : Rows) (focus : string) (row : list Z) :
  (rows_set colfreqs focus row).*1 = seen colfreqs.*1 focus.
Proof.
  unfold seen. induction colfreqs as [|[w r] colfreqs IH]; cbn.
  - rewrite decide_False; [done|]. apply not_elem_of_nil.
  - destruct (decide (w = focus)) as [->|Hne]; cbn.
    + rewrite decide_True; [done|]. left.
    + rewrite IH. destruct (decide (focus ∈ colfreqs.*1)) as [Hin|Hout].
      * rewrite decide_True; [done|]. by right.
      * rewrite decide_False; [done|].
        intros [Heq|Hin]%elem_of_cons; [congruence|done].
Qed.

Lemma rows_set_values (P : list Z -> Prop) (colfreqs : Rows) (focus : string)
    (row : list Z) :
  Forall P colfreqs.*2 -> P row -> Forall P (rows_set colfreqs focus row).*2.
Proof.
  intros Hall Hrow. induction colfreqs as [|[w r] colfreqs IH]; cbn.
  - by constructor.
  - cbn in Hall. apply Forall_cons in Hall as [Hr Hall].
    destruct (decide (w = focus)); cbn; constructor; auto.
Qed.

Lemma rows_get_values (P : list Z -> Prop) (colfreqs : Rows) (focus : string)
    (row : list Z) :
  Forall P colfreqs.*2 -> rows_get colfreqs focus = Some row -> P row.
Proof.
  intros Hall Hget. apply rows_get_position in Hget as (k & _ & Hk).
  by apply (Forall_lookup_1 _ _ _ _ Hall Hk).
Qed.

Lemma seen_elem (keys : list string) (focus x : string) :
  x ∈ seen keys focus <-> x ∈ keys \/ x = focus.
Proof.
  unfold seen. destruct (decide (focus ∈ keys)) as [Hin|Hout].
  - split; [by left|]. intros [?| ->]; done.
  - rewrite elem_of_app, list_elem_of_singleton. tauto.
Qed.

Lemma seen_NoDup (keys : list string) (focus : string) :
  NoDup keys -> NoDup (seen keys focus).
Proof.
  intros Hnd. unfold seen. destruct (decide (focus ∈ keys)) as [Hin|Hout]; [done|].
  apply NoDup_app. split; [done|]. split; [|apply NoDup_singleton].
  intros x Hx ->%list_elem_of_singleton. done.
Qed.

Lemma foldl_seen_elem (focuses keys : list string) (x : string) :
  x ∈ foldl seen keys focuses <-> x ∈ keys \/ x ∈ focuses.
Proof.
  revert keys. induction focuses as [|f focuses IH]; intros keys; cbn.
  - split; [by left|]. intros [?|Hx]; [done|inversion Hx].
  - rewrite IH, seen_elem, elem_of_cons. tauto.
Qed.

Lemma foldl_seen_NoDup (focuses keys : list string) :
  NoDup keys -> NoDup (foldl seen keys focuses).
Proof.
  revert keys. induction focuses as [|f focuses IH]; intros keys Hnd; cbn; [done|].
  by apply IH, seen_NoDup.
Qed.

Lemma add_at1_length (v : Z) (a a' : list Z) (j : Z) :
  add_at1 v a j = Ok a' -> length a' = length a.
Proof.
  unfold add_at1.
  destruct (_ && _); [intros [= <-]; apply length_alter|].
  destruct (_ && _); [intros [= <-]; apply length_alter|done].
Qed.

Lemma np_add_at_length (a a' indices : list Z) (v : Z) :
  np_add_at a indices v = Ok a' -> length a' = length a.
Proof.
  revert a. induction indices as [|j indices IH]; intros a; cbn.
  - by intros [= <-].
  - destruct (add_at1 v a j) as [a1|] eqn:Hstep; [|done].
    intros Hrest. rewrite (IH _ Hrest). by apply add_at1_length in Hstep.
Qed.

Section Shape.
Context `{Utils} `{Numpy}.

Lemma accumulate_pair_shape (config : Config) (indices : list Z) (d : Z)
    (colfreqs colfreqs' : Rows) (cache cache' : Cache) (focus : string)
    (contexts : list string) (g g' : rng_state) :
  (forall dv, config !! "dimensionality" = Some dv -> index_of dv = Some d) ->
  Forall (fun row => length row = Z.to_nat d) colfreqs.*2 ->
  accumulate_pair config indices (colfreqs, cache) (focus, contexts) g
  = Ok ((colfreqs', cache'), g') ->
  colfreqs'.*1 = seen colfreqs.*1 focus
  /\ Forall (fun row => length row = Z.to_nat d) colfreqs'.*2.
Proof.
  intros Hdim Hrows Hrun.
  apply accumulate_pair_inv in Hrun
    as (row0 & poss & negs & row1 & row' & Hrow0 & _ & Hpos & Hneg & ->).
  split; [apply rows_set_keys|].
  apply rows_set_values; [done|].
  assert (length row0 = Z.to_nat d) as Hlen0.
  { destruct Hrow0 as [Hsome|(_ & dv & z & Hdv & Hz & _ & ->)].
    - by apply (rows_get_values _ _ _ _ Hrows Hsome).
    - rewrite (Hdim _ Hdv) in Hz. injection Hz as <-. apply length_replicate. }
  assert (length row1 = length row0) as Hlen1.
  { destruct (bool_decide (poss = [])); [by subst|by apply np_add_at_length in Hpos]. }
  assert (length row' = length row1) as Hlen'.
  { destruct (bool_decide (negs = [])); [by subst|by apply np_add_at_length in Hneg]. }
  congruence.
Qed.

Lemma fold_accumulate_shape (config : Config) (indices : list Z) (d : Z)
    (pairs : list (string * list string))
    (colfreqs colfreqs' : Rows) (cache cache' : Cache) (g g' : rng_state) :
  (forall dv, config !! "dimensionality" = Some dv -> index_of dv = Some d) ->
  Forall (fun row => length row = Z.to_nat d) colfreqs.*2 ->
  fold_each (accumulate_pair config indices) (colfreqs, cache) pairs g
  = Ok ((colfreqs', cache'), g') ->
  colfreqs'.*1 = foldl seen colfreqs.*1 pairs.*1
  /\ Forall (fun row => length row = Z.to_nat d) colfreqs'.*2.
Proof.
  intros Hdim. revert colfreqs cache g.
  induction pairs as [|[f contexts] pairs IH]; intros colfreqs cache g Hrows.
  - cbn. by intros [= <- <- <-].
  - cbn [fold_each]. unfold mbind, M_bind.
    destruct (accumulate_pair config indices (colfreqs, cache) (f, contexts) g)
      as [[[colfreqs1 cache1] g1]|] eqn:Hstep; [|done].
    intros Hrest.
    destruct (accumulate_pair_shape _ _ _ _ _ _ _ _ _ _ _ Hdim Hrows Hstep)
      as [Hkeys Hrows1].
    destruct (IH _ _ _ Hrows1 Hrest) as [Hkeys' Hrows'].
    split; [|done]. rewrite Hkeys', Hkeys. done.
Qed.

(** X9. Whatever the accumulation step of random indexing returns is a triple:
    one row for every distinct focus token, in the order in which the focus
    tokens first appear; every row has as many cells as the configured
    dimensionality; the column labels are [0 .. dimensionality-1]. The
    generator has yielded at least one pair. *)
Theorem RandomIndexing_build_shape (config : Config) (text : Text) (v v' : Vocab)
    (g g' : rng_state) (b : built) :
  RandomIndexing_build config text (v, g) = Ok (b, (v', g')) ->
  exists pairs dv d values,
    text v = Ok (pairs, v')
    /\ pairs <> []
    /\ config !! "dimensionality" = Some dv
    /\ index_of dv = Some d
    /\ 0 <= d
    /\ b = AsTuple values (first_seen pairs.*1) (Z.of_nat <$> seq 0 (Z.to_nat d))
    /\ NoDup (first_seen pairs.*1)
    /\ (forall focus, focus ∈ first_seen pairs.*1 <-> focus ∈ pairs.*1)
    /\ length values = length (first_seen pairs.*1)
    /\ Forall (fun row => length row = Z.to_nat d) values.
Proof.
  intros Hrun. rewrite RandomIndexing_build_run in Hrun.
  destruct (config !! "dimensionality") as [dv|] eqn:Hdv; [|done].
  destruct (np_arange dv tt) as [[indices []]|] eqn:Harange; [|done].
  apply np_arange_inv in Harange as (_ & d & Hd & ->).
  destruct (text v) as [[pairs v1]|] eqn:Htext; [|done].
  destruct (fold_each _ _ pairs g) as [[[colfreqs cache] g1]|] eqn:Hfold; [|done].
  assert (forall dv', config !! "dimensionality" = Some dv' ->
                      index_of dv' = Some d) as Hdim.
  { intros dv' Hdv'. rewrite Hdv in Hdv'. by injection Hdv' as <-. }
  destruct (fold_accumulate_shape _ _ _ _ [] _ _ _ _ _ Hdim (Forall_nil_2 _) Hfold)
    as [Hkeys Hrows].
  destruct colfreqs as [|[w r] colfreqs]; [done|].
  injection Hrun as <- <- <-.
  assert (pairs <> []) as Hne.
  { intros ->. cbn in Hfold. by injection Hfold. }
  assert (0 <= d) as Hpos.
  { destruct pairs as [|[f contexts] pairs]; [done|].
    cbn [fold_each] in Hfold. unfold mbind, M_bind in Hfold.
    destruct (accumulate_pair _ _ _ (f, contexts) g)
      as [[[colfreqs1 cache1] g2]|] eqn:Hstep; [|done].
    apply accumulate_pair_inv in Hstep
      as (row0 & _ & _ & _ & _ & [Hsome|(_ & dv' & z & Hdv' & Hz & Hz0 & _)] & _);
      [done|].
    rewrite (Hdim _ Hdv') in Hz. by injection Hz as <-. }
  exists pairs, dv, d, ((w, r) :: colfreqs).*2.
  split_and!; try done.
  - f_equal. exact Hkeys.
  - apply foldl_seen_NoDup. constructor.
  - intros focus. unfold first_seen. rewrite foldl_seen_elem.
    split; [intros [Hx|?]; [inversion Hx|done]|by right].
  - change (first_seen pairs.*1) with (foldl seen ([] : Rows).*1 pairs.*1).
    rewrite <- Hkeys. by rewrite !length_fmap.
Qed.

End Shape.

Lemma RandomIndexing_build_shape_witness :
  exists values g',
    RandomIndexing_build (H := example_utils) (H0 := example_numpy)
      {["dimensionality" := VInt 4; "num_indices" := VInt 2]}
      (mret [("b", ["a"]); ("a", ["b"]); ("b", [])]) (∅, 0)
    = Ok (AsTuple values ["b"; "a"] [0; 1; 2; 3], (∅, g'))
    /\ Forall (fun row => length row = 4%nat) values.
Proof.
  destruct (RandomIndexing_build (H := example_utils) (H0 := example_numpy)
              {["dimensionality" := VInt 4; "num_indices" := VInt 2]}
              (mret [("b", ["a"]); ("a", ["b"]); ("b", [])]) (∅, 0))
    as [[b [v' g']]|] eqn:Hbuild; try (vm_compute in Hbuild; discriminate).
  destruct (RandomIndexing_build_shape (H := example_utils) (H0 := example_numpy)
              _ _ _ _ _ _ _ Hbuild)
    as (pairs & dv & d & values & Htext & _ & Hdv & Hd & _ & -> & _ & _ & _ & Hrows).
  injection Htext as <- <-.
  vm_compute in Hdv. injection Hdv as <-. injection Hd as <-.
  by exists values, g'.
Defined.

(** ** Random indexing as a projection *)

Section Projection.
Context `{Utils} `{Numpy}.

Lemma projection_nil (d : nat) (n : Z) (k : nat) : projection d n [] k = 0.
Proof. reflexivity. Qed.

Lemma projection_app (d : nat) (n : Z) (cs1 cs2 : list string) (k : nat) :
  projection d n (cs1 ++ cs2) k = projection d n cs1 k + projection d n cs2 k.
Proof. unfold projection. by rewrite map_app, zsum_app. Qed.

Lemma projection_halves (d : nat) (n : Z) (contexts : list string) (k : nat) :
  hits (Z.of_nat k) (concat (map positive_half (map (seeded_vector d n) contexts)))
  - hits (Z.of_nat k) (concat (map negative_half (map (seeded_vector d n) contexts)))
  = projection d n contexts k.
Proof.
  unfold projection. induction contexts as [|c contexts IH]; [done|].
  cbn [map concat]. rewrite !hits_app. unfold zsum in *. cbn [foldr]. lia.
Qed.

Lemma cache_seeded_insert (d : nat) (n : Z) (cache : Cache) (context : string) :
  cache_seeded d n cache ->
  cache_seeded d n (<[context := seeded_vector d n context]> cache).
Proof.
  intros Hcache c v. destruct (decide (context = c)) as [->|Hne].
  - rewrite lookup_insert_eq. by intros [= <-].
  - rewrite lookup_insert_ne by done. apply Hcache.
Qed.

Lemma arange_nonempty (d : nat) : (0 < d)%nat -> Z.of_nat <$> seq 0 d <> [].
Proof. destruct d; [lia|done]. Qed.

Lemma index_vector_run (config : Config) (d : nat) (n : Z) (cache : Cache)
    (context : string) (g : rng_state) :
  config !! "num_indices" = Some (VInt n) ->
  0 <= n -> (0 < d)%nat ->
  cache_seeded d n cache ->
  exists g',
    index_vector config (Z.of_nat <$> seq 0 d) cache context g
    = Ok ((seeded_vector d n context,
           <[context := seeded_vector d n context]> cache), g').
Proof.
  intros Hn Hn0 Hd0 Hcache. unfold index_vector.
  destruct (cache !! context) as [v|] eqn:Hc.
  - exists g. rewrite (Hcache _ _ Hc) in Hc |- *. by rewrite insert_id.
  - unfold mbind at 1, M_bind at 1. unfold config_getitem. rewrite Hn.
    unfold mbind at 1, M_bind at 1. unfold mret at 1, M_ret at 1.
    unfold mbind, M_bind. unfold choice, as_index.
    unfold mbind, M_bind. unfold mret at 1, M_ret at 1.
    destruct (Z.ltb_spec n 0); [lia|].
    rewrite bool_decide_eq_false_2 by by apply arange_nonempty.
    cbn [andb]. unfold seeded_vector.
    destruct (np_random_choice _ _ _) as [v g1]. by exists g1.
Qed.

Lemma collect_run (config : Config) (d : nat) (n : Z) (contexts : list string)
    (poss0 negs0 : list (list Z)) (cache : Cache) (g : rng_state) :
  config !! "num_indices" = Some (VInt n) ->
  0 <= n -> (0 < d)%nat ->
  cache_seeded d n cache ->
  exists cache' g',
    fold_each (collect_indices config (Z.of_nat <$> seq 0 d))
      (poss0, negs0, cache) contexts g
    = Ok ((poss0 ++ map positive_half (map (seeded_vector d n) contexts),
           negs0 ++ map negative_half (map (seeded_vector d n) contexts),
           cache')%list, g')
    /\ cache_seeded d n cache'.
Proof.
  intros Hn Hn0 Hd0. revert poss0 negs0 cache g.
  induction contexts as [|c contexts IH]; intros poss0 negs0 cache g Hcache.
  - exists cache, g. cbn. by rewrite !app_nil_r.
  - cbn [fold_each]. unfold mbind at 1, M_bind at 1.
    unfold collect_indices at 1. unfold mbind at 1, M_bind at 1.
    destruct (index_vector_run config d n cache c g Hn Hn0 Hd0 Hcache) as [g1 ->].
    unfold mret at 1, M_ret at 1.
    destruct (IH (poss0 ++ [positive_half (seeded_vector d n c)])%list
                 (negs0 ++ [negative_half (seeded_vector d n c)])%list
                 _ g1 (cache_seeded_insert d n cache c Hcache))
      as (cache' & g' & -> & Hcache').
    exists cache', g'. cbn [map]. by rewrite <- !app_assoc.
Qed.

Lemma seeded_vector_ok `{!NumpyLaws} (d : nat) (n : Z) (context : string) :
  0 <= n -> (0 < d)%nat ->
  Z.of_nat (length (seeded_vector d n context)) = n
  /\ in_range d (seeded_vector d n context).
Proof.
  intros Hn0 Hd0. unfold seeded_vector. split.
  - rewrite choice_length. lia.
  - apply Forall_forall. intros j Hj. apply arange_elem.
    eapply choice_elem; [by apply arange_nonempty|exact Hj].
Qed.

(** One iteration of the loop over the pairs, run forward. *)
Lemma accumulate_pair_run `{!NumpyLaws} (config : Config) (d : nat) (n : Z)
    (colfreqs : Rows) (cache : Cache) (focus : string) (contexts : list string)
    (g : rng_state) :
  config !! "dimensionality" = Some (VInt (Z.of_nat d)) ->
  config !! "num_indices" = Some (VInt n) ->
  0 <= n -> (0 < d)%nat ->
  cache_seeded d n cache ->
  Forall (fun row => length row = d) colfreqs.*2 ->
  exists row' cache' g',
    accumulate_pair config (Z.of_nat <$> seq 0 d) (colfreqs, cache)
      (focus, contexts) g
    = Ok ((rows_set colfreqs focus row', cache'), g')
    /\ cache_seeded d n cache'
    /\ length row' = d
    /\ forall k, row' !! k
                 = (fun x => x + projection d n contexts k)
                   <$> row_before colfreqs focus d !! k.
Proof.
  intros Hd Hn Hn0 Hd0 Hcache Hrows.
  destruct (collect_run config d n contexts [] [] cache g Hn Hn0 Hd0 Hcache)
    as (cache' & g' & Hfold & Hcache').
  cbn [app] in Hfold.
  set (row0 := row_before colfreqs focus d).
  assert (length row0 = d) as Hlen0.
  { unfold row0, row_before. destruct (rows_get colfreqs focus) as [row|] eqn:Hget.
    - by apply (rows_get_values _ _ _ _ Hrows Hget).
    - apply length_replicate. }
  assert (Forall (in_range (length row0)) (map (seeded_vector d n) contexts)) as Hvs.
  { rewrite Hlen0. apply Forall_map, Forall_forall. intros c _.
    by apply seeded_vector_ok. }
  destruct (occurrences_update_cells row0 _ Hvs) as (row' & Hupd & Hlen' & Hcells).
  pose proof (batch_update_occurrences row0 _ Hvs) as Hbatch.
  rewrite Hupd in Hbatch.
  assert (exists colfreqs0,
            (forall row, rows_set colfreqs0 focus row = rows_set colfreqs focus row)
            /\ match rows_get colfreqs focus with
               | Some row => mret (colfreqs, row)
               | None =>
                   dimensionality ← config_getitem config "dimensionality";
                   zeros ← np_zeros dimensionality;
                   mret (rows_set colfreqs focus zeros, zeros)
               end g = Ok ((colfreqs0, row0), g)) as (colfreqs0 & Hset & Hfirst).
  { unfold row0, row_before. destruct (rows_get colfreqs focus) as [row|] eqn:Hget.
    - by exists colfreqs.
    - unfold config_getitem. rewrite Hd. unfold np_zeros, as_index.
      unfold mbind, M_bind, mret, M_ret.
      destruct (Z.ltb_spec (Z.of_nat d) 0); [lia|]. rewrite Nat2Z.id.
      eexists. split; [|reflexivity]. intros row. apply rows_set_set. }
  exists row', cache', g'. split; [|split; [done|split; [congruence|]]].
  - unfold accumulate_pair. unfold mbind at 1, M_bind at 1.
    rewrite Hfirst. cbn beta iota.
    unfold mbind at 1, M_bind at 1. rewrite Hfold. cbn beta iota.
    unfold mbind at 1, M_bind at 1.
    destruct contexts as [|c contexts].
    + cbn in Hbatch. injection Hbatch as <-. cbn [map].
      rewrite !bool_decide_eq_true_2 by done.
      unfold mbind, M_bind, mret, M_ret. by rewrite Hset.
    + cbn [map] in *. rewrite !bool_decide_eq_false_2 by done.
      destruct (np_add_at row0 _ 1) as [row1|] eqn:Hpos; [|done].
      unfold lift at 1. unfold mbind at 1, M_bind at 1.
      unfold lift. rewrite Hbatch. unfold mret, M_ret. by rewrite Hset.
  - intros k. rewrite Hcells. fold row0.
    destruct (row0 !! k); [|done]. cbn. by rewrite projection_halves.
Qed.

Lemma contexts_of_cons (f focus : string) (contexts : list string)
    (pairs : list (string * list string)) :
  contexts_of ((f, contexts) :: pairs) focus
  = ((if decide (f = focus) then contexts else []) ++ contexts_of pairs focus)%list.
Proof. reflexivity. Qed.

Lemma row_before_set (colfreqs : Rows) (f focus : string) (row : list Z) (d : nat) :
  row_before (rows_set colfreqs f row) focus d
  = if decide (f = focus) then row else row_before colfreqs focus d.
Proof.
  unfold row_before. destruct (decide (f = focus)) as [->|Hne].
  - by rewrite rows_get_set_eq.
  - by rewrite rows_get_set_ne.
Qed.

(** The whole loop over the pairs, run forward. *)
Lemma fold_accumulate_run `{!NumpyLaws} (config : Config) (d : nat) (n : Z)
    (pairs : list (string * list string)) (colfreqs : Rows) (cache : Cache)
    (g : rng_state) :
  config !! "dimensionality" = Some (VInt (Z.of_nat d)) ->
  config !! "num_indices" = Some (VInt n) ->
  0 <= n -> (0 < d)%nat ->
  cache_seeded d n cache ->
  Forall (fun row => length row = d) colfreqs.*2 ->
  exists colfreqs' cache' g',
    fold_each (accumulate_pair config (Z.of_nat <$> seq 0 d)) (colfreqs, cache)
      pairs g
    = Ok ((colfreqs', cache'), g')
    /\ forall focus k,
         row_before colfreqs' focus d !! k
         = (fun x => x + projection d n (contexts_of pairs focus) k)
           <$> row_before colfreqs focus d !! k.
Proof.
  intros Hd Hn Hn0 Hd0. revert colfreqs cache g.
  induction pairs as [|[f contexts] pairs IH]; intros colfreqs cache g Hcache Hrows.
  - exists colfreqs, cache, g. split; [done|]. intros focus k. cbn.
    destruct (row_before colfreqs focus d !! k); cbn; [f_equal; lia|done].
  - destruct (accumulate_pair_run config d n colfreqs cache f contexts g
                Hd Hn Hn0 Hd0 Hcache Hrows)
      as (row' & cache1 & g1 & Hstep & Hcache1 & Hlen' & Hcells).
    destruct (IH (rows_set colfreqs f row') cache1 g1 Hcache1)
      as (colfreqs' & cache' & g' & Hrest & Hall).
    { by apply rows_set_values. }
    exists colfreqs', cache', g'. split.
    + cbn [fold_each]. unfold mbind, M_bind. by rewrite Hstep.
    + intros focus k. rewrite Hall, row_before_set, contexts_of_cons, projection_app.
      destruct (decide (f = focus)) as [->|Hne].
      * rewrite Hcells. destruct (row_before colfreqs focus d !! k); cbn; [f_equal; lia|done].
      * rewrite projection_nil.
        destruct (row_before colfreqs focus d !! k); cbn; [f_equal; lia|done].
Qed.

Lemma rows_get_key (colfreqs : Rows) (focus : string) :
  focus ∈ colfreqs.*1 -> is_Some (rows_get colfreqs focus).
Proof.
  induction colfreqs as [|[w r] colfreqs IH]; [by inversion 1|].
  cbn. intros Hkey. destruct (decide (w = focus)); [by eexists|].
  apply IH. apply elem_of_cons in Hkey as [?|?]; [congruence|done].
Qed.

Lemma rows_get_lookup (colfreqs : Rows) (focus : string) (row : list Z) (i : nat) :
  NoDup colfreqs.*1 ->
  colfreqs.*1 !! i = Some focus -> colfreqs.*2 !! i = Some row ->
  rows_get colfreqs focus = Some row.
Proof.
  intros Hnodup Hkey Hrow.
  destruct (rows_get_key colfreqs focus) as [row' Hget];
    [by apply list_elem_of_lookup_2 in Hkey|].
  destruct (rows_get_position _ _ _ Hget) as (i' & Hkey' & Hrow').
  assert (i = i') as <- by (by apply (NoDup_lookup _ _ _ _ Hnodup Hkey Hkey')).
  congruence.
Qed.

(** The accumulation step run forward, in terms of the dictionary of
    accumulators it ends with. *)
Lemma RandomIndexing_build_rows `{!NumpyLaws} (config : Config)
    (text : Text) (d : nat) (n : Z) (v v' : Vocab)
    (pairs : list (string * list string)) (g : rng_state) :
  config !! "dimensionality" = Some (VInt (Z.of_nat d)) ->
  config !! "num_indices" = Some (VInt n) ->
  0 <= n -> (0 < d)%nat ->
  text v = Ok (pairs, v') ->
  pairs <> [] ->
  exists colfreqs g',
    RandomIndexing_build config text (v, g)
    = Ok (AsTuple colfreqs.*2 colfreqs.*1 (Z.of_nat <$> seq 0 d), (v', g'))
    /\ colfreqs.*1 = first_seen pairs.*1
    /\ Forall (fun row => length row = d) colfreqs.*2
    /\ forall focus row k,
         rows_get colfreqs focus = Some row -> (k < d)%nat ->
         row !! k = Some (projection d n (contexts_of pairs focus) k).
Proof.
  intros Hd Hn Hn0 Hd0 Htext Hne.
  destruct (fold_accumulate_run config d n pairs [] ∅ g Hd Hn Hn0 Hd0)
    as (colfreqs & cache & g' & Hfold & Hcells); [done|constructor|].
  assert (forall dv, config !! "dimensionality" = Some dv ->
                     index_of dv = Some (Z.of_nat d)) as Hdim.
  { intros dv Hdv. rewrite Hd in Hdv. by injection Hdv as <-. }
  destruct (fold_accumulate_shape _ _ _ _ [] _ _ _ _ _ Hdim (Forall_nil_2 _) Hfold)
    as [Hkeys Hrows].
  rewrite Nat2Z.id in Hrows.
  assert (colfreqs <> []) as Hrows_ne.
  { intros ->. destruct pairs as [|[f contexts] pairs]; [done|].
    cbn in Hkeys. symmetry in Hkeys.
    assert (f ∈ foldl seen (seen [] f) pairs.*1) as Hin
      by (apply foldl_seen_elem; left; apply seen_elem; by right).
    rewrite Hkeys in Hin. inversion Hin. }
  exists colfreqs, g'. split_and!; [|exact Hkeys|exact Hrows|].
  - rewrite RandomIndexing_build_run, Hd. cbn [np_arange as_index].
    unfold mbind, M_bind, mret, M_ret. rewrite Nat2Z.id, Htext, Hfold.
    by destruct colfreqs.
  - intros focus row k Hrow Hk. specialize (Hcells focus k).
    unfold row_before in Hcells. rewrite Hrow in Hcells. cbn in Hcells.
    by rewrite Hcells, lookup_replicate_2.
Qed.

(** X10. With a positive dimensionality [d] and a number [n >= 0] of indices, and
    a generator that has yielded at least one pair, the accumulation step of
    random indexing returns, and the row of each focus token is the sum of
    the index vectors of its context occurrences: cell [k] holds, summed
    over every occurrence of a context with that focus, the number of times
    [k] is drawn in the positive half of the context's index vector minus
    the number of times it is drawn in the negative half, the index vector
    of a context being the [n] draws of the generator seeded with the
    context's hash. *)
Theorem RandomIndexing_build_projection `{!NumpyLaws} (config : Config)
    (text : Text) (d : nat) (n : Z) (v v' : Vocab)
    (pairs : list (string * list string)) (g : rng_state) :
  config !! "dimensionality" = Some (VInt (Z.of_nat d)) ->
  config !! "num_indices" = Some (VInt n) ->
  0 <= n -> (0 < d)%nat ->
  text v = Ok (pairs, v') ->
  pairs <> [] ->
  exists values g',
    RandomIndexing_build config text (v, g)
    = Ok (AsTuple values (first_seen pairs.*1) (Z.of_nat <$> seq 0 d), (v', g'))
    /\ forall focus, focus ∈ pairs.*1 ->
         exists i row,
           first_seen pairs.*1 !! i = Some focus
           /\ values !! i = Some row
           /\ length row = d
           /\ forall k, (k < d)%nat ->
                row !! k = Some (projection d n (contexts_of pairs focus) k).
Proof.
  intros Hd Hn Hn0 Hd0 Htext Hne.
  destruct (RandomIndexing_build_rows config text d n v v' pairs g
              Hd Hn Hn0 Hd0 Htext Hne)
    as (colfreqs & g' & Hbuild & Hkeys & Hrows & Hcells).
  exists colfreqs.*2, g'. split; [by rewrite <- Hkeys|].
  intros focus Hfocus.
  destruct (rows_get_key colfreqs focus) as [row Hrow].
  { rewrite Hkeys. apply foldl_seen_elem. by right. }
  destruct (rows_get_position _ _ _ Hrow) as (i & Hi & Hval).
  exists i, row. rewrite <- Hkeys. split; [done|]. split; [done|].
  split; [by apply (rows_get_values _ _ _ _ Hrows Hrow)|].
  intros k Hk. by apply (Hcells focus).
Qed.
End Projection.

Lemma RandomIndexing_build_projection_witness :
  let config : Config := {["dimensionality" := VInt 4; "num_indices" := VInt 3]} in
  let pairs := [("b", ["a"]); ("a", ["b"; "b"])] in
  exists values g',
    RandomIndexing_build (H := example_utils) (H0 := example_numpy) config
      (mret pairs) (∅, 0)
    = Ok (AsTuple values (first_seen pairs.*1) (Z.of_nat <$> seq 0 4), (∅, g'))
    /\ forall focus, focus ∈ pairs.*1 ->
         exists i row,
           first_seen pairs.*1 !! i = Some focus
           /\ values !! i = Some row
           /\ length row = 4%nat
           /\ forall k, (k < 4)%nat ->
                row !! k
                = Some (projection (H := example_utils) (H0 := example_numpy)
                          4 3 (contexts_of pairs focus) k).
Proof.
  intros config pairs.
  assert (config !! "dimensionality" = Some (VInt (Z.of_nat 4))) as Hd
    by (vm_compute; reflexivity).
  assert (config !! "num_indices" = Some (VInt 3)) as Hn
    by (vm_compute; reflexivity).
  apply (RandomIndexing_build_projection (H := example_utils) (H0 := example_numpy)
           (H1 := example_numpy_laws) config (mret pairs) 4 3 ∅ ∅ pairs 0
           Hd Hn); [lia|lia|reflexivity|done].
Defined.

(** ** Row sums *)

Lemma zsum_map_zsum {A B} (f : A -> B -> Z) (xs : list A) (ys : list B) :
  zsum (map (fun x => zsum (map (f x) ys)) xs)
  = zsum (map (fun y => zsum (map (fun x => f x y) xs)) ys).
Proof.
  induction ys as [|y ys IH].
  - cbn. unfold zsum. induction xs; cbn; [done|lia].
  - cbn [map]. unfold zsum at 3. cbn [foldr]. fold (zsum (map (fun y0 => zsum (map (fun x => f x y0) xs)) ys)).
    rewrite <- IH, <- zsum_map_add. apply zsum_map_ext. intros x _. reflexivity.
Qed.

Lemma zsum_map_const {A} (c : Z) (l : list A) :
  zsum (map (fun _ => c) l) = c * Z.of_nat (length l).
Proof. unfold zsum. induction l as [|x l IH]; cbn [map foldr length]; lia. Qed.

Lemma zsum_map_sub {A} (f g : A -> Z) (l : list A) :
  zsum (map (fun x => f x - g x) l) = zsum (map f l) - zsum (map g l).
Proof. unfold zsum. induction l as [|x l IH]; cbn; lia. Qed.

Section RowSums.
Context `{Utils} `{Numpy} `{!NumpyLaws}.

Lemma projection_sum (d : nat) (n : Z) (contexts : list string) :
  0 <= n -> (0 < d)%nat ->
  zsum (map (projection d n contexts) (seq 0 d))
  = - (n `mod` 2) * Z.of_nat (length contexts).
Proof.
  intros Hn0 Hd0. unfold projection.
  rewrite (zsum_map_zsum
             (fun k context =>
                hits (Z.of_nat k) (positive_half (seeded_vector d n context))
                - hits (Z.of_nat k) (negative_half (seeded_vector d n context)))).
  rewrite <- zsum_map_const. apply zsum_map_ext. intros c _.
  destruct (seeded_vector_ok d n c Hn0 Hd0) as [Hlen Hrange].
  destruct (in_range_halves _ _ Hrange) as [Hpos Hneg].
  rewrite zsum_map_sub, !zsum_hits by done.
  rewrite positive_half_take, negative_half_drop, length_take, length_drop.
  pose proof (half_length (seeded_vector d n c)) as [Hhalf Hle].
  rewrite Nat.min_l by done.
  rewrite Nat2Z.inj_sub by done. rewrite <- Hhalf, Hlen.
  pose proof (Z.div_mod n 2). lia.
Qed.

(** X11. The cells of every row add up to zero when [num_indices] is even, and to
    minus the number of context occurrences of the row's focus token when it
    is odd: each occurrence adds 1 at [num_indices // 2] drawn cells and
    subtracts 1 at the remaining drawn cells. *)
Theorem RandomIndexing_build_row_sums (config : Config) (text : Text) (d : nat)
    (n : Z) (v v' : Vocab) (pairs : list (string * list string))
    (g g' : rng_state) (values : list (list Z)) (row2word : list string)
    (col2word : list Z) :
  config !! "dimensionality" = Some (VInt (Z.of_nat d)) ->
  config !! "num_indices" = Some (VInt n) ->
  0 <= n -> (0 < d)%nat ->
  text v = Ok (pairs, v') ->
  RandomIndexing_build config text (v, g)
  = Ok (AsTuple values row2word col2word, (v', g')) ->
  forall i focus row,
    row2word !! i = Some focus -> values !! i = Some row ->
    zsum row = - (n `mod` 2) * Z.of_nat (length (contexts_of pairs focus)).
Proof.
  intros Hd Hn Hn0 Hd0 Htext Hrun i focus row Hfocus Hrow.
  assert (pairs <> []) as Hne.
  { intros ->. rewrite RandomIndexing_build_run, Hd, Htext in Hrun.
    by destruct (np_arange _ tt) as [[indices []]|]. }
  destruct (RandomIndexing_build_rows config text d n v v' pairs g
              Hd Hn Hn0 Hd0 Htext Hne)
    as (colfreqs & g2 & Hbuild & Hkeys & Hrows & Hcells).
  rewrite Hrun in Hbuild. injection Hbuild as -> -> _ _.
  assert (rows_get colfreqs focus = Some row) as Hget.
  { apply (rows_get_lookup _ _ _ i); [|done|done].
    rewrite Hkeys. apply foldl_seen_NoDup. constructor. }
  rewrite <- (projection_sum d n) by done. f_equal.
  apply list_eq. intros k. destruct (decide (k < d)%nat) as [Hk|Hk].
  - rewrite (Hcells focus row k Hget Hk).
    by rewrite list_lookup_fmap, lookup_seq_lt.
  - rewrite !lookup_ge_None_2; [done| |].
    + rewrite length_map, length_seq. lia.
    + rewrite (rows_get_values _ _ _ _ Hrows Hget). lia.
Qed.
End RowSums.

Lemma RandomIndexing_build_row_sums_witness :
  exists values g',
    RandomIndexing_build (H := example_utils) (H0 := example_numpy)
      {["dimensionality" := VInt 4; "num_indices" := VInt 3]}
      (mret [("b", ["a"]); ("a", ["b"; "b"])]) (∅, 0)
    = Ok (AsTuple values ["b"; "a"] [0; 1; 2; 3], (∅, g'))
    /\ exists row, values !! 1%nat = Some row /\ zsum row = -2.
Proof.
  set (config := {["dimensionality" := VInt 4; "num_indices" := VInt 3]} : Config).
  set (pairs := [("b", ["a"]); ("a", ["b"; "b"])]).
  destruct (RandomIndexing_build (H := example_utils) (H0 := example_numpy) config
              (mret pairs) (∅, 0))
    as [[[|values row2word col2word] [v' g']]|] eqn:Hbuild;
    try (vm_compute in Hbuild; discriminate).
  assert (row2word = ["b"; "a"] /\ col2word = [0; 1; 2; 3] /\ v' = ∅) as (-> & -> & ->).
  { vm_compute in Hbuild. by injection Hbuild as <- <- <- <- <-. }
  assert (exists row, values !! 1%nat = Some row) as [row Hrow].
  { vm_compute in Hbuild. injection Hbuild as <- <-. by eexists. }
  assert (config !! "dimensionality" = Some (VInt (Z.of_nat 4))) as Hd
    by (vm_compute; reflexivity).
  assert (config !! "num_indices" = Some (VInt 3)) as Hn
    by (vm_compute; reflexivity).
  exists values, g'. split; [done|]. exists row. split; [done|].
  apply (RandomIndexing_build_row_sums (H := example_utils) (H0 := example_numpy)
           (H1 := example_numpy_laws) config (mret pairs) 4 3 ∅ ∅ pairs 0 g'
           values ["b"; "a"] [0; 1; 2; 3] Hd Hn ltac:(lia) ltac:(lia) eq_refl
           Hbuild 1%nat "a" row eq_refl Hrow).
Defined.

(** ** What the co-occurrence mapping stores *)

Lemma sparse_count_context (focus context : string) (colfreqs : Colloc) :
  sparse colfreqs -> sparse (count_context focus colfreqs context).
Proof.
  intros Hsparse f row. unfold count_context.
  destruct (decide (focus = f)) as [->|Hne].
  - rewrite lookup_insert_eq. intros [= <-]. split.
    + apply insert_non_empty.
    + intros c x. destruct (decide (context = c)) as [->|Hc].
      * rewrite lookup_insert_eq. intros [= <-].
        destruct (colfreqs !! f) as [row|] eqn:Hrow; cbn.
        -- destruct (row !! c) as [y|] eqn:Hy; cbn; [|lia].
           destruct (Hsparse f row Hrow) as [_ Hpos]. specialize (Hpos c y Hy). lia.
        -- rewrite lookup_empty. cbn. lia.
      * rewrite lookup_insert_ne by done.
        destruct (colfreqs !! f) as [row|] eqn:Hrow; cbn.
        -- apply (Hsparse f row Hrow).
        -- by rewrite lookup_empty.
  - rewrite lookup_insert_ne by done. apply Hsparse.
Qed.

Lemma sparse_count_pairs (text : list (string * list string)) :
  sparse (count_pairs text).
Proof.
  unfold count_pairs.
  assert (sparse ∅) as Hempty by (intros f row Hrow; by rewrite lookup_empty in Hrow).
  revert Hempty. generalize (∅ : Colloc).
  induction text as [|[focus contexts] text IH]; intros colfreqs Hsparse; [done|].
  cbn [foldl]. apply IH. cbn. clear IH. revert colfreqs Hsparse.
  induction contexts as [|c contexts IH]; intros colfreqs Hsparse; [done|].
  cbn [foldl]. by apply IH, sparse_count_context.
Qed.

Lemma counts_stored (colfreqs : Colloc) (focus context : string) :
  counts colfreqs focus context = default 0 (stored colfreqs focus context).
Proof. reflexivity. Qed.

Lemma count_pairs_counts (text : list (string * list string))
    (focus context : string) :
  counts (count_pairs text) focus context = Z.of_nat (occurrences text focus context).
Proof.
  unfold count_pairs. rewrite counts_foldl_count_pair.
  unfold counts. by rewrite lookup_empty.
Qed.

Lemma count_pairs_stored (text : list (string * list string))
    (focus context : string) :
  stored (count_pairs text) focus context
  = if decide (occurrences text focus context = 0%nat) then None
    else Some (Z.of_nat (occurrences text focus context)).
Proof.
  pose proof (count_pairs_counts text focus context) as Hcounts.
  rewrite counts_stored in Hcounts.
  destruct (stored (count_pairs text) focus context) as [x|] eqn:Hstored;
    cbn in Hcounts.
  - assert (1 <= x) as Hpos.
    { unfold stored in Hstored.
      destruct (count_pairs text !! focus) as [row|] eqn:Hrow; [|done].
      cbn in Hstored.
      by apply (proj2 (sparse_count_pairs text focus row Hrow) context). }
    rewrite decide_False by lia. by rewrite Hcounts.
  - rewrite decide_True by lia. done.
Qed.

(** X12. The co-occurrence mapping stores an entry for a pair of words exactly
    when the context occurs with the focus, and then it stores the number of
    occurrences: no entry is zero, and no row is empty. *)
Theorem cooccurrence_stored_counts (text : list (string * list string)) :
  sparse (count_pairs text)
  /\ forall focus context,
       stored (count_pairs text) focus context
       = if decide (occurrences text focus context = 0%nat) then None
         else Some (Z.of_nat (occurrences text focus context)).
Proof. split; [apply sparse_count_pairs|apply count_pairs_stored]. Qed.

Lemma cooccurrence_stored_counts_witness :
  stored (count_pairs [("a", ["b"; "c"; "b"]); ("c", [])]) "a" "b" = Some 2
  /\ stored (count_pairs [("a", ["b"; "c"; "b"]); ("c", [])]) "c" "a" = None.
Proof.
  rewrite !(proj2 (cooccurrence_stored_counts
                     [("a", ["b"; "c"; "b"]); ("c", [])])).
  split; by vm_compute.
Defined.

Lemma occurrences_Permutation (text1 text2 : list (string * list string))
    (focus context : string) :
  text1 ≡ₚ text2 -> occurrences text1 focus context = occurrences text2 focus context.
Proof.
  intros Hperm. unfold occurrences, contexts_of.
  apply Permutation_length. apply filter_Permutation.
  induction Hperm as [|x l1 l2 _ IH|x y l|l1 l2 l3 _ IH1 _ IH2]; cbn.
  - done.
  - by rewrite IH.
  - rewrite !app_assoc. f_equiv. apply Permutation_app_comm.
  - by rewrite IH1.
Qed.

(** X13. The co-occurrence mapping does not depend on the order in which the
    pairs are yielded. *)
Theorem cooccurrence_order_irrelevant (text1 text2 : list (string * list string)) :
  text1 ≡ₚ text2 -> count_pairs text1 = count_pairs text2.
Proof.
  intros Hperm.
  assert (forall focus context,
            stored (count_pairs text1) focus context
            = stored (count_pairs text2) focus context) as Hstored.
  { intros focus context.
    rewrite !count_pairs_stored.
    by rewrite (occurrences_Permutation _ _ _ _ Hperm). }
  apply map_eq. intros focus.
  destruct (count_pairs text1 !! focus) as [row1|] eqn:Hrow1,
           (count_pairs text2 !! focus) as [row2|] eqn:Hrow2.
  - f_equal. apply map_eq. intros context.
    specialize (Hstored focus context). unfold stored in Hstored.
    by rewrite Hrow1, Hrow2 in Hstored.
  - exfalso. destruct (sparse_count_pairs text1 focus row1 Hrow1) as [Hne _].
    apply Hne, map_eq. intros context.
    specialize (Hstored focus context). unfold stored in Hstored.
    rewrite Hrow1, Hrow2 in Hstored. by rewrite lookup_empty.
  - exfalso. destruct (sparse_count_pairs text2 focus row2 Hrow2) as [Hne _].
    apply Hne, map_eq. intros context.
    specialize (Hstored focus context). unfold stored in Hstored.
    rewrite Hrow1, Hrow2 in Hstored. by rewrite lookup_empty.
  - done.
Qed.

Lemma cooccurrence_order_irrelevant_witness :
  count_pairs [("a", ["b"; "c"]); ("b", ["a"]); ("a", ["b"])]
  = count_pairs [("b", ["a"]); ("a", ["b"]); ("a", ["b"; "c"])].
Proof.
  apply cooccurrence_order_irrelevant.
  change [("a", ["b"; "c"]); ("b", ["a"]); ("a", ["b"])]
    with ([("a", ["b"; "c"])] ++ [("b", ["a"]); ("a", ["b"])])%list.
  change [("b", ["a"]); ("a", ["b"]); ("a", ["b"; "c"])]
    with ([("b", ["a"]); ("a", ["b"])] ++ [("a", ["b"; "c"])])%list.
  apply Permutation_app_comm.
Defined.

(** ** Building a random-indexing model from a corpus *)

Section Construct.
Context `{Utils} `{Numpy} `{MatrixLib} `{!NumpyLaws}.

Lemma RandomIndexing_options_NoDup
    (lower_threshold higher_threshold dimensionality num_indices
       ordered directed : option cval) :
  NoDup [("lower_threshold", lower_threshold);
         ("higher_threshold", higher_threshold);
         ("dimensionality", dimensionality);
         ("num_indices", num_indices);
         ("ordered", ordered); ("directed", directed)].*1.
Proof. cbn. apply (bool_decide_unpack _). vm_compute. reflexivity. Qed.

(** X14. Constructing a random-indexing model from a corpus that holds a token,
    with a lower threshold, a positive dimensionality [d] and a number
    [n >= 0] of indices given as keywords, returns: the matrix has one row
    of [d] cells for every distinct token, in the order in which the tokens
    first appear in the corpus, its columns are [0 .. d-1], and the
    vocabulary of the instance has counted every token of the corpus. *)
Theorem RandomIndexing_constructs (corpus : Corpus) (L R : Z)
    (config : option Config) (threshold : cval) (higher_threshold : option cval)
    (d : nat) (n : Z) (vocab : option Vocab) (ordered directed : option cval)
    (kwargs : list (string * kwarg)) (g : rng_state) :
  (0 < d)%nat -> 0 <= n ->
  focus_tokens corpus <> [] ->
  exists self values g',
    RandomIndexing___init__ corpus [L; R] config (Some threshold) higher_threshold
      (Some (VInt (Z.of_nat d))) (Some (VInt n)) vocab None ordered directed
      kwargs g
    = Ok (self, g')
    /\ attr_matrix self
       = Some (IndexMatrix_of_arrays values (first_seen (focus_tokens corpus))
                 (Z.of_nat <$> seq 0 d))
    /\ length values = length (first_seen (focus_tokens corpus))
    /\ Forall (fun row => length row = d) values
    /\ forall w, freq (vocabulary self) w
                 = freq (default ∅ vocab) w + count_in w (focus_tokens corpus).
Proof.
  intros Hd0 Hn0 Htokens.
  unfold RandomIndexing___init__, DSM___init__.
  set (options := [("lower_threshold", Some threshold);
                   ("higher_threshold", higher_threshold);
                   ("dimensionality", Some (VInt (Z.of_nat d)));
                   ("num_indices", Some (VInt n));
                   ("ordered", ordered); ("directed", directed)]).
  set (cfg := merge_options (default ∅ config) options).
  assert (NoDup options.*1) as Hnodup by apply RandomIndexing_options_NoDup.
  assert (cfg !! "lower_threshold" = Some threshold) as Hthreshold.
  { unfold cfg. rewrite merge_options_lookup.
    rewrite (keyword_unique _ _ (Some threshold)); [done|done|]. left. }
  assert (cfg !! "dimensionality" = Some (VInt (Z.of_nat d))) as Hd.
  { unfold cfg. rewrite merge_options_lookup.
    rewrite (keyword_unique _ _ (Some (VInt (Z.of_nat d)))); [done|done|].
    do 2 right. left. }
  assert (cfg !! "num_indices" = Some (VInt n)) as Hn.
  { unfold cfg. rewrite merge_options_lookup.
    rewrite (keyword_unique _ _ (Some (VInt n))); [done|done|].
    do 3 right. left. }
  destruct (_vocabularize_tally cfg L R corpus (default ∅ vocab) threshold Hthreshold)
    as (pairs & v' & Htext & Hfoci & Hfreq).
  assert (pairs <> []) as Hpairs.
  { intros ->. by rewrite <- Hfoci in Htokens. }
  destruct (RandomIndexing_build_rows cfg (_vocabularize cfg L R corpus) d n
              (default ∅ vocab) v' pairs g Hd Hn Hn0 Hd0 Htext Hpairs)
    as (colfreqs & g' & Hbuild & Hkeys & Hrows & _).
  assert (length colfreqs.*2 = length colfreqs.*1) as Hlen
    by (by rewrite !length_fmap).
  rewrite Hkeys in Hbuild, Hlen.
  change (pairs.*1) with (map fst pairs) in *. rewrite Hfoci in *.
  eexists _, colfreqs.*2, g'. split.
  - unfold mbind at 1, M_bind at 1. unfold build_matrix.
    unfold mbind at 1, M_bind at 1. unfold build. cbn [_build].
    fold options. fold cfg. rewrite Hbuild. reflexivity.
  - cbn. split; [done|]. split; [done|]. split; [done|]. exact Hfreq.
Qed.

End Construct.

Lemma RandomIndexing_constructs_witness :
  exists self values g',
    RandomIndexing___init__ (H := example_utils) (H0 := example_numpy)
      (H1 := example_matrixlib) [Line "b a b"] [1; 1] None (Some (VInt 0)) None
      (Some (VInt (Z.of_nat 4))) (Some (VInt 2)) None None
      (Some (VBool false)) (Some (VBool false)) [] 0
    = Ok (self, g')
    /\ attr_matrix self
       = Some (FromArrays values
                 (first_seen (focus_tokens (H := example_utils) [Line "b a b"]))
                 (Z.of_nat <$> seq 0 4))
    /\ length values
       = length (first_seen (focus_tokens (H := example_utils) [Line "b a b"]))
    /\ Forall (fun row => length row = 4%nat) values
    /\ forall w, freq (vocabulary self) w
                 = freq (default ∅ None) w
                   + count_in w (focus_tokens (H := example_utils) [Line "b a b"]).
Proof.
  apply (RandomIndexing_constructs (H := example_utils) (H0 := example_numpy)
           (H1 := example_matrixlib) (H2 := example_numpy_laws)
           [Line "b a b"] 1 1 None (VInt 0) None 4 2 None
           (Some (VBool false)) (Some (VBool false)) [] 0);
    [lia|lia|by vm_compute].
Defined.

(** ** Re-weighting *)

Section Reweighting.
Context `{Utils} `{Numpy} `{MatrixLib}.

Lemma new_returns (cls : Class_) (corpus : Corpus) (window_size : list Z)
    (m : IndexMatrix) (vocab : Vocab) (cfg : Config) (g g' : rng_state)
    (self : Instance) :
  new cls corpus window_size m vocab cfg g = Ok (self, g') ->
  cls = cls_RandomIndexing
  /\ g' = g
  /\ self = {| type_ := cls_RandomIndexing;
               attr_window_size := Some window_size;
               attr_config :=
                 Some (merge_options cfg
                         [("lower_threshold", None); ("higher_threshold", None);
                          ("dimensionality", Some (VInt 2000));
                          ("num_indices", Some (VInt 8));
                          ("ordered", Some (VBool false));
                          ("directed", Some (VBool false))]);
               attr__vocabulary := Some vocab;
               attr_matrix := Some m;
               attr_corpus := None |}.
Proof.
  destruct cls; [done|]. cbn [new].
  unfold RandomIndexing___init__, DSM___init__.
  destruct window_size as [|L [|R [|]]]; try done.
  by intros [= <- <-].
Qed.

(** X15. When [apply_weighting] returns, the instance is a random-indexing model
    and so is the new one; the new instance holds the weighted matrix, the
    same window and vocabulary, and the configuration the instance had
    before the call except that [dimensionality], [num_indices], [ordered]
    and [directed] are back at the constructor's defaults; and it has no
    [corpus] attribute, so re-weighting it once more raises. *)
Theorem apply_weighting_outcome (self self' : Instance)
    (weight_func : IndexMatrix -> IndexMatrix) (g g' : rng_state) :
  apply_weighting self weight_func g = Ok (self', g') ->
  type_ self = cls_RandomIndexing
  /\ type_ self' = cls_RandomIndexing
  /\ g' = g
  /\ (exists m, attr_matrix self = Some m
                /\ attr_matrix self' = Some (weight_func m))
  /\ vocabulary self' = vocabulary self
  /\ attr_window_size self' = attr_window_size self
  /\ (exists cfg cfg',
        attr_config self = Some cfg
        /\ attr_config self' = Some cfg'
        /\ cfg' !! "dimensionality" = Some (VInt 2000)
        /\ cfg' !! "num_indices" = Some (VInt 8)
        /\ cfg' !! "ordered" = Some (VBool false)
        /\ cfg' !! "directed" = Some (VBool false)
        /\ forall key,
             key ∉ ["dimensionality"; "num_indices"; "ordered"; "directed"] ->
             cfg' !! key = cfg !! key)
  /\ forall w g'', apply_weighting self' w g'' = Error (AttributeError "corpus").
Proof.
  unfold apply_weighting, _new_instance. unfold mbind, M_bind.
  destruct (attr_matrix self) as [m|] eqn:Hm; [|done]. cbn [getattr].
  unfold mret at 1, M_ret at 1.
  destruct (attr_corpus self) as [corpus|] eqn:Hcorpus; [|done]. cbn [getattr].
  unfold mret at 1, M_ret at 1.
  destruct (attr_window_size self) as [window_size|] eqn:Hwin; [|done]. cbn [getattr].
  unfold mret at 1, M_ret at 1.
  destruct (attr_config self) as [cfg|] eqn:Hcfg; [|done]. cbn [getattr].
  unfold mret at 1, M_ret at 1.
  intros Hnew. apply new_returns in Hnew as (Hcls & -> & ->).
  cbn. split_and!; try done.
  - by exists m.
  - exists cfg. eexists. split; [done|]. split; [reflexivity|].
    split_and!; try (by simplify_map_eq).
    intros key Hkey.
    assert (key <> "dimensionality" /\ key <> "num_indices"
            /\ key <> "ordered" /\ key <> "directed") as (Hk1 & Hk2 & Hk3 & Hk4).
    { split_and!; intros ->; apply Hkey; set_solver. }
    by rewrite !lookup_insert_ne.
Qed.

End Reweighting.

Lemma apply_weighting_outcome_witness :
  exists self',
    apply_weighting (H := example_utils) (H0 := example_numpy)
      (H1 := example_matrixlib)
      (Build_Instance (H1 := example_matrixlib) cls_RandomIndexing
         (Some [2; 2]) (Some {["dimensionality" := VInt 50]})
         (Some {["a" := 1]}) (Some (FromDict ∅)) (Some [Line "a"])) Weighted 0
    = Ok (self', 0)
    /\ attr_matrix self' = Some (Weighted (FromDict ∅))
    /\ apply_weighting (H := example_utils) (H0 := example_numpy)
         (H1 := example_matrixlib) self' Weighted 0
       = Error (AttributeError "corpus").
Proof.
  set (self := Build_Instance (H1 := example_matrixlib) cls_RandomIndexing
                 (Some [2; 2]) (Some {["dimensionality" := VInt 50]})
                 (Some {["a" := 1]}) (Some (FromDict ∅)) (Some [Line "a"])).
  destruct (apply_weighting (H := example_utils) (H0 := example_numpy) self
              Weighted 0) as [[self' g']|] eqn:Hrun; [|discriminate].
  assert (g' = 0 /\ attr_matrix self' = Some (Weighted (FromDict ∅))) as [-> Hm].
  { injection Hrun as <- <-. by split. }
  exists self'. split; [done|]. split; [done|].
  exact (proj2 (proj2 (proj2 (proj2 (proj2 (proj2 (proj2
           (apply_weighting_outcome (H := example_utils) (H0 := example_numpy)
              (H1 := example_matrixlib) self self' Weighted 0 0 Hrun)))))))
           Weighted 0).
Defined.

(** ** A corpus without tokens *)

Lemma filter_threshold_words_empty (config : Config) (vocabulary : Vocab) :
  _filter_threshold_words config vocabulary ∅ = ∅.
Proof.
  apply map_eq. intros k. rewrite lookup_empty.
  destruct (out_of_bounds_dec config vocabulary k) as [Hout|Hin].
  - by rewrite filter_lookup_out.
  - by rewrite filter_lookup_in, lookup_empty.
Qed.

Section EmptyCorpus.
Context `{Utils} `{Numpy} `{MatrixLib}.

Lemma build_no_tokens (config : Config) (L R : Z) (v : Vocab) (corpus : Corpus)
    (g : rng_state) :
  focus_tokens corpus = [] ->
  build cls_CooccurrenceDSM config L R v corpus g = Ok (AsDict ∅, v, g)
  /\ build cls_RandomIndexing config L R v corpus g
     = Error (match config !! "dimensionality" with
              | None => KeyError "dimensionality"
              | Some VInf => ValueError "Maximum allowed size exceeded"
              | Some _ => ValueError "need at least one array to concatenate"
              end).
Proof.
  intros Hnone. unfold build. cbn [_build]. split.
  - unfold CooccurrenceDSM_build, mbind, M_bind, on_fst. cbn [fst snd].
    rewrite _vocabularize_no_tokens by done. cbn.
    by rewrite filter_threshold_words_empty.
  - rewrite RandomIndexing_build_run, _vocabularize_no_tokens by done.
    destruct (config !! "dimensionality") as [[b|z|]|]; done.
Qed.

(** X16. From a corpus without tokens the co-occurrence build returns the empty
    mapping, whereas the random-indexing build always raises, and so does
    the construction of a random-indexing model, whatever its options:
    [np.vstack] has no row to stack. *)
Theorem build_empty_corpus (config : Config) (L R : Z) (v : Vocab)
    (corpus : Corpus) (g : rng_state) :
  focus_tokens corpus = [] ->
  build cls_CooccurrenceDSM config L R v corpus g = Ok (AsDict ∅, v, g)
  /\ build cls_RandomIndexing config L R v corpus g
     = Error (match config !! "dimensionality" with
              | None => KeyError "dimensionality"
              | Some VInf => ValueError "Maximum allowed size exceeded"
              | Some _ => ValueError "need at least one array to concatenate"
              end)
  /\ forall options lower_threshold higher_threshold dimensionality num_indices
            vocabulary ordered directed kwargs,
       exists e,
         RandomIndexing___init__ corpus [L; R] options lower_threshold
           higher_threshold dimensionality num_indices vocabulary None ordered
           directed kwargs g
         = Error e
         /\ (e = KeyError "dimensionality" \/ exists msg, e = ValueError msg).
Proof.
  intros Hnone. split; [by apply build_no_tokens|]. split; [by apply build_no_tokens|].
  intros options lower_threshold higher_threshold dimensionality num_indices
    vocabulary ordered directed kwargs.
  unfold RandomIndexing___init__, DSM___init__, build_matrix.
  unfold mbind, M_bind.
  rewrite (proj2 (build_no_tokens _ L R _ corpus g Hnone)).
  eexists. split; [reflexivity|].
  destruct (merge_options _ _ !! "dimensionality") as [[b|z|]|];
    [right|right|right|left]; by eauto.
Qed.
End EmptyCorpus.

Lemma build_empty_corpus_witness :
  build (H := example_utils) (H0 := example_numpy) cls_CooccurrenceDSM
    {["dimensionality" := VInt 4]} 2 2 {["a" := 1]} [Line ""; Tokens []] 0
  = Ok (AsDict ∅, {["a" := 1]}, 0)
  /\ build (H := example_utils) (H0 := example_numpy) cls_RandomIndexing
       {["dimensionality" := VInt 4]} 2 2 {["a" := 1]} [Line ""; Tokens []] 0
     = Error (ValueError "need at least one array to concatenate").
Proof.
  assert (focus_tokens (H := example_utils) [Line ""; Tokens []] = []) as Hnone
    by reflexivity.
  destruct (build_empty_corpus (H := example_utils) (H0 := example_numpy)
              (H1 := example_matrixlib) ({["dimensionality" := VInt 4]} : Config)
              2 2 ({["a" := 1]} : Vocab) [Line ""; Tokens []] 0 Hnone)
    as (Hcooc & Hri & _).
  split; [exact Hcooc|]. rewrite Hri. reflexivity.
Defined.

(** ** Symmetric windows give symmetric counts *)

Lemma in_window_sym (w : Z) (n i j : nat) :
  (i < n)%nat -> (j < n)%nat -> in_window w n i j = in_window w n j i.
Proof.
  intros Hi Hj. unfold in_window.
  destruct (Z.leb_spec (Z.max 0 (Z.of_nat i - w)) (Z.of_nat j)),
           (Z.ltb_spec (Z.of_nat j) (Z.of_nat i)),
           (Z.ltb_spec (Z.of_nat i) (Z.of_nat j)),
           (Z.ltb_spec (Z.of_nat j) (Z.min (Z.of_nat n) (Z.of_nat i + w + 1))),
           (Z.leb_spec (Z.max 0 (Z.of_nat j - w)) (Z.of_nat i)),
           (Z.ltb_spec (Z.of_nat i) (Z.min (Z.of_nat n) (Z.of_nat j + w + 1)));
    cbn; try reflexivity; lia.
Qed.

Lemma flatten_cons (it : item) (s : sentence) :
  _flatten (it :: s) = (focuses_of it ++ _flatten s)%list.
Proof. by destruct it. Qed.

Lemma zsum_cons (x : Z) (l : list Z) : zsum (x :: l) = x + zsum l.
Proof. reflexivity. Qed.

Lemma zsum_map_scale {A} (c : Z) (f : A -> Z) (l : list A) :
  c * zsum (map f l) = zsum (map (fun x => c * f x) l).
Proof. induction l as [|x l IH]; cbn [map]; rewrite ?zsum_cons; [cbn; lia|lia]. Qed.

Lemma imap_enumerate {A B} (f : nat -> A -> B) (l : list A) :
  imap f l = map (fun '(k, x) => f k x) (enumerate l).
Proof.
  unfold enumerate.
  change (map (fun '(k, x) => f k x) (imap pair l))
    with ((fun '(k, x) => f k x) <$> imap pair l).
  by rewrite fmap_imap.
Qed.

Lemma enumerate_elem {A} (l : list A) (k : nat) (x : A) :
  (k, x) ∈ enumerate l -> (k < length l)%nat.
Proof.
  unfold enumerate. intros (i & y & [= -> ->] & Hi)%elem_of_lookup_imap.
  by apply lookup_lt_Some in Hi.
Qed.

(** Counting a word in the elements selected by position. *)
Lemma count_in_select_from (b : string) (P : Z -> bool) (p : Z) (l : sentence) :
  count_in b (_flatten (select_from P p l))
  = zsum (imap (fun k it => if P (p + Z.of_nat k)
                            then count_in b (focuses_of it) else 0) l).
Proof.
  revert p. induction l as [|x l IH]; intros p; [done|].
  rewrite imap_cons, zsum_cons. cbn [select_from].
  replace (p + Z.of_nat 0) with p by lia.
  assert (zsum (imap (fun k it => if P (p + 1 + Z.of_nat k)
                                  then count_in b (focuses_of it) else 0) l)
          = zsum (imap ((fun k it => if P (p + Z.of_nat k)
                                     then count_in b (focuses_of it) else 0) ∘ S) l))
    as Hshift.
  { f_equal. apply imap_ext. intros k it _. cbn.
    by replace (p + 1 + Z.of_nat k) with (p + Z.of_nat (S k)) by lia. }
  rewrite <- Hshift, <- IH.
  destruct (P p); [|lia].
  by rewrite flatten_cons, count_in_app.
Qed.

Lemma count_in_window (b : string) (w : Z) (s : sentence) (i : nat) :
  count_in b (window_left w s i ++ window_right w s i)
  = zsum (map (fun '(j, it) => if in_window w (length s) i j
                               then count_in b (focuses_of it) else 0)
              (enumerate s)).
Proof.
  rewrite count_in_app. unfold window_left, window_right, items_at.
  rewrite !count_in_select_from, !imap_enumerate, <- zsum_map_add.
  apply zsum_map_ext. intros [j it] _. unfold in_window.
  rewrite !Z.add_0_l.
  destruct (Z.leb_spec (Z.max 0 (Z.of_nat i - w)) (Z.of_nat j)),
           (Z.ltb_spec (Z.of_nat j) (Z.of_nat i)),
           (Z.ltb_spec (Z.of_nat i) (Z.of_nat j)),
           (Z.ltb_spec (Z.of_nat j) (Z.min (Z.of_nat (length s)) (Z.of_nat i + w + 1)));
    cbn; lia.
Qed.

Lemma count_in_flat_map {A} (b : string) (f : A -> list string) (l : list A) :
  count_in b (flat_map f l) = zsum (map (fun x => count_in b (f x)) l).
Proof.
  induction l as [|x l IH]; [done|].
  cbn [flat_map map]. by rewrite count_in_app, zsum_cons, IH.
Qed.

Lemma contexts_of_app (text1 text2 : list (string * list string)) (focus : string) :
  contexts_of (text1 ++ text2) focus
  = (contexts_of text1 focus ++ contexts_of text2 focus)%list.
Proof. unfold contexts_of. apply flat_map_app. Qed.

Lemma contexts_of_flat_map {A} (f : A -> list (string * list string))
    (l : list A) (focus : string) :
  contexts_of (flat_map f l) focus = flat_map (fun x => contexts_of (f x) focus) l.
Proof.
  induction l as [|x l IH]; [done|].
  cbn [flat_map]. by rewrite contexts_of_app, IH.
Qed.

Lemma count_in_contexts_of_map (a b : string) (contexts focuses : list string) :
  count_in b (contexts_of (map (fun focus => (focus, contexts)) focuses) a)
  = count_in a focuses * count_in b contexts.
Proof.
  induction focuses as [|f focuses IH]; [done|].
  cbn [map]. change ((f, contexts) :: ?l) with ([(f, contexts)] ++ l)%list.
  rewrite contexts_of_app, count_in_app, IH, count_in_cons.
  unfold contexts_of. cbn [flat_map]. rewrite app_nil_r.
  destruct (decide (f = a)); [lia|]. rewrite count_in_nil. lia.
Qed.

(** The number of times [b] is a context of [a] in one sentence, as a sum
    over pairs of positions. *)
Lemma count_in_expected_of_sentence (config : Config) (w : Z) (s : sentence)
    (a b : string) :
  truthy (config_get config "directed" (VBool false)) = false ->
  truthy (config_get config "ordered" (VBool false)) = false ->
  count_in b (contexts_of (expected_of_sentence config w w s) a)
  = zsum (map (fun '(i, x) =>
                 zsum (map (fun '(j, y) =>
                              if in_window w (length s) i j
                              then count_in a (focuses_of x)
                                   * count_in b (focuses_of y)
                              else 0) (enumerate s)))
              (enumerate s)).
Proof.
  intros Hd Ho. unfold expected_of_sentence.
  rewrite contexts_of_flat_map, count_in_flat_map.
  apply zsum_map_ext. intros [i x] _.
  rewrite count_in_contexts_of_map, tagged_plain, count_in_window by done.
  rewrite zsum_map_scale. apply zsum_map_ext. intros [j y] _.
  destruct (in_window w (length s) i j); lia.
Qed.

Lemma count_in_expected_of_sentence_sym (config : Config) (w : Z) (s : sentence)
    (a b : string) :
  truthy (config_get config "directed" (VBool false)) = false ->
  truthy (config_get config "ordered" (VBool false)) = false ->
  count_in b (contexts_of (expected_of_sentence config w w s) a)
  = count_in a (contexts_of (expected_of_sentence config w w s) b).
Proof.
  intros Hd Ho. rewrite !count_in_expected_of_sentence by done.
  set (F := fun (c1 c2 : string) (ix jy : nat * item) =>
              if in_window w (length s) ix.1 jy.1
              then count_in c1 (focuses_of ix.2) * count_in c2 (focuses_of jy.2)
              else 0).
  trans (zsum (map (fun ix => zsum (map (F a b ix) (enumerate s))) (enumerate s))).
  { apply zsum_map_ext. intros [i x] _. apply zsum_map_ext. by intros [j y] _. }
  rewrite zsum_map_zsum.
  apply zsum_map_ext. intros [j y] Hj. apply enumerate_elem in Hj.
  apply zsum_map_ext. intros [i x] Hi. apply enumerate_elem in Hi.
  unfold F. cbn [fst snd]. rewrite (in_window_sym w _ i j) by done.
  destruct (in_window w (length s) j i); lia.
Qed.

Lemma occurrences_count_in (text : list (string * list string)) (a b : string) :
  Z.of_nat (occurrences text a b) = count_in b (contexts_of text a).
Proof. reflexivity. Qed.

Lemma expected_pairs_sym `{Utils} (config : Config) (w : Z) (corpus : Corpus)
    (a b : string) :
  truthy (config_get config "directed" (VBool false)) = false ->
  truthy (config_get config "ordered" (VBool false)) = false ->
  occurrences (expected_pairs config w w corpus) a b
  = occurrences (expected_pairs config w w corpus) b a.
Proof.
  intros Hd Ho. apply Nat2Z.inj. rewrite !occurrences_count_in.
  unfold expected_pairs. rewrite !contexts_of_flat_map, !count_in_flat_map.
  apply zsum_map_ext. intros s _. by apply count_in_expected_of_sentence_sym.
Qed.

Lemma counts_filter (config : Config) (vocabulary : Vocab) (d : Colloc)
    (a b : string) :
  counts (_filter_threshold_words config vocabulary d) a b
  = if dropped config (map_to_list vocabulary) a
       || dropped config (map_to_list vocabulary) b
    then 0 else counts d a b.
Proof.
  unfold counts.
  destruct (dropped config (map_to_list vocabulary) a) eqn:Ha.
  - apply dropped_out_of_bounds in Ha. by rewrite filter_lookup_out.
  - rewrite filter_lookup_in.
    + destruct (d !! a) as [row|]; cbn.
      * rewrite pruned_lookup. by destruct (dropped _ _ b).
      * by destruct (dropped _ _ b).
    + intros Hout. apply dropped_out_of_bounds in Hout. congruence.
Qed.

Section Symmetry.
Context `{Utils} `{Numpy}.

(** X17. With the same number [w >= 0] of positions to the left and to the right,
    no threshold filter in the generator and neither [directed] nor
    [ordered] tags, the co-occurrence counts are symmetric: [b] is counted
    as a context of [a] as often as [a] as a context of [b], before and
    after the threshold filter of the build. *)
Theorem cooccurrence_symmetric (config : Config) (w : Z) (corpus : Corpus)
    (v : Vocab) (threshold : cval) (g : rng_state) :
  0 <= w ->
  config !! "lower_threshold" = Some threshold ->
  truthy threshold = false ->
  truthy (config_get config "directed" (VBool false)) = false ->
  truthy (config_get config "ordered" (VBool false)) = false ->
  exists colfreqs v',
    CooccurrenceDSM_build (_vocabularize config w w corpus) (v, g)
    = Ok (AsDict colfreqs, (v', g))
    /\ symmetric colfreqs
    /\ build cls_CooccurrenceDSM config w w v corpus g
       = Ok (AsDict (_filter_threshold_words config v' colfreqs), v', g)
    /\ symmetric (_filter_threshold_words config v' colfreqs).
Proof.
  intros Hw Hcfg Hthr Hd Ho.
  pose proof (_vocabularize_unfiltered config w w corpus v threshold Hw Hcfg Hthr)
    as Htext.
  assert (CooccurrenceDSM_build (_vocabularize config w w corpus) (v, g)
          = Ok (AsDict (count_pairs (expected_pairs config w w corpus)),
                (foldl bump v (focus_tokens corpus), g))) as Hbuild.
  { unfold CooccurrenceDSM_build, mbind, M_bind, on_fst. cbn [fst snd].
    by rewrite Htext. }
  assert (symmetric (count_pairs (expected_pairs config w w corpus))) as Hsym.
  { intros a b. rewrite !count_pairs_counts. f_equal. by apply expected_pairs_sym. }
  eexists _, _. split; [exact Hbuild|]. split; [exact Hsym|]. split.
  - unfold build. cbn [_build]. by rewrite Hbuild.
  - intros a b. rewrite !counts_filter, (Hsym a b).
    by destruct (dropped _ _ a), (dropped _ _ b).
Qed.

End Symmetry.

Lemma cooccurrence_symmetric_witness :
  exists colfreqs v',
    CooccurrenceDSM_build (G := Z)
      (_vocabularize (H := example_utils)
         {["lower_threshold" := VInt 0; "higher_threshold" := VInt 2]} 2 2
         [Line "a b a c"; Tokens [Ngram ["a"; "b"]; Word "c"]]) (∅, 0)
    = Ok (AsDict colfreqs, (v', 0))
    /\ symmetric colfreqs
    /\ build (H := example_utils) (H0 := example_numpy) cls_CooccurrenceDSM
         {["lower_threshold" := VInt 0; "higher_threshold" := VInt 2]} 2 2 ∅
         [Line "a b a c"; Tokens [Ngram ["a"; "b"]; Word "c"]] 0
       = Ok (AsDict (_filter_threshold_words
                       {["lower_threshold" := VInt 0; "higher_threshold" := VInt 2]}
                       v' colfreqs), v', 0)
    /\ symmetric (_filter_threshold_words
                    {["lower_threshold" := VInt 0; "higher_threshold" := VInt 2]}
                    v' colfreqs).
Proof.
  apply (cooccurrence_symmetric (H := example_utils) (H0 := example_numpy)
           ({["lower_threshold" := VInt 0; "higher_threshold" := VInt 2]} : Config)
           2 [Line "a b a c"; Tokens [Ngram ["a"; "b"]; Word "c"]] ∅ (VInt 0) 0);
    [lia|by vm_compute|reflexivity|by vm_compute|by vm_compute].
Defined.
